(** * Jira to OpenProject importer: document converter, identity map,
      relationship resolver and entity synchronizer

    A shallow embedding of [src/migrate-all.js] (the script [migrateAll],
    the relationship module, [migrateIssues] and
    [convertAtlassianDocumentToHtml]) and, from [src/openproject-client.js],
    of [addWatcher], the vocabulary lookups ([getWorkPackageTypeId],
    [getWorkPackageStatusId], [getWorkPackagePriorityId]),
    [getOpenProjectWorkPackages] and [findExistingWorkPackage].

    Conventions.
    - A JavaScript exception is a [Throw]; code inside [try]/[catch] is
      modelled by matching on the [result].  What a computation wrote to
      its state before it threw stays written.
    - [console.log]/[console.error] lines that matter for the properties,
      and the calls to collaborators, are recorded as events of a log.
    - The target of the relationship module is an oracle over an abstract
      target state; the collaborators of [migrateIssues] are recorded
      answers.
    - Source records are typed views of the JSON the code reads: a field
      that may be absent is an [option]. *)

From Stdlib Require Import Ascii String.
From stdpp Require Import base strings list gmap pretty.

Open Scope string_scope.

(** ** Exceptions *)

(** What a [throw] carries: a [TypeError] of the code itself, or the error
    of a failed HTTP call. *)
Inductive exn :=
| TypeError (what : string)
| HttpError (status : option Z).

Inductive result (A : Type) :=
| Ok (a : A)
| Throw (e : exn).
Arguments Ok {A} a.
Arguments Throw {A} e.

Global Instance result_ret : MRet result := λ A a, Ok a.

Global Instance result_bind : MBind result := λ A B k r,
  match r with
  | Ok a => k a
  | Throw e => Throw e
  end.

Definition is_ok {A} (r : result A) : bool :=
  match r with Ok _ => true | Throw _ => false end.

(** ** State and exceptions

    A computation reads and writes a state [S] and returns or throws; what
    it wrote before throwing stays written. *)

Definition M (S A : Type) : Type := S → result A * S.

Global Instance M_ret {S} : MRet (M S) := λ A a st, (Ok a, st).

Global Instance M_bind {S} : MBind (M S) := λ A B k m st,
  match m st with
  | (Ok a, st') => k a st'
  | (Throw e, st') => (Throw e, st')
  end.

(** [try { m } catch (error) { h error }] *)
Definition try_catch {S A} (m : M S A) (h : exn → M S A) : M S A := λ st,
  match m st with
  | (Ok a, st') => (Ok a, st')
  | (Throw e, st') => h e st'
  end.

Definition throw {S A} (e : exn) : M S A := λ st, (Throw e, st).

(** Lifts a call that may throw and touches no state. *)
Definition lift {S A} (r : result A) : M S A := λ st, (r, st).

(** [for (const x of l) f(x)] *)
Fixpoint for_each {S A} (f : A → M S unit) (l : list A) : M S unit :=
  match l with
  | [] => mret tt
  | x :: l' => _ ← f x; for_each f l'
  end.

(** [preserves P m]: running [m] keeps the state inside [P], whether it
    returns or throws. *)
Definition preserves {S A} (P : S → Prop) (m : M S A) : Prop :=
  ∀ st, P st → P (m st).2.

(** ** Strings *)

Module Str.

(** The double-quote character, which the markup templates need. *)
Definition dq : string := String (Ascii.ascii_of_nat 34) EmptyString.

Fixpoint is_prefix (p s : string) : bool :=
  match p, s with
  | EmptyString, _ => true
  | String a p', String b s' => if Ascii.eqb a b then is_prefix p' s' else false
  | String _ _, EmptyString => false
  end.

Fixpoint drop (n : nat) (s : string) : string :=
  match n, s with
  | O, _ => s
  | S n', String _ s' => drop n' s'
  | S _, EmptyString => EmptyString
  end.

(** [s.includes(p)] *)
Fixpoint includes (p s : string) : bool :=
  is_prefix p s ||
  match s with
  | EmptyString => false
  | String _ s' => includes p s'
  end.

(** [s.replace(p, r)] for a string pattern [p] and a replacement [r] that
    holds no dollar sign: only the first occurrence is replaced. *)
Fixpoint replace (p r s : string) : string :=
  if is_prefix p s then r +:+ drop (String.length p) s
  else match s with
       | EmptyString => EmptyString
       | String c s' => String c (replace p r s')
       end.

(** [s.replace(/c/g, r)] for a one-character pattern. *)
Fixpoint replace_all_char (c : ascii) (r s : string) : string :=
  match s with
  | EmptyString => EmptyString
  | String a s' =>
      (if Ascii.eqb a c then r else String a EmptyString)
        +:+ replace_all_char c r s'
  end.

Definition lower_ascii (a : ascii) : ascii :=
  let n := Ascii.nat_of_ascii a in
  if (65 <=? n)%nat && (n <=? 90)%nat then Ascii.ascii_of_nat (n + 32) else a.

(** [s.toLowerCase()] on the ASCII letters; other bytes are kept. *)
Fixpoint toLowerCase (s : string) : string :=
  match s with
  | EmptyString => EmptyString
  | String a s' => String (lower_ascii a) (toLowerCase s')
  end.

(** [a < b] on two strings. *)
Definition lt (a b : string) : bool := String.ltb a b.

Fixpoint count_char (c : ascii) (s : string) : nat :=
  match s with
  | EmptyString => 0
  | String a s' => (if Ascii.eqb a c then 1 else 0) + count_char c s'
  end.

End Str.

(** ** Identifiers of the target system *)

(** A work-package id is a JSON number of the API, or a string (the dry-run
    constant). *)
Inductive ident :=
| IdNum (n : Z)
| IdStr (s : string).

Global Instance ident_eq_dec : EqDecision ident.
Proof. solve_decision. Defined.

Definition ident_toString (i : ident) : string :=
  match i with
  | IdNum n => pretty n
  | IdStr s => s
  end.

(** [if (id)] *)
Definition ident_truthy (i : ident) : bool :=
  match i with
  | IdNum n => negb (n =? 0)%Z
  | IdStr s => negb (String.eqb s EmptyString)
  end.

(** [map.get(k)] followed by a truthiness test. *)
Definition truthy_lookup (m : gmap string ident) (k : string) : option ident :=
  match m !! k with
  | Some i => if ident_truthy i then Some i else None
  | None => None
  end.

(** ** Document converter ([convertAtlassianDocumentToHtml]) *)

Module Converter.

(** The fields of a document node that the converter reads.  A field that
    is absent is [None]; a field that is present has the type the
    Atlassian document format gives it. *)
Record link_attrs := { href : option string }.
Record mark := { mark_type : string; mark_attrs : option link_attrs }.
Record node_attrs := {
  level : option Z;
  attrs_type : option string;
  alt : option string
}.

#[local] Unset Elimination Schemes.
Inductive node :=
| Null
| Node (type : option string) (text : option string)
       (marks : option (list mark)) (attrs : option node_attrs)
       (content : option (list node)).
#[local] Set Elimination Schemes.

(** The argument of [convertAtlassianDocumentToHtml]: nothing, a bare
    string, or a node. *)
Inductive document :=
| DocAbsent
| DocString (s : string)
| DocNode (n : node).

Inductive node_kind :=
| KDoc | KParagraph | KText | KBulletList | KOrderedList | KListItem
| KHeading | KCodeBlock | KBlockquote | KHardBreak | KTable | KTableRow
| KTableHeader | KTableCell | KMediaSingle | KMedia | KDefault.

Definition kind_table : list (string * node_kind) :=
  [ ("doc", KDoc); ("paragraph", KParagraph); ("text", KText);
    ("bulletList", KBulletList); ("orderedList", KOrderedList);
    ("listItem", KListItem); ("heading", KHeading);
    ("codeBlock", KCodeBlock); ("blockquote", KBlockquote);
    ("hardBreak", KHardBreak); ("table", KTable); ("tableRow", KTableRow);
    ("tableHeader", KTableHeader); ("tableCell", KTableCell);
    ("mediaSingle", KMediaSingle); ("media", KMedia) ].

(** The [switch (node.type)] dispatch. *)
Definition kind_of (ty : string) : node_kind :=
  match find (λ e, String.eqb (fst e) ty) kind_table with
  | Some e => snd e
  | None => KDefault
  end.

Definition escape (s : string) : string :=
  Str.replace_all_char ">"%char "&gt;" (Str.replace_all_char "<"%char "&lt;" s).

(** [`${x}`] for an optional string. *)
Definition template_opt (x : option string) : string :=
  match x with
  | Some s => s
  | None => "undefined"
  end.

Definition opt_truthy (x : option string) : bool :=
  match x with
  | Some s => negb (String.eqb s EmptyString)
  | None => false
  end.

(** One step of [node.marks.forEach]. *)
Definition apply_mark (text : string) (m : mark) : result string :=
  if String.eqb (mark_type m) "strong" then
    Ok ("<strong>" +:+ text +:+ "</strong>")
  else if String.eqb (mark_type m) "em" then
    Ok ("<em>" +:+ text +:+ "</em>")
  else if String.eqb (mark_type m) "code" then
    Ok ("<code>" +:+ text +:+ "</code>")
  else if String.eqb (mark_type m) "link" then
    match mark_attrs m with
    | None => Throw (TypeError "mark.attrs is undefined")
    | Some a =>
        Ok ("<a href=" +:+ Str.dq +:+ template_opt (href a) +:+ Str.dq
              +:+ ">" +:+ text +:+ "</a>")
    end
  else Ok text.

Fixpoint apply_marks (text : string) (ms : list mark) : result string :=
  match ms with
  | [] => Ok text
  | m :: ms' =>
      match apply_mark text m with
      | Ok text' => apply_marks text' ms'
      | Throw e => Throw e
      end
  end.

Definition placeholder (filename : string) : string :=
  "{{jira-attachment-placeholder:" +:+ filename +:+ "}}".

(** [node.attrs.level || 1] *)
Definition heading_level (a : node_attrs) : Z :=
  match level a with
  | Some l => if (l =? 0)%Z then 1%Z else l
  | None => 1%Z
  end.

Definition wrap (tag content : string) : string :=
  "<" +:+ tag +:+ ">" +:+ content +:+ "</" +:+ tag +:+ ">".

(** The [switch] of [processNode], once the children are rendered. *)
Definition render (k : node_kind) (text : option string)
    (marks : option (list mark)) (attrs : option node_attrs)
    (content : string) : result string :=
  match k with
  | KDoc => Ok content
  | KParagraph =>
      Ok (wrap "p" (if String.eqb content EmptyString then "&nbsp;" else content))
  | KText =>
      match text with
      | None => Throw (TypeError "node.text is undefined")
      | Some t =>
          match marks with
          | None => Ok (escape t)
          | Some ms => apply_marks (escape t) ms
          end
      end
  | KBulletList => Ok (wrap "ul" content)
  | KOrderedList => Ok (wrap "ol" content)
  | KListItem => Ok (wrap "li" content)
  | KHeading =>
      match attrs with
      | None => Throw (TypeError "node.attrs is undefined")
      | Some a => Ok (wrap ("h" +:+ pretty (heading_level a)) content)
      end
  | KCodeBlock => Ok ("<pre><code>" +:+ content +:+ "</code></pre>")
  | KBlockquote => Ok (wrap "blockquote" content)
  | KHardBreak => Ok "<br />"
  | KTable => Ok ("<table><tbody>" +:+ content +:+ "</tbody></table>")
  | KTableRow => Ok (wrap "tr" content)
  | KTableHeader => Ok (wrap "th" content)
  | KTableCell => Ok (wrap "td" content)
  | KMediaSingle => Ok (wrap "p" content)
  | KMedia =>
      match attrs with
      | None => Throw (TypeError "node.attrs is undefined")
      | Some a =>
          match attrs_type a with
          | Some ty =>
              if String.eqb ty "file" && opt_truthy (alt a)
              then Ok (placeholder (template_opt (alt a)))
              else Ok EmptyString
          | None => Ok EmptyString
          end
      end
  | KDefault => Ok content
  end.

(** [children.map(f).join("")]: the first child that throws aborts. *)
Definition map_join {A} (f : A → result string) : list A → result string :=
  fix go (l : list A) : result string :=
    match l with
    | [] => Ok EmptyString
    | c :: l' => s ← f c; rest ← go l'; mret (s +:+ rest)
    end.

Fixpoint processNode (n : node) : result string :=
  match n with
  | Null => Ok EmptyString
  | Node type text marks attrs content =>
      if opt_truthy type then
        c ← match content with
            | None => Ok EmptyString
            | Some l => map_join processNode l
            end;
        render (kind_of (template_opt type)) text marks attrs c
      else Ok EmptyString
  end.

Definition convertAtlassianDocumentToHtml (doc : document) : result string :=
  match doc with
  | DocAbsent => Ok EmptyString
  | DocString s =>
      if String.eqb s EmptyString then Ok EmptyString else Ok (wrap "p" s)
  | DocNode n => processNode n
  end.

(** *** Documents on which no property access fails *)

Definition mark_ok (m : mark) : bool :=
  if String.eqb (mark_type m) "link" then bool_decide (is_Some (mark_attrs m))
  else true.

(** What [render] dereferences, per node kind. *)
Definition fields_ok (k : node_kind) (text : option string)
    (marks : option (list mark)) (attrs : option node_attrs) : bool :=
  match k with
  | KText =>
      bool_decide (is_Some text) &&
      match marks with
      | Some ms => forallb mark_ok ms
      | None => true
      end
  | KHeading | KMedia => bool_decide (is_Some attrs)
  | _ => true
  end.

Fixpoint well_formed (n : node) : bool :=
  match n with
  | Null => true
  | Node type text marks attrs content =>
      if opt_truthy type then
        match content with
        | None => true
        | Some l => forallb well_formed l
        end
        && fields_ok (kind_of (template_opt type)) text marks attrs
      else true
  end.

Definition well_formed_document (doc : document) : bool :=
  match doc with
  | DocNode n => well_formed n
  | _ => true
  end.

(** *** Sample documents

    Four malformed documents: a text node without [text], a heading without
    [attrs], a media node without [attrs], a link mark without [attrs]. *)

Definition text_without_text : document :=
  DocNode (Node (Some "text") None None None None).

Definition heading_without_attrs : document :=
  DocNode (Node (Some "heading") None None None None).

Definition media_without_attrs : document :=
  DocNode (Node (Some "media") None None None None).

Definition link_without_attrs : document :=
  DocNode (Node (Some "text") (Some "see")
             (Some [ {| mark_type := "link"; mark_attrs := None |} ])
             None None).

(** A media reference to the attachment [file], and a description that
    shows the same attachment twice. *)
Definition media_node (file : string) : node :=
  Node (Some "mediaSingle") None None None
    (Some [Node (Some "media") None None
             (Some {| level := None; attrs_type := Some "file";
                      alt := Some file |}) None]).

Definition twice_referenced : document :=
  DocNode (Node (Some "doc") None None None
             (Some [media_node "diagram.png"; media_node "diagram.png"])).

End Converter.

(** ** Relationship resolver (the relationship module of [src/migrate-all.js]) *)

Module Relationships.

(** The relation vocabulary of the target system. *)
Inductive relation_type :=
| Blocks | Blocked | Relates | Includes | Partof | Duplicates | Duplicated.

Global Instance relation_type_eq_dec : EqDecision relation_type.
Proof. solve_decision. Defined.

Definition relation_type_name (t : relation_type) : string :=
  match t with
  | Blocks => "blocks"
  | Blocked => "blocked"
  | Relates => "relates"
  | Includes => "includes"
  | Partof => "partof"
  | Duplicates => "duplicates"
  | Duplicated => "duplicated"
  end.

(** The fields of a source issue that this module reads.  [linked_created]
    is [link.outwardIssue.fields?.created]. *)
Record linked_issue := { linked_key : string; linked_created : option string }.

Record issue_link := {
  type_outward : string;
  type_inward : string;
  outwardIssue : option linked_issue;
  inwardIssue : option linked_issue
}.

Record issue := {
  key : string;
  created : string;
  customfield_10014 : option string;
  issuelinks : option (list issue_link)
}.

(** An element of [missingRelationships].  The set holds the JSON text of
    [{fromKey, toKey, type}]; that text determines the three fields, so the
    element is modelled by them.  [JSON.stringify] drops the fields that are
    undefined, which happens for a link with neither end: [Dangling]. *)
Inductive deferred :=
| Triple (fromKey toKey : string) (type : relation_type)
| Dangling (fromKey : string).

Global Instance deferred_eq_dec : EqDecision deferred.
Proof. solve_decision. Defined.

(** [set.add(x)] on an insertion-ordered [Set]. *)
Definition set_add (x : deferred) (s : list deferred) : list deferred :=
  if decide (x ∈ s) then s else s ++ [x].

(** One filter of [GET /relations]. *)
Record relation_filter := {
  filter_from : string;
  filter_to : string;
  filter_type : string
}.

Global Instance relation_filter_eq_dec : EqDecision relation_filter.
Proof. solve_decision. Defined.

(** Answer to [POST /work_packages/:id/relations].  [PostFailed errs]: the
    call threw; [errs] is [error.response?.data?._embedded?.errors], each
    entry reduced to its [message] (absent: [None]). *)
Inductive post_response :=
| PostOk
| PostFailed (errors : option (list (option string))).

(** The target system, over an abstract state [T].
    - [get_parent t id]: [GET /work_packages/id], reduced to the last path
      segment of [_links.parent.href] when there is one;
    - [count_relations t fs]: [GET /relations], reduced to [data.total]
      (a [Throw] stands for any exception of the [try] block);
    - [post_relation t from to type]: the mutation. *)
Record target (T : Type) := {
  get_parent : T → ident → result (option string);
  count_relations : T → list relation_filter → result Z;
  post_relation : T → ident → ident → relation_type → T * post_response
}.
Arguments get_parent {T} _ _ _.
Arguments count_relations {T} _ _ _.
Arguments post_relation {T} _ _ _ _ _.

Inductive event :=
| CreateRelationshipCalled (from to : ident) (type : relation_type)
| ParentChecked (workPackageToCheck expectedParentId : ident)
| RelationsQueried (filters : list relation_filter)
| RelationPosted (from to : ident) (type : relation_type)
| RelationCreated (from to : ident) (type : relation_type)
| RelationFound (from to : ident) (type : relation_type)
| RelationNormalized (from to : ident) (type : relation_type)
| ErrorLogged (what : string)
| DuplicateSkipped (issueKey : string)
| NotInBatch (d : deferred)
| RetryStarted (n : nat)
| RetryDone (d : deferred)
| StillMissing (d : deferred).

Global Instance event_eq_dec : EqDecision event.
Proof. solve_decision. Defined.

(** The module-level variables, the target and the console. *)
Record state (T : Type) := {
  target_state : T;
  issueToWorkPackageMap : gmap string ident;
  missingRelationships : list deferred;
  log : list event
}.
Arguments target_state {T} _.
Arguments issueToWorkPackageMap {T} _.
Arguments missingRelationships {T} _.
Arguments log {T} _.

Section WithTarget.

Context {T : Type} (api : target T).

Definition emit (e : event) : M (state T) unit := λ st,
  (Ok tt, {| target_state := target_state st;
             issueToWorkPackageMap := issueToWorkPackageMap st;
             missingRelationships := missingRelationships st;
             log := log st ++ [e] |}).

(** [issueToWorkPackageMap.get(k)], kept when truthy. *)
Definition lookup_id (k : string) : M (state T) (option ident) := λ st,
  (Ok (truthy_lookup (issueToWorkPackageMap st) k), st).

(** [issueToWorkPackageMap.set(k, id)] *)
Definition map_set (k : string) (id : ident) : M (state T) unit := λ st,
  (Ok tt, {| target_state := target_state st;
             issueToWorkPackageMap := <[k := id]> (issueToWorkPackageMap st);
             missingRelationships := missingRelationships st;
             log := log st |}).

(** [missingRelationships.add(JSON.stringify(d))] *)
Definition missing_add (d : deferred) : M (state T) unit := λ st,
  (Ok tt, {| target_state := target_state st;
             issueToWorkPackageMap := issueToWorkPackageMap st;
             missingRelationships := set_add d (missingRelationships st);
             log := log st |}).

(** [Array.from(missingRelationships)] then [missingRelationships.clear()] *)
Definition missing_take : M (state T) (list deferred) := λ st,
  (Ok (missingRelationships st),
   {| target_state := target_state st;
      issueToWorkPackageMap := issueToWorkPackageMap st;
      missingRelationships := [];
      log := log st |}).

Definition api_get_parent (id : ident) : M (state T) (result (option string)) := λ st,
  (Ok (get_parent api (target_state st) id), st).

Definition api_count_relations (fs : list relation_filter) : M (state T) (result Z) := λ st,
  (Ok (count_relations api (target_state st) fs), st).

Definition api_post_relation (from to : ident) (type : relation_type)
  : M (state T) post_response := λ st,
  let '(t', r) := post_relation api (target_state st) from to type in
  (Ok r, {| target_state := t';
            issueToWorkPackageMap := issueToWorkPackageMap st;
            missingRelationships := missingRelationships st;
            log := log st |}).

Definition checkParentRelationship (fromId toId : ident) (type : relation_type)
  : M (state T) bool :=
  let workPackageToCheck := if decide (type = Partof) then fromId else toId in
  let expectedParentId := if decide (type = Partof) then toId else fromId in
  _ ← emit (ParentChecked workPackageToCheck expectedParentId);
  response ← api_get_parent workPackageToCheck;
  match response with
  | Ok (Some parentId) =>
      mret (String.eqb parentId (ident_toString expectedParentId))
  | Ok None => mret false
  | Throw _ =>
      _ ← emit (ErrorLogged "Error checking parent relationship");
      mret false
  end.

Definition forward_filter (fromId toId : ident) (type : relation_type)
  : relation_filter :=
  {| filter_from := ident_toString fromId;
     filter_to := ident_toString toId;
     filter_type := relation_type_name type |}.

Definition checkExistingRelationship (fromId toId : ident) (type : relation_type)
  : M (state T) bool :=
  hasParentRelation ←
    (if decide (type = Partof ∨ type = Includes)
     then checkParentRelationship fromId toId type
     else mret false);
  if (hasParentRelation : bool) then mret true
  else
    let filters :=
      forward_filter fromId toId type ::
      (if decide (type = Relates) then [forward_filter toId fromId type] else []) in
    _ ← emit (RelationsQueried filters);
    response ← api_count_relations filters;
    match response with
    | Ok total => mret (0 <? total)%Z
    | Throw _ =>
        _ ← emit (ErrorLogged "Error checking existing relationship");
        mret false
    end.

(** [err?._embedded?.errors?.map((e) => e.message.toLowerCase()) || []] *)
Fixpoint lower_messages (errors : list (option string)) : result (list string) :=
  match errors with
  | [] => Ok []
  | Some m :: rest =>
      match lower_messages rest with
      | Ok ms => Ok (Str.toLowerCase m :: ms)
      | Throw e => Throw e
      end
  | None :: _ => Throw (TypeError "e.message is undefined")
  end.

Definition error_messages (errors : option (list (option string)))
  : result (list string) :=
  match errors with
  | Some es => lower_messages es
  | None => Ok []
  end.

Definition already_exists (messages : list string) : bool :=
  existsb (Str.includes "already been taken") messages
  || existsb (Str.includes "would create a circular") messages.

(** The second half of [createRelationship]: the [POST] and the [catch]
    block that reads the answer. *)
Definition post_new_relationship (fromId toId : ident) (type : relation_type)
  : M (state T) unit :=
  _ ← emit (RelationPosted fromId toId type);
  response ← api_post_relation fromId toId type;
  match response with
  | PostOk => emit (RelationCreated fromId toId type)
  | PostFailed errors =>
      match error_messages errors with
      | Throw e => throw e
      | Ok messages =>
          if already_exists messages
          then emit (RelationNormalized fromId toId type)
          else emit (ErrorLogged "Error creating relationship")
      end
  end.

Definition createRelationship (fromId toId : ident) (type : relation_type)
  : M (state T) unit :=
  _ ← emit (CreateRelationshipCalled fromId toId type);
  exists_ ← checkExistingRelationship fromId toId type;
  if (exists_ : bool) then emit (RelationFound fromId toId type)
  else post_new_relationship fromId toId type.

(** [s1 > s2] where [s2] may be undefined (then false). *)
Definition created_gt (s1 : string) (s2 : option string) : bool :=
  match s2 with
  | Some s2 => Str.lt s2 s1
  | None => false
  end.

Definition created_lt (s1 : string) (s2 : option string) : bool :=
  match s2 with
  | Some s2 => Str.lt s1 s2
  | None => false
  end.

(** The two [switch] statements of the link loop: the related key, the
    relation type and [shouldSkip]. *)
Definition classify_link (i : issue) (link : issue_link)
  : option string * option relation_type * bool :=
  match outwardIssue link with
  | Some o =>
      if String.eqb (type_outward link) "blocks" then
        (Some (linked_key o), Some Blocks, false)
      else if String.eqb (type_outward link) "relates to" then
        (Some (linked_key o), Some Relates, false)
      else if String.eqb (type_outward link) "is parent of" then
        (Some (linked_key o), Some Includes, false)
      else if String.eqb (type_outward link) "duplicates" then
        (Some (linked_key o), Some Duplicates,
         created_gt (created i) (linked_created o))
      else (Some (linked_key o), Some Relates, false)
  | None =>
      match inwardIssue link with
      | Some o =>
          if String.eqb (type_inward link) "is blocked by" then
            (Some (linked_key o), Some Blocked, false)
          else if String.eqb (type_inward link) "relates to" then
            (Some (linked_key o), Some Relates, false)
          else if String.eqb (type_inward link) "is child of" then
            (Some (linked_key o), Some Partof, false)
          else if String.eqb (type_inward link) "is duplicated by" then
            (Some (linked_key o), Some Duplicated,
             created_lt (created i) (linked_created o))
          else (Some (linked_key o), Some Relates, false)
      | None => (None, None, false)
      end
  end.

(** The body of [for (const link of issue.fields.issuelinks)]. *)
Definition handle_link (i : issue) (fromWorkPackageId : ident)
    (link : issue_link) : M (state T) unit :=
  match classify_link i link with
  | (_, _, true) => emit (DuplicateSkipped (key i))
  | (Some relatedIssueKey, Some relationType, false) =>
      toWorkPackageId ← lookup_id relatedIssueKey;
      match toWorkPackageId with
      | Some toId =>
          try_catch (createRelationship fromWorkPackageId toId relationType)
            (λ _,
               _ ← emit (ErrorLogged "Failed to create relationship");
               missing_add (Triple (key i) relatedIssueKey relationType))
      | None =>
          _ ← emit (NotInBatch (Triple (key i) relatedIssueKey relationType));
          missing_add (Triple (key i) relatedIssueKey relationType)
      end
  | (_, _, false) =>
      _ ← emit (NotInBatch (Dangling (key i)));
      missing_add (Dangling (key i))
  end.

(** The epic link, handled before the issue links. *)
Definition handle_epic (i : issue) (fromId : ident) : M (state T) unit :=
  if Converter.opt_truthy (customfield_10014 i) then
    let epicKey := Converter.template_opt (customfield_10014 i) in
    epicWorkPackageId ← lookup_id epicKey;
    match epicWorkPackageId with
    | Some epicId => createRelationship fromId epicId Partof
    | None =>
        _ ← emit (NotInBatch (Triple (key i) epicKey Partof));
        missing_add (Triple (key i) epicKey Partof)
    end
  else mret tt.

Definition handleRelationships (i : issue) : M (state T) unit :=
  if bool_decide (issuelinks i = None) && negb (Converter.opt_truthy (customfield_10014 i))
  then mret tt
  else
    fromWorkPackageId ← lookup_id (key i);
    match fromWorkPackageId with
    | None => mret tt
    | Some fromId =>
        _ ← handle_epic i fromId;
        match issuelinks i with
        | None => mret tt
        | Some links => for_each (handle_link i fromId) links
        end
    end.

(** The body of [for (const rel of retryRelationships)]. *)
Definition retry_one (rel : deferred) : M (state T) unit :=
  match rel with
  | Triple fromKey toKey type =>
      fromWorkPackageId ← lookup_id fromKey;
      toWorkPackageId ← lookup_id toKey;
      match fromWorkPackageId, toWorkPackageId with
      | Some fromId, Some toId =>
          try_catch
            (_ ← createRelationship fromId toId type; emit (RetryDone rel))
            (λ _, emit (ErrorLogged "Failed to create relationship"))
      | _, _ => emit (StillMissing rel)
      end
  | Dangling _ => emit (StillMissing rel)
  end.

Definition retryMissingRelationships : M (state T) unit :=
  λ st,
    if (length (missingRelationships st) =? 0)%nat then (Ok tt, st)
    else
      (_ ← emit (RetryStarted (length (missingRelationships st)));
       retryRelationships ← missing_take;
       for_each retry_one retryRelationships) st.

(** [for (const [key, id] of Object.entries(obj)) map.set(key, id)] *)
Definition seed (entries : list (string * ident)) : M (state T) unit :=
  for_each (λ e, map_set (fst e) (snd e)) entries.

Definition createRelationships (issues : list issue)
    (issueKeyToWorkPackageIdMap : list (string * ident)) : M (state T) unit :=
  try_catch
    (_ ← seed issueKeyToWorkPackageIdMap;
     _ ← for_each handleRelationships issues;
     retryMissingRelationships)
    (λ _, emit (ErrorLogged "Relationship creation failed")).

(** The two processing passes, in the given order. *)
Definition two_passes (first second : issue) (st : state T) : state T :=
  (for_each handleRelationships [first; second] st).2.

End WithTarget.

(** The [createRelationship] calls recorded in a log. *)
Definition create_calls (l : list event) : list (ident * ident * relation_type) :=
  omap (λ e, match e with
             | CreateRelationshipCalled f t ty => Some (f, t, ty)
             | _ => None
             end) l.

(** The [POST]s recorded in a log. *)
Definition posts (l : list event) : list (ident * ident * relation_type) :=
  omap (λ e, match e with
             | RelationPosted f t ty => Some (f, t, ty)
             | _ => None
             end) l.

(** The triples reported as still missing in a log. *)
Definition still_missing (l : list event) : list deferred :=
  omap (λ e, match e with StillMissing d => Some d | _ => None end) l.


(** Both endpoints of a deferred element, looked up in the identity map. *)
Definition resolve (m : gmap string ident) (rel : deferred)
  : option (ident * ident * relation_type) :=
  match rel with
  | Triple f t ty =>
      match truthy_lookup m f, truthy_lookup m t with
      | Some a, Some b => Some (a, b, ty)
      | _, _ => None
      end
  | Dangling _ => None
  end.

Definition errors_logged (l : list event) : list string :=
  omap (λ e, match e with ErrorLogged w => Some w | _ => None end) l.

Definition initial {T} (t : T) : state T :=
  {| target_state := t; issueToWorkPackageMap := ∅;
     missingRelationships := []; log := [] |}.

(** A small in-memory target, used to run the module on examples: the
    state is the list of relations created so far; a relation between two
    work packages that are already related, in either direction, is
    refused the way the target refuses it. *)
Definition matches_filter (r : ident * ident * relation_type)
    (f : relation_filter) : bool :=
  String.eqb (filter_from f) (ident_toString r.1.1)
  && String.eqb (filter_to f) (ident_toString r.1.2)
  && String.eqb (filter_type f) (relation_type_name r.2).

Definition related (a b : ident) (r : ident * ident * relation_type) : bool :=
  (bool_decide (r.1.1 = a) && bool_decide (r.1.2 = b))
  || (bool_decide (r.1.1 = b) && bool_decide (r.1.2 = a)).

Definition memory_target : target (list (ident * ident * relation_type)) :=
  {| get_parent := λ _ _, Ok None;
     count_relations := λ t fs,
       Ok (Z.of_nat (length (filter (λ r, existsb (matches_filter r) fs) t)));
     post_relation := λ t a b ty,
       if existsb (related a b) t
       then (t, PostFailed (Some [Some "Work package has already been taken."]))
       else ((t ++ [(a, b, ty)])%list, PostOk) |}.

(** *** Scenario: a pair of issues linked by the duplicates relation

    Issue [A] declares the outward link duplicates to [B]; [B] carries the
    inward link is-duplicated-by back to [A]. *)

Definition duplicates_link (other : string) (other_created : option string)
  : issue_link :=
  {| type_outward := "duplicates"; type_inward := "is duplicated by";
     outwardIssue := Some {| linked_key := other; linked_created := other_created |};
     inwardIssue := None |}.

Definition duplicated_by_link (other : string) (other_created : option string)
  : issue_link :=
  {| type_outward := "duplicates"; type_inward := "is duplicated by";
     outwardIssue := None;
     inwardIssue := Some {| linked_key := other; linked_created := other_created |} |}.

(** An issue with no epic link whose only link is [link]. *)
Definition issue_with_link (k c : string) (link : issue_link) : issue :=
  {| key := k; created := c; customfield_10014 := None;
     issuelinks := Some [link] |}.

(** The identity map seeded with the two issues of the pair. *)
Definition seeded_pair {T} (t : T) : state T :=
  (seed [("P-1", IdNum 101); ("P-2", IdNum 102)] (initial t)).2.

(** The deferred set holds no element twice. *)
Definition NoDup_missing {T} (st : state T) : Prop :=
  NoDup (missingRelationships st).

(** *** Examples on the in-memory target *)

Definition example_state : state (list (ident * ident * relation_type)) :=
  seeded_pair [].

(** A target that already holds the relation between 101 and 102. *)
Definition related_state : state (list (ident * ident * relation_type)) :=
  {| target_state := [(IdNum 101, IdNum 102, Duplicates)];
     issueToWorkPackageMap := issueToWorkPackageMap example_state;
     missingRelationships := [];
     log := [] |}.

(** An issue that declares itself a child of P-1. *)
Definition child_link : issue_link :=
  {| type_outward := "is parent of"; type_inward := "is child of";
     outwardIssue := None;
     inwardIssue := Some {| linked_key := "P-1"; linked_created := None |} |}.

Definition child_issue : issue := issue_with_link "P-2" "2024-02-01" child_link.

End Relationships.

(** ** Entity synchronizer ([migrateIssues] of [src/migrate-all.js]) *)

Module Synchronizer.

(** The fields of a source issue that [migrateIssues] reads. *)
Record jira_user := { accountId : string; displayName : string }.

Record jira_attachment := { filename : string; content : string }.

Record jira_comment := {
  comment_id : string;
  author : option jira_user;
  body : Converter.document
}.

Record issue := {
  key : string;
  summary : string;
  description : Converter.document;
  assignee : option jira_user;
  creator : option jira_user;
  status_name : string;
  issuetype_name : string;
  priority : option string;
  attachment : option (list jira_attachment);
  comments : option (list jira_comment);
  watchCount : option Z
}.

(** An attachment id: the JSON number the target returns, or the dry-run
    constant. *)
Inductive attachment_id :=
| AttachmentId (n : Z)
| DryRunAttachmentId.

Definition attachment_id_text (a : attachment_id) : string :=
  match a with
  | AttachmentId n => pretty n
  | DryRunAttachmentId => "DRY_RUN_ATTACHMENT_ID"
  end.

Record op_user := { login : string; apiKey : string }.

Record op_attachment := { fileName : string; existing_id : Z }.

Record payload := {
  subject : string;
  description_raw : string;
  type_id : Z;
  status_id : Z;
  priority_id : option Z;
  project : Z;
  jira_key : string;
  assignee_id : option Z;
  responsible_id : option Z
}.

(** The collaborators of [migrateIssues], as recorded answers.
    [cache_get] and [findExistingWorkPackage] are reduced to the [id] of the
    work package found; [getExistingComments] to what the marker pattern
    captures in each comment; the other answers to the [id] they carry.
    [userMapping] and [commentUserMapping] are the two lookup tables.
    The three vocabulary lookups are recorded as the ids they return; on
    which names and vocabularies they throw instead is the matter of
    [Vocabulary]. *)
Record collaborators := {
  userMapping : string → option Z;
  commentUserMapping : option Z → option op_user;
  cache_get : string → option ident;
  findExistingWorkPackage : string → option ident;
  getWorkPackageStatusId : string → Z;
  getWorkPackageTypeId : string → Z;
  getWorkPackagePriorityId : option string → option Z;
  getExistingAttachments : ident → list op_attachment;
  getExistingComments : ident → list (option string);
  getIssueWatchers : string → result (list (option jira_user));
  downloadAttachment : string → result unit;
  createWorkPackage : payload → option op_user → result ident;
  updateWorkPackage : ident → payload → option op_user → result ident;
  uploadAttachment : ident → string → option op_user → result Z;
  updateDescription : ident → string → option op_user → result unit;
  addComment : ident → string → option op_user → result unit
}.

(** A call to a collaborator.  [AddComment] posts [commentHtml] followed by
    the marker of [jiraCommentId]. *)
Inductive call :=
| FindExistingWorkPackage (issueKey : string)
| GetExistingAttachments (workPackageId : ident)
| GetExistingComments (workPackageId : ident)
| GetIssueWatchers (issueKey : string)
| DownloadAttachment (url : string)
| CreateWorkPackage (p : payload) (as_user : option op_user)
| UpdateWorkPackage (workPackageId : ident) (p : payload) (as_user : option op_user)
| UploadAttachment (workPackageId : ident) (file : string) (as_user : option op_user)
| UpdateDescription (workPackageId : ident) (raw : string) (as_user : option op_user)
| AddComment (workPackageId : ident) (commentHtml jiraCommentId : string)
             (as_user : option op_user)
| AddWatcher (workPackageId : ident) (userId : Z).

(** A line that dry-run mode prints in place of a mutating call. *)
Inductive dry_run_line :=
| WouldCreateOrUpdate (p : payload)
| WouldUpload (file : string)
| WouldUpdateDescription (raw : string)
| WouldAddComment (commentHtml jiraCommentId : string)
| WouldAddWatcher (userId : Z) (workPackageId : ident).

Inductive event :=
| Called (c : call)
| DryRun (d : dry_run_line)
| SkippedExisting (issueKey : string) (workPackageId : ident)
| ProcessingFailed (issueKey : string).

(** The local variables of [migrateIssues] that outlive an issue, and the
    trace of the run. *)
Record state := {
  issueToWorkPackageMap : gmap string ident;
  log : list event;
  processed : nat;
  skipped : nat;
  errors : nat;
  unknownStatusCount : nat
}.

Definition emit (e : event) : M state unit := λ st,
  (Ok tt, {| issueToWorkPackageMap := issueToWorkPackageMap st;
             log := log st ++ [e];
             processed := processed st; skipped := skipped st;
             errors := errors st;
             unknownStatusCount := unknownStatusCount st |}).

(** [issueToWorkPackageMap.set(k, id)] *)
Definition map_set (k : string) (id : ident) : M state unit := λ st,
  (Ok tt, {| issueToWorkPackageMap := <[k := id]> (issueToWorkPackageMap st);
             log := log st;
             processed := processed st; skipped := skipped st;
             errors := errors st;
             unknownStatusCount := unknownStatusCount st |}).

Definition count_processed : M state unit := λ st,
  (Ok tt, {| issueToWorkPackageMap := issueToWorkPackageMap st;
             log := log st;
             processed := S (processed st); skipped := skipped st;
             errors := errors st;
             unknownStatusCount := unknownStatusCount st |}).

Definition count_skipped : M state unit := λ st,
  (Ok tt, {| issueToWorkPackageMap := issueToWorkPackageMap st;
             log := log st;
             processed := processed st; skipped := S (skipped st);
             errors := errors st;
             unknownStatusCount := unknownStatusCount st |}).

Definition count_error : M state unit := λ st,
  (Ok tt, {| issueToWorkPackageMap := issueToWorkPackageMap st;
             log := log st;
             processed := processed st; skipped := skipped st;
             errors := S (errors st);
             unknownStatusCount := unknownStatusCount st |}).

Definition count_unknown_status : M state unit := λ st,
  (Ok tt, {| issueToWorkPackageMap := issueToWorkPackageMap st;
             log := log st;
             processed := processed st; skipped := skipped st;
             errors := errors st;
             unknownStatusCount := S (unknownStatusCount st) |}).

(** [attachmentIdMap]: a [Map] iterated in insertion order; [set] on a key
    that is present replaces the value in place. *)
Fixpoint table_set (k : string) (v : attachment_id)
    (t : list (string * attachment_id)) : list (string * attachment_id) :=
  match t with
  | [] => [(k, v)]
  | (k', v') :: t' =>
      if String.eqb k' k then (k', v) :: t' else (k', v') :: table_set k v t'
  end.

Definition imageTag (attachmentId : attachment_id) : string :=
  "<img class=" +:+ Str.dq +:+ "op-uc-image op-uc-image_inline" +:+ Str.dq
  +:+ " src=" +:+ Str.dq +:+ "/api/v3/attachments/"
  +:+ attachment_id_text attachmentId +:+ "/content" +:+ Str.dq +:+ ">".

(** The loop over [attachmentIdMap.entries()] that replaces placeholders. *)
Definition substitute (table : list (string * attachment_id)) (text : string)
  : string :=
  fold_left (λ acc e, Str.replace (Converter.placeholder e.1) (imageTag e.2) acc)
            table text.

(** The marker appended to a migrated comment. *)
Definition comment_marker (jiraCommentId : string) : string :=
  "<!-- jira-comment-id: " +:+ jiraCommentId +:+ " -->".

(** [for (const x of l) acc = f(acc, x)] with an accumulator. *)
Fixpoint fold_m {S A B} (f : B → A → M S B) (l : list A) (b : B) : M S B :=
  match l with
  | [] => mret b
  | x :: l' => b' ← f b x; fold_m f l' b'
  end.

Section WithCollaborators.

Context (w : collaborators).

Definition getOpenProjectUserId (jiraUser : option jira_user) : option Z :=
  match jiraUser with
  | None => None
  | Some u =>
      match userMapping w (accountId u) with
      | Some n => if (n =? 0)%Z then None else Some n
      | None => None
      end
  end.

(** [commentUserMapping[userMapping[user.accountId]]]; throws when [user]
    is null. *)
Definition impersonated (user : option jira_user) : M state (option op_user) :=
  match user with
  | None => throw (TypeError "Cannot read properties of null (reading 'accountId')")
  | Some u => mret (commentUserMapping w (userMapping w (accountId u)))
  end.

Definition build_payload (openProjectId : Z) (mapResponsible : bool)
    (i : issue) (raw : string) : payload :=
  {| subject := summary i;
     description_raw := raw;
     type_id := getWorkPackageTypeId w (issuetype_name i);
     status_id := getWorkPackageStatusId w (status_name i);
     priority_id := getWorkPackagePriorityId w (priority i);
     project := openProjectId;
     jira_key := key i;
     assignee_id := getOpenProjectUserId (assignee i);
     responsible_id :=
       if mapResponsible then getOpenProjectUserId (creator i) else None |}.

(** Lines 732-767: create or update the work package, or say so. *)
Definition write_work_package (isProd : bool) (i : issue)
    (existingWorkPackage : option ident) (p : payload) : M state ident :=
  if isProd then
    opUser ← impersonated (creator i);
    match existingWorkPackage with
    | Some id =>
        _ ← emit (Called (UpdateWorkPackage id p opUser));
        lift (updateWorkPackage w id p opUser)
    | None =>
        _ ← emit (Called (CreateWorkPackage p opUser));
        lift (createWorkPackage w p opUser)
    end
  else
    _ ← emit (DryRun (WouldCreateOrUpdate p));
    mret (match existingWorkPackage with
          | Some id => id
          | None => IdStr "DRY_RUN_WP_ID"
          end).

(** The body of the loop over [issue.fields.attachment]. *)
Definition process_attachment (isProd : bool) (i : issue)
    (workPackageId : ident) (existingAttachments : list op_attachment)
    (attachmentIdMap : list (string * attachment_id)) (a : jira_attachment)
  : M state (list (string * attachment_id)) :=
  match find (λ e, String.eqb (fileName e) (filename a)) existingAttachments with
  | Some existing =>
      mret (table_set (filename a) (AttachmentId (existing_id existing))
              attachmentIdMap)
  | None =>
      if isProd then
        _ ← emit (Called (DownloadAttachment (content a)));
        _ ← lift (downloadAttachment w (content a));
        uploaderUser ← impersonated (creator i);
        _ ← emit (Called (UploadAttachment workPackageId (filename a) uploaderUser));
        newAttachment ← lift (uploadAttachment w workPackageId (filename a)
                                uploaderUser);
        mret (table_set (filename a) (AttachmentId newAttachment) attachmentIdMap)
      else
        _ ← emit (DryRun (WouldUpload (filename a)));
        mret (table_set (filename a) DryRunAttachmentId attachmentIdMap)
  end.

(** Lines 771-812. *)
Definition process_attachments (isProd : bool) (i : issue)
    (workPackageId : ident) : M state (list (string * attachment_id)) :=
  match attachment i with
  | Some (a :: rest) =>
      existingAttachments ←
        (if isProd then
           _ ← emit (Called (GetExistingAttachments workPackageId));
           mret (getExistingAttachments w workPackageId)
         else mret []);
      fold_m (process_attachment isProd i workPackageId existingAttachments)
             (a :: rest) []
  | _ => mret []
  end.

(** Lines 814-860: the second, description-only update. *)
Definition finalize_description (isProd : bool) (i : issue)
    (workPackageId : ident) (raw : string)
    (attachmentIdMap : list (string * attachment_id)) : M state unit :=
  match attachmentIdMap with
  | [] => mret tt
  | _ :: _ =>
      let finalDescription := substitute attachmentIdMap raw in
      if String.eqb finalDescription raw then mret tt
      else
        inlineUpdateUser ← impersonated (creator i);
        if isProd then
          _ ← emit (Called (UpdateDescription workPackageId finalDescription
                              inlineUpdateUser));
          lift (updateDescription w workPackageId finalDescription
                  inlineUpdateUser)
        else emit (DryRun (WouldUpdateDescription finalDescription))
  end.

(** The body of the loop over [issue.fields.comment.comments]. *)
Definition process_comment (isProd : bool) (workPackageId : ident)
    (attachmentIdMap : list (string * attachment_id))
    (migrated : list string) (c : jira_comment) : M state unit :=
  opUser ← impersonated (author c);
  if bool_decide (comment_id c ∈ migrated) then mret tt
  else
    commentHtml ← lift (Converter.convertAtlassianDocumentToHtml (body c));
    if String.eqb commentHtml EmptyString then mret tt
    else
      let commentHtml := substitute attachmentIdMap commentHtml in
      if isProd then
        _ ← emit (Called (AddComment workPackageId commentHtml (comment_id c)
                            opUser));
        lift (addComment w workPackageId
                (commentHtml +:+ comment_marker (comment_id c)) opUser)
      else emit (DryRun (WouldAddComment commentHtml (comment_id c))).

(** Lines 862-935. *)
Definition process_comments (isProd : bool) (i : issue)
    (workPackageId : ident) (attachmentIdMap : list (string * attachment_id))
  : M state unit :=
  match comments i with
  | Some (c :: rest) =>
      existingComments ←
        (if isProd then
           _ ← emit (Called (GetExistingComments workPackageId));
           mret (getExistingComments w workPackageId)
         else mret []);
      for_each (process_comment isProd workPackageId attachmentIdMap
                  (omap id existingComments))
               (c :: rest)
  | _ => mret tt
  end.

(** Lines 937-953. *)
Definition add_watchers (isProd : bool) (i : issue) (workPackageId : ident)
  : M state unit :=
  match watchCount i with
  | Some n =>
      if (0 <? n)%Z then
        _ ← emit (Called (GetIssueWatchers (key i)));
        watchers ← lift (getIssueWatchers w (key i));
        for_each (λ watcher,
                    match getOpenProjectUserId watcher with
                    | Some watcherId =>
                        if isProd
                        then emit (Called (AddWatcher workPackageId watcherId))
                        else emit (DryRun (WouldAddWatcher watcherId workPackageId))
                    | None => mret tt
                    end)
                 watchers
      else mret tt
  | None => mret tt
  end.

(** The body of [for (const issue of jiraIssues)], inside its [try]. *)
Definition process_issue (openProjectId : Z)
    (isProd skipUpdates mapResponsible : bool) (i : issue) : M state unit :=
  existingWorkPackage ←
    (if skipUpdates then mret (cache_get w (key i))
     else
       _ ← emit (Called (FindExistingWorkPackage (key i)));
       mret (findExistingWorkPackage w (key i)));
  match existingWorkPackage, skipUpdates with
  | Some id, true =>
      _ ← emit (SkippedExisting (key i) id);
      _ ← map_set (key i) id;
      count_skipped
  | _, _ =>
      _ ← (if bool_decide (getWorkPackageStatusId w (status_name i)
                           = getWorkPackageStatusId w "unknown")
           then count_unknown_status else mret tt);
      raw ← lift (Converter.convertAtlassianDocumentToHtml (description i));
      let p := build_payload openProjectId mapResponsible i raw in
      workPackageId ← write_work_package isProd i existingWorkPackage p;
      _ ← map_set (key i) workPackageId;
      attachmentIdMap ← process_attachments isProd i workPackageId;
      _ ← finalize_description isProd i workPackageId raw attachmentIdMap;
      _ ← process_comments isProd i workPackageId attachmentIdMap;
      _ ← add_watchers isProd i workPackageId;
      count_processed
  end.

Definition migrateIssues (openProjectId : Z)
    (isProd skipUpdates mapResponsible : bool) (jiraIssues : list issue)
  : M state unit :=
  for_each (λ i,
              try_catch
                (process_issue openProjectId isProd skipUpdates mapResponsible i)
                (λ _, _ ← emit (ProcessingFailed (key i)); count_error))
           jiraIssues.

End WithCollaborators.

(** [const issueToWorkPackageMap = new Map()] and the counters at zero. *)
Definition initial : state :=
  {| issueToWorkPackageMap := ∅; log := []; processed := 0; skipped := 0;
     errors := 0; unknownStatusCount := 0 |}.

(** What a mutating call, or the dry-run line that stands for it, attempts:
    the kind of mutation with the work-package payload, the file name, the
    source comment id or the watcher.  Target ids and the markup that embeds
    them are left out. *)
Inductive mutation :=
| MWorkPackage (p : payload)
| MUpload (file : string)
| MDescription
| MComment (jiraCommentId : string)
| MWatcher (userId : Z).

Definition mutation_of (e : event) : option mutation :=
  match e with
  | Called (CreateWorkPackage p _) => Some (MWorkPackage p)
  | Called (UpdateWorkPackage _ p _) => Some (MWorkPackage p)
  | DryRun (WouldCreateOrUpdate p) => Some (MWorkPackage p)
  | Called (UploadAttachment _ f _) => Some (MUpload f)
  | DryRun (WouldUpload f) => Some (MUpload f)
  | Called (UpdateDescription _ _ _) => Some MDescription
  | DryRun (WouldUpdateDescription _) => Some MDescription
  | Called (AddComment _ _ c _) => Some (MComment c)
  | DryRun (WouldAddComment _ c) => Some (MComment c)
  | Called (AddWatcher _ u) => Some (MWatcher u)
  | DryRun (WouldAddWatcher u _) => Some (MWatcher u)
  | _ => None
  end.

Definition attempted_mutations (l : list event) : list mutation :=
  omap mutation_of l.

(** The reads of the target recorded in a log. *)
Definition target_reads (l : list event) : list call :=
  omap (λ e, match e with
             | Called (FindExistingWorkPackage k) => Some (FindExistingWorkPackage k)
             | Called (GetExistingAttachments i) => Some (GetExistingAttachments i)
             | Called (GetExistingComments i) => Some (GetExistingComments i)
             | _ => None
             end) l.

(** The calls that only live mode may make: the mutations, the download of
    an attachment, and the reads of the attachments and comments that a
    work package already has. *)
Definition live_only (e : event) : bool :=
  match e with
  | Called (FindExistingWorkPackage _) => false
  | Called (GetIssueWatchers _) => false
  | Called _ => true
  | _ => false
  end.

(** A target on which dry-run and live mode can be compared: no work
    package carries an attachment or a migrated comment yet, and every live
    call succeeds. *)
Definition fresh_and_reliable (w : collaborators) : Prop :=
  (∀ wp, getExistingAttachments w wp = [])
  ∧ (∀ wp, omap id (getExistingComments w wp) = [])
  ∧ (∀ url, downloadAttachment w url = Ok ())
  ∧ (∀ p u, is_ok (createWorkPackage w p u) = true)
  ∧ (∀ id p u, is_ok (updateWorkPackage w id p u) = true)
  ∧ (∀ id f u, is_ok (uploadAttachment w id f u) = true)
  ∧ (∀ id raw u, updateDescription w id raw u = Ok ())
  ∧ (∀ id html u, addComment w id html u = Ok ()).

(** Two states that agree on what was attempted so far: the same mutations
    in the same order, the same keys in the identity map, the same
    counters. *)
Definition same_attempts (sl sd : state) : Prop :=
  attempted_mutations (log sl) = attempted_mutations (log sd)
  ∧ dom (issueToWorkPackageMap sl) = dom (issueToWorkPackageMap sd)
  ∧ processed sl = processed sd
  ∧ skipped sl = skipped sd
  ∧ errors sl = errors sd
  ∧ unknownStatusCount sl = unknownStatusCount sd.

(** The opening braces of a text, and whether some file name of the table
    occurs in it as a placeholder. *)
Definition braces (s : string) : nat := Str.count_char "{"%char s.

Definition fires (table : list (string * attachment_id)) (text : string) : bool :=
  existsb (λ e, Str.includes (Converter.placeholder e.1) text) table.

(** [sim RA ml md]: from states that agree on what was attempted, the live
    computation [ml] and the dry-run computation [md] both return, with
    results related by [RA], or both throw, and the states agree again. *)
Definition sim {A B} (RA : A → B → Prop) (ml : M state A) (md : M state B)
  : Prop :=
  ∀ sl sd, same_attempts sl sd →
    match ml sl, md sd with
    | (Ok a, sl'), (Ok b, sd') => RA a b ∧ same_attempts sl' sd'
    | (Throw _, sl'), (Throw _, sd') => same_attempts sl' sd'
    | _, _ => False
    end.

(** [silent m a]: [m] returns [a] and attempts nothing. *)
Definition silent {A} (m : M state A) (a : A) : Prop :=
  ∀ sl, ∃ sl', m sl = (Ok a, sl') ∧ same_attempts sl' sl.

(** The log holds no call that only live mode may make. *)
Definition no_live_call (st : state) : Prop :=
  forallb (λ e, negb (live_only e)) (log st) = true.

(** *** Examples of a migration run *)

(** A target with no attachments and no comments yet. *)
Definition fresh_world : collaborators :=
  {| userMapping := λ _, Some 5%Z;
     commentUserMapping := λ _, None;
     cache_get := λ _, None;
     findExistingWorkPackage := λ _, Some (IdNum 7);
     getWorkPackageStatusId := λ _, 1%Z;
     getWorkPackageTypeId := λ _, 1%Z;
     getWorkPackagePriorityId := λ _, None;
     getExistingAttachments := λ _, [];
     getExistingComments := λ _, [];
     getIssueWatchers := λ _, Ok [Some {| accountId := "acc-2"; displayName := "W" |}];
     downloadAttachment := λ _, Ok ();
     createWorkPackage := λ _ _, Ok (IdNum 8);
     updateWorkPackage := λ wp _ _, Ok wp;
     uploadAttachment := λ _ _ _, Ok 56%Z;
     updateDescription := λ _ _ _, Ok ();
     addComment := λ _ _ _, Ok () |}.

(** The same target after an earlier run uploaded a.png to the work
    package. *)
Definition rerun_world : collaborators :=
  {| userMapping := userMapping fresh_world;
     commentUserMapping := commentUserMapping fresh_world;
     cache_get := cache_get fresh_world;
     findExistingWorkPackage := findExistingWorkPackage fresh_world;
     getWorkPackageStatusId := getWorkPackageStatusId fresh_world;
     getWorkPackageTypeId := getWorkPackageTypeId fresh_world;
     getWorkPackagePriorityId := getWorkPackagePriorityId fresh_world;
     getExistingAttachments := λ _, [ {| fileName := "a.png"; existing_id := 55 |} ];
     getExistingComments := getExistingComments fresh_world;
     getIssueWatchers := getIssueWatchers fresh_world;
     downloadAttachment := downloadAttachment fresh_world;
     createWorkPackage := createWorkPackage fresh_world;
     updateWorkPackage := updateWorkPackage fresh_world;
     uploadAttachment := uploadAttachment fresh_world;
     updateDescription := updateDescription fresh_world;
     addComment := addComment fresh_world |}.

Definition example_issue : issue :=
  {| key := "P-1";
     summary := "Broken diagram";
     description := Converter.DocNode (Converter.Node (Some "doc") None None None
                               (Some [Converter.media_node "a.png"]));
     assignee := None;
     creator := Some {| accountId := "acc-1"; displayName := "C" |};
     status_name := "To Do";
     issuetype_name := "Bug";
     priority := None;
     attachment := Some [ {| filename := "a.png"; content := "https://jira/a.png" |} ];
     comments := Some [ {| comment_id := "10001";
                           author := Some {| accountId := "acc-1"; displayName := "C" |};
                           body := Converter.DocString "see the diagram" |} ];
     watchCount := Some 1%Z |}.

(** A second issue, with nothing attached. *)
Definition second_issue : issue :=
  {| key := "P-2";
     summary := "Follow-up";
     description := Converter.DocAbsent;
     assignee := None;
     creator := Some {| accountId := "acc-1"; displayName := "C" |};
     status_name := "To Do";
     issuetype_name := "Task";
     priority := None;
     attachment := None;
     comments := None;
     watchCount := None |}.

Definition example_payload : payload :=
  build_payload fresh_world 1 true example_issue
    ("<p>" +:+ Converter.placeholder "a.png" +:+ "</p>").

(** A state in which P-1 is already mapped to work package 1. *)
Definition mapped_state : state :=
  {| issueToWorkPackageMap := {[ "P-1" := IdNum 1 ]}; log := [];
     processed := 0; skipped := 0; errors := 0; unknownStatusCount := 0 |}.

(** A cache that knows P-1 as work package 7. *)
Definition cached_world : collaborators :=
  {| userMapping := userMapping fresh_world;
     commentUserMapping := commentUserMapping fresh_world;
     cache_get := λ _, Some (IdNum 7);
     findExistingWorkPackage := findExistingWorkPackage fresh_world;
     getWorkPackageStatusId := getWorkPackageStatusId fresh_world;
     getWorkPackageTypeId := getWorkPackageTypeId fresh_world;
     getWorkPackagePriorityId := getWorkPackagePriorityId fresh_world;
     getExistingAttachments := getExistingAttachments fresh_world;
     getExistingComments := getExistingComments fresh_world;
     getIssueWatchers := getIssueWatchers fresh_world;
     downloadAttachment := downloadAttachment fresh_world;
     createWorkPackage := createWorkPackage fresh_world;
     updateWorkPackage := updateWorkPackage fresh_world;
     uploadAttachment := uploadAttachment fresh_world;
     updateDescription := updateDescription fresh_world;
     addComment := addComment fresh_world |}.

End Synchronizer.

(** ** The target client ([addWatcher] of [src/openproject-client.js]) *)

Module Client.

(** Answer to [POST /work_packages/:id/watchers].  [WatcherFailed status]:
    the call threw, [status] is [error.response?.status]. *)
Inductive watcher_response :=
| WatcherAdded
| WatcherFailed (status : option Z).

Inductive event :=
| AddingWatcher (workPackageId : ident) (userId : Z)
| WatcherAddedLogged (workPackageId : ident) (userId : Z)
| AlreadyWatching (workPackageId : ident) (userId : Z)
| ErrorLogged (what : string).

Definition say (e : event) : M (list event) unit :=
  λ st, (Ok tt, (st ++ [e])%list).

Definition addWatcher (post_watcher : ident → Z → watcher_response)
    (workPackageId : ident) (userId : Z) : M (list event) unit :=
  _ ← say (AddingWatcher workPackageId userId);
  match post_watcher workPackageId userId with
  | WatcherAdded => say (WatcherAddedLogged workPackageId userId)
  | WatcherFailed status =>
      if bool_decide (status = Some 409%Z) then
        say (AlreadyWatching workPackageId userId)
      else
        _ ← say (ErrorLogged "Error adding watcher");
        if bool_decide (status = Some 404%Z) then
          say (ErrorLogged "This could mean either the work package or user doesn't exist")
        else if bool_decide (status = Some 403%Z) then
          say (ErrorLogged "This could mean insufficient permissions to add watchers")
        else mret tt
  end.

End Client.

(** ** Whole runs of the relationship module *)

Module RelationshipRuns.

Import Relationships.

(** Both ends of a creation attempt are ids held by the identity map. *)
Definition known (m : gmap string ident) (c : ident * ident * relation_type)
  : Prop :=
  (∃ k, m !! k = Some c.1.1) ∧ (∃ k, m !! k = Some c.1.2).

(** What a run keeps true once the identity map is seeded. *)
Definition run_invariant {T} (m : gmap string ident) (st : state T) : Prop :=
  issueToWorkPackageMap st = m
  ∧ Forall (known m) (create_calls (log st))
  ∧ (length (posts (log st)) ≤ length (create_calls (log st)))%nat.

(** The state between the main pass and the sweep. *)
Definition after_main_pass {T} (api : target T) (issues : list issue)
    (entries : list (string * ident)) (st : state T) : state T :=
  ((_ ← seed entries; for_each (handleRelationships api) issues) st).2.

(** A target whose error answers all carry a message, as the API's do. *)
Definition well_formed_answers {T} (api : target T) : Prop :=
  ∀ t a b ty t' errors,
    post_relation api t a b ty = (t', PostFailed (Some errors)) →
    Forall is_Some errors.

(** Every deferred element has an endpoint the identity map cannot
    resolve. *)
Definition unresolvable {T} (m : gmap string ident) (st : state T) : Prop :=
  issueToWorkPackageMap st = m
  ∧ ∀ d, d ∈ missingRelationships st → resolve m d = None.

(** [m] returns, and keeps the deferred set unresolvable. *)
Definition steady {T} (m : gmap string ident) (run : M (state T) unit) : Prop :=
  ∀ st, unresolvable m st →
        (run st).1 = Ok () ∧ unresolvable m (run st).2.

(** What the sweep leaves when it cannot resolve anything. *)
Definition reported {T} (st : state T) : state T :=
  if (length (missingRelationships st) =? 0)%nat then st
  else {| target_state := target_state st;
          issueToWorkPackageMap := issueToWorkPackageMap st;
          missingRelationships := [];
          log := (log st
                  ++ RetryStarted (length (missingRelationships st))
                     :: (StillMissing <$> missingRelationships st))%list |}.


(** The state after a main pass over P-2, whose parent P-1 was not
    migrated: the deferred set holds the one triple of P-2. *)
Definition deferring_state : state (list (ident * ident * relation_type)) :=
  (for_each (handleRelationships memory_target) [child_issue]
     (seed [("P-2", IdNum 102)] (initial [])).2).2.

(** A batch in which P-1 links to an issue that was not migrated. *)
Definition dangling_batch : list issue :=
  [issue_with_link "P-1" "2024-01-01" (duplicates_link "Q-9" None);
   child_issue].

End RelationshipRuns.

(** ** Whole runs of [migrateIssues] *)

Module SynchronizerRuns.

Import Synchronizer.

(** The issues that reached one of the three outcomes. *)
Definition settled (st : state) : nat :=
  processed st + skipped st + errors st.

(** [run] settles one issue when it returns and none when it throws. *)
Definition settles_one (run : M state unit) : Prop :=
  ∀ st, match run st with
        | (Ok _, st') => settled st' = S (settled st)
        | (Throw _, st') => settled st' = settled st
        end.

(** What the run knows of the target about a key before it writes. *)
Definition existing_of (w : collaborators) (skipUpdates : bool) (k : string)
  : option ident :=
  if skipUpdates then cache_get w k else findExistingWorkPackage w k.

(** A write of a work package agrees with what was found for its key. *)
Definition write_follows_lookup (w : collaborators) (skipUpdates : bool)
    (e : event) : Prop :=
  match e with
  | Called (CreateWorkPackage p _) =>
      existing_of w skipUpdates (jira_key p) = None
  | Called (UpdateWorkPackage id p _) =>
      existing_of w skipUpdates (jira_key p) = Some id
  | _ => True
  end.

(** The calls recorded in a log. *)
Definition calls (l : list event) : list call :=
  omap (λ e, match e with Called c => Some c | _ => None end) l.

(** The attachment of [filename] as the target holds it. *)
Definition held (existing : list op_attachment) (file : string)
  : option op_attachment :=
  find (λ e, String.eqb (fileName e) file) existing.

(** An issue whose description cannot be converted. *)
Definition broken_issue : issue :=
  {| key := "P-3";
     summary := "Broken";
     description := Converter.text_without_text;
     assignee := None;
     creator := Some {| accountId := "acc-1"; displayName := "C" |};
     status_name := "To Do";
     issuetype_name := "Task";
     priority := None;
     attachment := None;
     comments := None;
     watchCount := None |}.

(** The target after an earlier run: the attachment and the comment of
    P-1 are there. *)
Definition migrated_world : collaborators :=
  {| userMapping := userMapping rerun_world;
     commentUserMapping := commentUserMapping rerun_world;
     cache_get := cache_get rerun_world;
     findExistingWorkPackage := findExistingWorkPackage rerun_world;
     getWorkPackageStatusId := getWorkPackageStatusId rerun_world;
     getWorkPackageTypeId := getWorkPackageTypeId rerun_world;
     getWorkPackagePriorityId := getWorkPackagePriorityId rerun_world;
     getExistingAttachments := getExistingAttachments rerun_world;
     getExistingComments := λ _, [None; Some "10001"];
     getIssueWatchers := getIssueWatchers rerun_world;
     downloadAttachment := downloadAttachment rerun_world;
     createWorkPackage := createWorkPackage rerun_world;
     updateWorkPackage := updateWorkPackage rerun_world;
     uploadAttachment := uploadAttachment rerun_world;
     updateDescription := updateDescription rerun_world;
     addComment := addComment rerun_world |}.

End SynchronizerRuns.

(** ** Vocabulary of the target ([getWorkPackageTypeId],
       [getWorkPackageStatusId] and [getWorkPackagePriorityId] of
       [src/openproject-client.js]) *)

Module Vocabulary.

(** An element of [/types], [/statuses] or [/priorities], reduced to the
    fields the lookups read. *)
Record entry := { name : string; id : Z; isDefault : bool }.

Definition typeMapping : list (string * string) :=
  [ ("Task", "Task"); ("Story", "User story"); ("Bug", "Bug");
    ("Epic", "Epic"); ("Feature", "Feature"); ("Milestone", "Milestone") ].

Definition statusMapping : list (string * string) :=
  [ ("To Do", "To Do"); ("In Progress", "In Progress");
    ("In Review", "In Review"); ("Done", "Done"); ("Closed", "Closed");
    ("Resolved", "Done"); ("Live", "Closed") ].

Definition priorityMapping : list (string * string) :=
  [ ("Highest", "Critical"); ("High", "High"); ("Medium", "Normal");
    ("Low", "Low"); ("Lowest", "Trivial") ].

(** The property names that an object literal inherits: indexing a mapping
    with one of them gives a function or an object, not a string. *)
Definition inherited : list string :=
  [ "constructor"; "__proto__"; "hasOwnProperty"; "isPrototypeOf";
    "propertyIsEnumerable"; "toLocaleString"; "toString"; "valueOf";
    "__defineGetter__"; "__defineSetter__"; "__lookupGetter__";
    "__lookupSetter__" ].

(** [mapping[k] || fallback].  The values of the three mappings are
    non-empty strings; [None] stands for an inherited value, which is truthy
    and not a string. *)
Definition mapped (mapping : list (string * string)) (fallback k : string)
  : option string :=
  match find (λ e, String.eqb e.1 k) mapping with
  | Some e => Some e.2
  | None => if bool_decide (k ∈ inherited) then None else Some fallback
  end.

(** [vocabulary.find((x) => x.name.toLowerCase() === mapped.toLowerCase())]:
    the callback runs, and throws on a value that is not a string, only
    when there is an element to test. *)
Definition find_named (vocabulary : list entry) (mapped : option string)
  : result (option entry) :=
  match vocabulary, mapped with
  | [], _ => Ok None
  | _ :: _, None => Throw (TypeError "mapped.toLowerCase is not a function")
  | _ :: _, Some m =>
      Ok (find (λ x, String.eqb (Str.toLowerCase (name x)) (Str.toLowerCase m))
            vocabulary)
  end.

(** [vocabulary[0].id] *)
Definition first_id (vocabulary : list entry) : result Z :=
  match vocabulary with
  | x :: _ => Ok (id x)
  | [] => Throw (TypeError "Cannot read properties of undefined (reading 'id')")
  end.

Definition getWorkPackageTypeId (workPackageTypes : list entry)
    (jiraIssueType : string) : result Z :=
  typeObj ← find_named workPackageTypes (mapped typeMapping "Task" jiraIssueType);
  match typeObj with
  | Some t => Ok (id t)
  | None => first_id workPackageTypes
  end.

Definition getWorkPackageStatusId (workPackageStatuses : list entry)
    (jiraStatus : string) : result Z :=
  statusObj ← find_named workPackageStatuses (mapped statusMapping "New" jiraStatus);
  match statusObj with
  | Some s => Ok (id s)
  | None => first_id workPackageStatuses
  end.

(** What [getWorkPackagePriorityId] returns: an id, [null] for an issue
    without priority, or [undefined] when nothing matches and the target
    declares no default. *)
Inductive priority_answer :=
| PriorityId (n : Z)
| PriorityNull
| PriorityUndefined.

(** [jiraPriority] is reduced to its [name]. *)
Definition getWorkPackagePriorityId (workPackagePriorities : list entry)
    (jiraPriority : option string) : result priority_answer :=
  match jiraPriority with
  | None => Ok PriorityNull
  | Some n =>
      priorityObj ← find_named workPackagePriorities
                      (mapped priorityMapping "Normal" n);
      match priorityObj with
      | Some p => Ok (PriorityId (id p))
      | None =>
          Ok (match find isDefault workPackagePriorities with
              | Some p => PriorityId (id p)
              | None => PriorityUndefined
              end)
      end
  end.

(** The key has no entry of its own in the mapping and is no inherited
    property name. *)
Definition unmapped (mapping : list (string * string)) (k : string) : Prop :=
  (k ∉ mapping.*1) ∧ (k ∉ inherited).

(** Two vocabularies with the same ids whose names differ in letter case
    only. *)
Definition same_up_to_case (v1 v2 : list entry) : Prop :=
  Forall2 (λ a b, id a = id b
                  ∧ Str.toLowerCase (name a) = Str.toLowerCase (name b)) v1 v2.

(** The statuses of a target, in the order of their ids. *)
Definition sample_statuses : list entry :=
  [ {| name := "New"; id := 1; isDefault := true |};
    {| name := "In progress"; id := 7; isDefault := false |};
    {| name := "Closed"; id := 12; isDefault := false |} ].

End Vocabulary.

(** ** The cache of work packages ([getOpenProjectWorkPackages] of
       [src/openproject-client.js]) *)

Module Cache.

(** A work package of the target, reduced to its id and to the custom
    field that holds the Jira key. *)
Record work_package := { wp_id : ident; jiraId : option string }.

(** The answer to one [GET /work_packages]: [total] is
    [parseInt(response.data.total)], [None] when that is not a number;
    [elements] is [response.data._embedded.elements]. *)
Record page := { total : option Z; elements : option (list work_package) }.

(** [for (const wp of workPackages) if (jiraId) workPackageMap.set(jiraId, wp)] *)
Definition index_page (m : gmap string work_package)
    (workPackages : list work_package) : gmap string work_package :=
  foldl (λ m wp,
           match jiraId wp with
           | Some k => if String.eqb k EmptyString then m else <[k := wp]> m
           | None => m
           end) m workPackages.

(** [allWorkPackages.length >= total] *)
Definition reached (n : nat) (total : option Z) : bool :=
  match total with
  | Some t => (t <=? Z.of_nat n)%Z
  | None => false
  end.

(** The [while (true)] loop, with a bound on the number of requests:
    [None] when the bound is reached before the loop ends.  [total] is
    [None] as long as it is [null].  An exception of the [try] block is
    thrown again. *)
Fixpoint fetch (get_page : nat → result page) (fuel : nat) (pageNo : nat)
    (total : option (option Z)) (allWorkPackages : list work_package)
    (workPackageMap : gmap string work_package)
  : option (result (gmap string work_package)) :=
  match fuel with
  | O => None
  | S fuel' =>
      match get_page pageNo with
      | Throw e => Some (Throw e)
      | Ok response =>
          let total' := match total with
                        | None => Cache.total response
                        | Some t => t
                        end in
          match elements response with
          | None | Some [] => Some (Ok workPackageMap)
          | Some workPackages =>
              let all' := (allWorkPackages ++ workPackages)%list in
              let map' := index_page workPackageMap workPackages in
              if reached (length all') total' then Some (Ok map')
              else fetch get_page fuel' (S pageNo) (Some total') all' map'
          end
      end
  end.

Definition getOpenProjectWorkPackages (get_page : nat → result page)
    (fuel : nat) : option (result (gmap string work_package)) :=
  fetch get_page fuel 1 None [] ∅.

(** A target that serves the work packages [pages], page by page, and
    reports how many there are; past the last page it answers with no
    elements.  [failing] pages answer with an error instead. *)
Definition serves (pages : list (list work_package))
    (get_page : nat → result page) : Prop :=
  ∀ i, ∃ response,
    get_page (S i) = Ok response
    ∧ total response = Some (Z.of_nat (length (concat pages)))
    ∧ match pages !! i with
      | Some p => elements response = Some p
      | None => elements response = None ∨ elements response = Some []
      end.

(** A target with three work packages on two pages. *)
Definition sample_pages : list (list work_package) :=
  [ [ {| wp_id := IdNum 11; jiraId := Some "P-1" |};
      {| wp_id := IdNum 12; jiraId := None |} ];
    [ {| wp_id := IdNum 13; jiraId := Some "P-2" |} ] ].

Definition sample_get_page (n : nat) : result page :=
  Ok {| total := Some 3%Z; elements := Some (default [] (sample_pages !! pred n)) |}.

(** The same target when the second request fails. *)
Definition failing_get_page (n : nat) : result page :=
  if (n =? 2)%nat then Throw (HttpError (Some 500%Z)) else sample_get_page n.

End Cache.

(** ** Migration of all projects (the script [migrateAll] of
       [src/migrate-all.js])

    The two lists of projects are what the calls to [listProjects]
    returned; the script starts from them. *)

Module MigrateAll.

Record jira_project := { key : string }.
Record op_project := { name : string; id : Z }.

(** What the script calls: [migrateIssues] of the main module, and the two
    scripts run with [execSync], which throws when the script fails. *)
Record tools := {
  migrateIssues : string → Z → result unit;
  migrate_parents : string → Z → result unit;
  migrate_relationships : string → Z → result unit
}.

Inductive event :=
| NoMatch (k : string)
| IssuesStarted (k : string) (openProjectId : Z)
| IssuesFinished (k : string)
| IssuesFailed (k : string)
| ParentsStarted (k : string) (openProjectId : Z)
| RelationshipsStarted (k : string) (openProjectId : Z)
| Completed.

Definition say (e : event) : M (list event) unit :=
  λ st, (Ok tt, (st ++ [e])%list).

(** [opProjectMap[key]], kept when truthy. *)
Definition project_id (m : gmap string Z) (k : string) : option Z :=
  match m !! k with
  | Some n => if (n =? 0)%Z then None else Some n
  | None => None
  end.

(** The script is modelled over [String.prototype.toUpperCase], which it
    applies to the keys and to the names: the function is a parameter, and
    what is proved holds for whatever it maps each string to. *)
Section WithCase.

Context (toUpperCase : string → string).

(** [for (const op of openProjects) opProjectMap[op.name.toUpperCase()] = op.id].
    A string in upper case holds no lower-case ASCII letter, so it is never
    one of the property names that the object inherits: the object is a map
    from keys to ids. *)
Definition opProjectMap (openProjects : list op_project) : gmap string Z :=
  foldl (λ m op, <[toUpperCase (name op) := id op]> m) ∅ openProjects.

Definition migrate_issues_of (t : tools) (m : gmap string Z)
    (jiraProject : jira_project) : M (list event) unit :=
  let k := toUpperCase (key jiraProject) in
  match project_id m k with
  | None => say (NoMatch k)
  | Some openProjectId =>
      _ ← say (IssuesStarted k openProjectId);
      try_catch
        (_ ← lift (migrateIssues t k openProjectId); say (IssuesFinished k))
        (λ _, say (IssuesFailed k))
  end.

Definition migrate_parents_of (t : tools) (m : gmap string Z)
    (jiraProject : jira_project) : M (list event) unit :=
  let k := toUpperCase (key jiraProject) in
  match project_id m k with
  | None => mret tt
  | Some openProjectId =>
      _ ← say (ParentsStarted k openProjectId);
      lift (migrate_parents t k openProjectId)
  end.

Definition migrate_relationships_of (t : tools) (m : gmap string Z)
    (jiraProject : jira_project) : M (list event) unit :=
  let k := toUpperCase (key jiraProject) in
  match project_id m k with
  | None => mret tt
  | Some openProjectId =>
      _ ← say (RelationshipsStarted k openProjectId);
      lift (migrate_relationships t k openProjectId)
  end.

Definition migrateAll (t : tools) (jiraProjects : list jira_project)
    (openProjects : list op_project) : M (list event) unit :=
  let m := opProjectMap openProjects in
  _ ← for_each (migrate_issues_of t m) jiraProjects;
  _ ← for_each (migrate_parents_of t m) jiraProjects;
  _ ← for_each (migrate_relationships_of t m) jiraProjects;
  say Completed.

(** The Jira projects that have a project of the target, with its id. *)
Definition matched (jiraProjects : list jira_project)
    (openProjects : list op_project) : list (string * Z) :=
  omap (λ p, let k := toUpperCase (key p) in
             (λ n, (k, n)) <$> project_id (opProjectMap openProjects) k)
       jiraProjects.

End WithCase.

(** The projects for which each phase was started, in a log. *)
Definition issues_started (l : list event) : list (string * Z) :=
  omap (λ e, match e with IssuesStarted k n => Some (k, n) | _ => None end) l.

Definition parents_started (l : list event) : list (string * Z) :=
  omap (λ e, match e with ParentsStarted k n => Some (k, n) | _ => None end) l.

Definition relationships_started (l : list event) : list (string * Z) :=
  omap (λ e, match e with RelationshipsStarted k n => Some (k, n) | _ => None end) l.

(** The events of the first phase. *)
Definition of_issues (e : event) : bool :=
  match e with
  | NoMatch _ | IssuesStarted _ _ | IssuesFinished _ | IssuesFailed _ => true
  | _ => false
  end.

(** Tools whose scripts succeed while the migration of issues fails. *)
Definition failing_issues : tools :=
  {| migrateIssues := λ _ _, Throw (HttpError (Some 500%Z));
     migrate_parents := λ _ _, Ok ();
     migrate_relationships := λ _ _, Ok () |}.

(** Tools whose parents script fails. *)
Definition failing_parents : tools :=
  {| migrateIssues := λ _ _, Ok ();
     migrate_parents := λ _ _, Throw (TypeError "Command failed");
     migrate_relationships := λ _ _, Ok () |}.

(** [toUpperCase] on strings of ASCII letters, digits and punctuation,
    where it raises the letters a to z and keeps the rest: the names of the
    examples are of that kind. *)
Definition upper_ascii (a : ascii) : ascii :=
  let n := Ascii.nat_of_ascii a in
  if (97 <=? n)%nat && (n <=? 122)%nat then Ascii.ascii_of_nat (n - 32) else a.

Fixpoint toUpperCase_ascii (s : string) : string :=
  match s with
  | EmptyString => EmptyString
  | String a s' => String (upper_ascii a) (toUpperCase_ascii s')
  end.

Definition sample_jira : list jira_project :=
  [ {| key := "Web" |}; {| key := "OPS" |} ].

Definition sample_open : list op_project :=
  [ {| name := "web"; id := 3 |}; {| name := "Other"; id := 4 |} ].

End MigrateAll.

(** ** The lookup of an existing work package ([findExistingWorkPackage] of
       [src/openproject-client.js]) *)

Module Reads.

(** [response] is the answer to the filtered [GET /work_packages], reduced
    to [data._embedded.elements]; a [Throw] stands for any exception of the
    [try] block, which the [catch] turns into [null]. *)
Definition findExistingWorkPackage
    (response : result (list Cache.work_package)) : option Cache.work_package :=
  match response with
  | Ok (wp :: _) => Some wp
  | Ok [] => None
  | Throw _ => None
  end.

(** A run of [migrateIssues] whose lookups are those of
    [findExistingWorkPackage] on the answers of the target. *)
Definition looks_up_through (w : Synchronizer.collaborators)
    (answers : string → result (list Cache.work_package)) : Prop :=
  ∀ k, Synchronizer.findExistingWorkPackage w k
       = Cache.wp_id <$> findExistingWorkPackage (answers k).

(** [`${id}`] of a priority answer, as the payload of the synchronizer
    records it: an id, or none for [null] and [undefined]. *)
Definition priority_id_of (a : Vocabulary.priority_answer) : option Z :=
  match a with
  | Vocabulary.PriorityId n => Some n
  | Vocabulary.PriorityNull | Vocabulary.PriorityUndefined => None
  end.

(** The collaborators of [migrateIssues] record the answers of the three
    vocabulary lookups, which in the source can throw.  For the issue [i]
    they return on the vocabularies loaded, and what the run records for
    [i] is what they return. *)
Definition lookups_return (w : Synchronizer.collaborators)
    (types statuses priorities : list Vocabulary.entry)
    (i : Synchronizer.issue) : Prop :=
  Vocabulary.getWorkPackageStatusId statuses (Synchronizer.status_name i)
  = Ok (Synchronizer.getWorkPackageStatusId w (Synchronizer.status_name i))
  ∧ Vocabulary.getWorkPackageStatusId statuses "unknown"
    = Ok (Synchronizer.getWorkPackageStatusId w "unknown")
  ∧ Vocabulary.getWorkPackageTypeId types (Synchronizer.issuetype_name i)
    = Ok (Synchronizer.getWorkPackageTypeId w (Synchronizer.issuetype_name i))
  ∧ ∃ answer,
      Vocabulary.getWorkPackagePriorityId priorities (Synchronizer.priority i)
      = Ok answer
      ∧ Synchronizer.getWorkPackagePriorityId w (Synchronizer.priority i)
        = priority_id_of answer.

(** The types of a target that has one. *)
Definition sample_types : list Vocabulary.entry :=
  [ {| Vocabulary.name := "Task"; Vocabulary.id := 1;
       Vocabulary.isDefault := true |} ].

(** A target whose lookups fail. *)
Definition unreachable_lookups (k : string) : result (list Cache.work_package) :=
  Throw (HttpError (Some 503%Z)).

Definition unreachable_world : Synchronizer.collaborators :=
  {| Synchronizer.userMapping := Synchronizer.userMapping Synchronizer.fresh_world;
     Synchronizer.commentUserMapping :=
       Synchronizer.commentUserMapping Synchronizer.fresh_world;
     Synchronizer.cache_get := Synchronizer.cache_get Synchronizer.fresh_world;
     Synchronizer.findExistingWorkPackage := λ _, None;
     Synchronizer.getWorkPackageStatusId :=
       Synchronizer.getWorkPackageStatusId Synchronizer.fresh_world;
     Synchronizer.getWorkPackageTypeId :=
       Synchronizer.getWorkPackageTypeId Synchronizer.fresh_world;
     Synchronizer.getWorkPackagePriorityId :=
       Synchronizer.getWorkPackagePriorityId Synchronizer.fresh_world;
     Synchronizer.getExistingAttachments :=
       Synchronizer.getExistingAttachments Synchronizer.fresh_world;
     Synchronizer.getExistingComments :=
       Synchronizer.getExistingComments Synchronizer.fresh_world;
     Synchronizer.getIssueWatchers :=
       Synchronizer.getIssueWatchers Synchronizer.fresh_world;
     Synchronizer.downloadAttachment :=
       Synchronizer.downloadAttachment Synchronizer.fresh_world;
     Synchronizer.createWorkPackage :=
       Synchronizer.createWorkPackage Synchronizer.fresh_world;
     Synchronizer.updateWorkPackage :=
       Synchronizer.updateWorkPackage Synchronizer.fresh_world;
     Synchronizer.uploadAttachment :=
       Synchronizer.uploadAttachment Synchronizer.fresh_world;
     Synchronizer.updateDescription :=
       Synchronizer.updateDescription Synchronizer.fresh_world;
     Synchronizer.addComment := Synchronizer.addComment Synchronizer.fresh_world |}.

End Reads.

(** * Properties *)

Open Scope list_scope.

(** ** The state and exception monad *)

Lemma run_bind {S A B} (m : M S A) (k : A → M S B) (st : S) :
  (m ≫= k) st
  = match m st with
    | (Ok a, st') => k a st'
    | (Throw e, st') => (Throw e, st')
    end.
Proof. reflexivity. Qed.

Lemma bind_assoc {S A B C} (m : M S A) (k1 : A → M S B) (k2 : B → M S C)
    (st : S) :
  ((m ≫= k1) ≫= k2) st = (m ≫= (λ x, k1 x ≫= k2)) st.
Proof.
  rewrite !run_bind. destruct (m st) as [[a|e] st']; [|done].
  by rewrite run_bind.
Qed.

Lemma preserves_ret {S A} (P : S → Prop) (a : A) : preserves P (mret a : M S A).
Proof. by intros st H. Qed.

Lemma preserves_throw {S A} (P : S → Prop) (e : exn) :
  preserves P (throw e : M S A).
Proof. by intros st H. Qed.

Lemma preserves_lift {S A} (P : S → Prop) (r : result A) :
  preserves P (lift r : M S A).
Proof. by intros st H. Qed.

Lemma preserves_bind {S A B} (P : S → Prop) (m : M S A) (k : A → M S B) :
  preserves P m → (∀ a, preserves P (k a)) → preserves P (m ≫= k).
Proof.
  intros Hm Hk st H. specialize (Hm st H). rewrite run_bind.
  destruct (m st) as [[a|e] st']; simpl in *; [by apply Hk|done].
Qed.

Lemma preserves_try_catch {S A} (P : S → Prop) (m : M S A) (h : exn → M S A) :
  preserves P m → (∀ e, preserves P (h e)) → preserves P (try_catch m h).
Proof.
  intros Hm Hh st H. specialize (Hm st H). unfold try_catch.
  destruct (m st) as [[a|e] st']; simpl in *; [done|by apply Hh].
Qed.

Lemma preserves_for_each {S A} (P : S → Prop) (f : A → M S unit) (l : list A) :
  (∀ x, preserves P (f x)) → preserves P (for_each f l).
Proof.
  intros Hf. induction l as [|x l IH]; simpl.
  - apply preserves_ret.
  - apply preserves_bind; [apply Hf|done].
Qed.

Lemma preserves_fold_m {S A B} (P : S → Prop) (f : B → A → M S B)
    (l : list A) (b : B) :
  (∀ b x, preserves P (f b x)) → preserves P (Synchronizer.fold_m f l b).
Proof.
  intros Hf. revert b. induction l as [|x l IH]; intros b; simpl.
  - apply preserves_ret.
  - apply preserves_bind; [apply Hf|intros; apply IH].
Qed.

(** ** Strings *)

Lemma is_prefix_lower (p s : string) :
  Str.is_prefix p s = true →
  Str.is_prefix (Str.toLowerCase p) (Str.toLowerCase s) = true.
Proof.
  revert s. induction p as [|a p IH]; intros [|b s]; simpl; try done.
  destruct (Ascii.eqb a b) eqn:E; [|done].
  apply Ascii.eqb_eq in E. subst b. rewrite Ascii.eqb_refl. apply IH.
Qed.

Lemma includes_lower (p s : string) :
  Str.includes p s = true →
  Str.includes (Str.toLowerCase p) (Str.toLowerCase s) = true.
Proof.
  induction s as [|b s IH].
  - simpl. rewrite !orb_false_r. apply (is_prefix_lower p EmptyString).
  - cbn [Str.includes]. intros [H|H]%orb_true_iff.
    + apply orb_true_iff. left. apply (is_prefix_lower p (String b s) H).
    + apply orb_true_iff. right. simpl. by apply IH.
Qed.

Lemma replace_absent (p r s : string) :
  Str.includes p s = false → Str.replace p r s = s.
Proof.
  induction s as [|c s IH]; cbn [Str.includes Str.replace].
  - intros H%orb_false_iff. destruct H as [-> _]. done.
  - intros H%orb_false_iff. destruct H as [-> H]. by rewrite IH.
Qed.

Lemma is_prefix_split (p s : string) :
  Str.is_prefix p s = true → s = p +:+ Str.drop (String.length p) s.
Proof.
  revert s. induction p as [|a p IH]; intros [|b s]; simpl; try done.
  destruct (Ascii.eqb a b) eqn:E; [|done].
  apply Ascii.eqb_eq in E. subst b. intros H.
  change (String a s = String a (p +:+ Str.drop (String.length p) s)).
  f_equal. by apply IH.
Qed.

(** [replace] rewrites one occurrence of the pattern and nothing else. *)
Lemma replace_present (p r s : string) :
  Str.includes p s = true →
  ∃ pre post, s = pre +:+ p +:+ post ∧ Str.replace p r s = pre +:+ r +:+ post.
Proof.
  induction s as [|c s IH]; cbn [Str.includes Str.replace].
  - rewrite orb_false_r. intros H. rewrite H.
    exists EmptyString, (Str.drop (String.length p) EmptyString).
    split; [|done]. by apply is_prefix_split.
  - destruct (Str.is_prefix p (String c s)) eqn:E.
    + intros _. exists EmptyString, (Str.drop (String.length p) (String c s)).
      split; [|done]. by apply is_prefix_split.
    + simpl. intros H. destruct (IH H) as (pre & post & -> & ->).
      by exists (String c pre), post.
Qed.

Lemma count_char_app (c : ascii) (s1 s2 : string) :
  Str.count_char c (s1 +:+ s2) = (Str.count_char c s1 + Str.count_char c s2)%nat.
Proof. induction s1 as [|a s1 IH]; simpl; [done|]. rewrite IH. lia. Qed.

(** ** Document converter *)

Section ConverterFacts.

Import Converter.

(** Induction on a document node, through the list of its children. *)
Lemma node_ind (P : node → Prop) :
  P Null →
  (∀ type text marks attrs, P (Node type text marks attrs None)) →
  (∀ type text marks attrs children,
      Forall P children → P (Node type text marks attrs (Some children))) →
  ∀ n, P n.
Proof.
  intros HNull HLeaf HNode. fix IH 1.
  intros [|type text marks attrs [children|]]; [exact HNull| |apply HLeaf].
  apply HNode. revert children. fix IHl 1.
  intros [|c children]; constructor; [apply IH|apply IHl].
Qed.

Lemma apply_marks_ok (text : string) (ms : list mark) :
  is_ok (apply_marks text ms) = forallb mark_ok ms.
Proof.
  revert text. induction ms as [|[ty a] ms IH]; intros text; [done|].
  cbn [apply_marks forallb]. unfold apply_mark, mark_ok. cbn [mark_type mark_attrs].
  destruct (String.eqb ty "strong") eqn:E1;
    [apply String.eqb_eq in E1; subst ty; apply IH|].
  destruct (String.eqb ty "em") eqn:E2;
    [apply String.eqb_eq in E2; subst ty; apply IH|].
  destruct (String.eqb ty "code") eqn:E3;
    [apply String.eqb_eq in E3; subst ty; apply IH|].
  destruct (String.eqb ty "link") eqn:E4; [|apply IH].
  destruct a as [a|]; [apply IH|done].
Qed.

Lemma render_ok (k : node_kind) (text : option string)
    (marks : option (list mark)) (attrs : option node_attrs) (c : string) :
  is_ok (render k text marks attrs c) = fields_ok k text marks attrs.
Proof.
  destruct k; simpl; try done.
  - destruct text as [t|]; simpl; [|done].
    destruct marks as [ms|]; simpl; [apply apply_marks_ok|done].
  - by destruct attrs.
  - destruct attrs as [a|]; simpl; [|done]. by repeat case_match.
Qed.

Lemma map_join_ok (children : list node) :
  Forall (λ n, is_ok (processNode n) = well_formed n) children →
  is_ok (map_join processNode children) = forallb well_formed children.
Proof.
  induction 1 as [|c children Hc _ IH]; simpl; [done|].
  rewrite <- Hc. unfold mbind at 1, result_bind.
  destruct (processNode c) as [s|e]; simpl; [|done].
  rewrite <- IH. unfold mbind, result_bind.
  by destruct (map_join processNode children).
Qed.

Lemma processNode_ok (n : node) : is_ok (processNode n) = well_formed n.
Proof.
  induction n as [|type text marks attrs|type text marks attrs children IH]
    using node_ind; simpl; [done| |].
  - destruct (opt_truthy type); simpl; [|done].
    by rewrite render_ok.
  - destruct (opt_truthy type); simpl; [|done].
    rewrite <- (map_join_ok children IH). unfold mbind, result_bind.
    destruct (map_join processNode children); simpl; [|done].
    by rewrite render_ok.
Qed.

(** C3, as stated, fails: each of the four malformed documents makes the
    converter throw a [TypeError]. *)
Lemma converter_throws_on_malformed :
  convertAtlassianDocumentToHtml text_without_text
  = Throw (TypeError "node.text is undefined")
  ∧ convertAtlassianDocumentToHtml heading_without_attrs
    = Throw (TypeError "node.attrs is undefined")
  ∧ convertAtlassianDocumentToHtml media_without_attrs
    = Throw (TypeError "node.attrs is undefined")
  ∧ convertAtlassianDocumentToHtml link_without_attrs
    = Throw (TypeError "mark.attrs is undefined").
Proof. repeat split; reflexivity. Qed.

(** C3, amended.  The converter returns a string exactly on the documents
    in which every node it reaches carries the fields its kind
    dereferences ([well_formed_document]): [text] on a text node, [attrs]
    on a link mark, [attrs] on a heading and on a media node.  A node of
    an unknown type renders as the concatenation of its rendered children,
    and a heading whose [attrs] carries no level renders at level 1. *)
Theorem converter_total_on_well_formed :
  (∀ doc, is_ok (convertAtlassianDocumentToHtml doc) = well_formed_document doc)
  ∧ (∀ doc, well_formed_document doc = true →
            ∃ html, convertAtlassianDocumentToHtml doc = Ok html)
  ∧ (∀ ty text marks attrs children,
       opt_truthy (Some ty) = true →
       kind_of ty = KDefault →
       processNode (Node (Some ty) text marks attrs (Some children))
       = map_join processNode children)
  ∧ (∀ text marks a children,
       level a = None →
       processNode (Node (Some "heading") text marks (Some a) (Some children))
       = (c ← map_join processNode children; Ok (wrap "h1" c))).
Proof.
  assert (H : ∀ doc, is_ok (convertAtlassianDocumentToHtml doc)
                     = well_formed_document doc).
  { intros [|s|n]; simpl; [done| |apply processNode_ok]. by case_match. }
  split_and!.
  - exact H.
  - intros doc Hwf. rewrite <- H in Hwf.
    destruct (convertAtlassianDocumentToHtml doc) as [html|e]; [eauto|done].
  - intros ty text marks attrs children Hty Hk.
    cbn [processNode]. rewrite Hty. cbn [template_opt]. rewrite Hk.
    unfold mbind, result_bind.
    by destruct (map_join processNode children).
  - intros text marks a children Hl.
    cbn [processNode]. simpl opt_truthy. cbn iota.
    change (kind_of (template_opt (Some "heading"))) with KHeading.
    unfold render, heading_level. rewrite Hl. reflexivity.
Qed.

(** An instance: the description with two media references is well formed
    and converts. *)
Lemma converter_total_on_well_formed_witness :
  well_formed_document twice_referenced = true
  ∧ ∃ html, convertAtlassianDocumentToHtml twice_referenced = Ok html.
Proof.
  split; [reflexivity|].
  exact (proj1 (proj2 converter_total_on_well_formed) twice_referenced eq_refl).
Defined.

End ConverterFacts.

(** ** Relationship resolver *)

Section RelationshipFacts.

Import Relationships.

Context {T : Type} (api : target T).

Ltac unfold_m :=
  unfold mbind, M_bind, mret, M_ret, try_catch, throw, lift, emit, lookup_id,
    missing_add, missing_take, map_set,
    api_get_parent, api_count_relations, api_post_relation in *; simpl in *.

Lemma create_calls_app (l1 l2 : list event) :
  create_calls (l1 ++ l2) = create_calls l1 ++ create_calls l2.
Proof. apply omap_app. Qed.

Lemma posts_app (l1 l2 : list event) : posts (l1 ++ l2) = posts l1 ++ posts l2.
Proof. apply omap_app. Qed.

(** The footprint of [createRelationship]: it logs its call first, issues at
    most the one [POST] it was asked for, and touches neither the identity
    map nor the deferred set. *)
Lemma createRelationship_run (fromId toId : ident) (type : relation_type) st :
  ∃ l, log (createRelationship api fromId toId type st).2
       = log st ++ CreateRelationshipCalled fromId toId type :: l
    ∧ create_calls l = []
    ∧ (posts l = [] ∨ posts l = [(fromId, toId, type)])
    ∧ issueToWorkPackageMap (createRelationship api fromId toId type st).2
      = issueToWorkPackageMap st
    ∧ missingRelationships (createRelationship api fromId toId type st).2
      = missingRelationships st.
Proof.
  unfold createRelationship, post_new_relationship,
    checkExistingRelationship, checkParentRelationship.
  unfold_m.
  repeat (case_match; simpl in *; simplify_eq);
    rewrite <- ?app_assoc; simpl; eexists; (split; [reflexivity|]); auto.
Qed.

(** The mirror test of [handle_link] and what each outcome does. *)
Lemma handle_link_skipped (i : issue) (fromId : ident) (link : issue_link) st :
  (classify_link i link).2 = true →
  handle_link api i fromId link st = emit (DuplicateSkipped (key i)) st.
Proof.
  unfold handle_link. destruct (classify_link i link) as [[k ty] skip].
  simpl. intros ->. destruct k, ty; reflexivity.
Qed.

Lemma handle_link_resolved (i : issue) (fromId toId : ident)
    (link : issue_link) (k : string) (ty : relation_type) st :
  classify_link i link = (Some k, Some ty, false) →
  truthy_lookup (issueToWorkPackageMap st) k = Some toId →
  (handle_link api i fromId link st).1 = Ok ()
  ∧ ∃ l, log (handle_link api i fromId link st).2
         = log st ++ CreateRelationshipCalled fromId toId ty :: l
      ∧ create_calls l = []
      ∧ (posts l = [] ∨ posts l = [(fromId, toId, ty)])
      ∧ issueToWorkPackageMap (handle_link api i fromId link st).2
        = issueToWorkPackageMap st
      ∧ target_state (handle_link api i fromId link st).2
        = target_state (createRelationship api fromId toId ty st).2.
Proof.
  intros Hc Hk. unfold handle_link. rewrite Hc.
  destruct (createRelationship_run fromId toId ty st) as (l & Hl & Hcc & Hp & Hm & Hmiss).
  unfold_m. rewrite Hk.
  destruct (createRelationship api fromId toId ty st) as [[[]|e] st'] eqn:E;
    simpl in *.
  - split; [done|]. exists l. auto.
  - split; [done|]. exists (l ++ [ErrorLogged "Failed to create relationship"]).
    rewrite Hl, <- app_assoc. simpl.
    rewrite create_calls_app, posts_app, Hcc. simpl. rewrite app_nil_r. auto.
Qed.


(** An issue with one link and no epic link runs the loop body once. *)
Lemma handleRelationships_single (i : issue) (link : issue_link)
    (fromId : ident) st :
  customfield_10014 i = None →
  issuelinks i = Some [link] →
  truthy_lookup (issueToWorkPackageMap st) (key i) = Some fromId →
  (handle_link api i fromId link st).1 = Ok () →
  handleRelationships api i st = handle_link api i fromId link st.
Proof.
  intros He Hl Hk Hok. unfold handleRelationships, handle_epic.
  rewrite He, Hl. simpl. unfold_m. rewrite Hk. simpl.
  destruct (handle_link api i fromId link st) as [[[]|e] st'] eqn:E;
    simpl in *; [done|discriminate].
Qed.

(** *** Duplicate pairs *)

Lemma lt_irrefl (s : string) : Str.lt s s = false.
Proof.
  unfold Str.lt, String.ltb.
  pose proof (String.compare_antisym s s) as H. revert H.
  destruct (String.compare s s); simpl; intros; done.
Qed.

Lemma classify_duplicates (k c other : string) (oc : option string) :
  classify_link (issue_with_link k c (duplicates_link other oc))
                (duplicates_link other oc)
  = (Some other, Some Duplicates, created_gt c oc).
Proof. reflexivity. Qed.

Lemma classify_duplicated_by (k c other : string) (oc : option string) :
  classify_link (issue_with_link k c (duplicated_by_link other oc))
                (duplicated_by_link other oc)
  = (Some other, Some Duplicated, created_lt c oc).
Proof. reflexivity. Qed.

(** One processing pass over an issue whose only link is [link]. *)
Lemma pass_realized (k c : string) (link : issue_link) (other : string)
    (ty : relation_type) (fromId toId : ident) st :
  classify_link (issue_with_link k c link) link = (Some other, Some ty, false) →
  truthy_lookup (issueToWorkPackageMap st) k = Some fromId →
  truthy_lookup (issueToWorkPackageMap st) other = Some toId →
  create_calls (log (handleRelationships api (issue_with_link k c link) st).2)
  = create_calls (log st) ++ [(fromId, toId, ty)]
  ∧ issueToWorkPackageMap (handleRelationships api (issue_with_link k c link) st).2
    = issueToWorkPackageMap st.
Proof.
  intros Hc Hk Ho.
  destruct (handle_link_resolved (issue_with_link k c link) fromId toId link
              other ty st Hc Ho) as (Hok & l & Hl & Hcc & _ & Hm & _).
  rewrite (handleRelationships_single _ link fromId st); try done.
  rewrite Hl, create_calls_app. simpl. rewrite Hcc. done.
Qed.

Lemma pass_suppressed (k c : string) (link : issue_link) (fromId : ident) st :
  (classify_link (issue_with_link k c link) link).2 = true →
  truthy_lookup (issueToWorkPackageMap st) k = Some fromId →
  log (handleRelationships api (issue_with_link k c link) st).2
  = log st ++ [DuplicateSkipped k]
  ∧ issueToWorkPackageMap (handleRelationships api (issue_with_link k c link) st).2
    = issueToWorkPackageMap st.
Proof.
  intros Hc Hk.
  rewrite (handleRelationships_single _ link fromId st); try done;
    rewrite handle_link_skipped by done; done.
Qed.

(** C10. When the two issues of a duplicates pair carry the same creation
    timestamp, neither suppression test fires (both are strict
    comparisons), and each of the two processing passes calls
    [createRelationship]: [A]'s pass for the edge [A duplicates B], [B]'s
    pass for the edge [B duplicated A]. *)
Theorem equal_timestamps_double_create
    (kA kB ts : string) (idA idB : ident) (stA stB : state T) :
  truthy_lookup (issueToWorkPackageMap stA) kA = Some idA →
  truthy_lookup (issueToWorkPackageMap stA) kB = Some idB →
  truthy_lookup (issueToWorkPackageMap stB) kA = Some idA →
  truthy_lookup (issueToWorkPackageMap stB) kB = Some idB →
  let A := issue_with_link kA ts (duplicates_link kB (Some ts)) in
  let B := issue_with_link kB ts (duplicated_by_link kA (Some ts)) in
  created_gt (created A) (Some (created B)) = false
  ∧ created_lt (created B) (Some (created A)) = false
  ∧ (classify_link A (duplicates_link kB (Some ts))).2 = false
  ∧ (classify_link B (duplicated_by_link kA (Some ts))).2 = false
  ∧ create_calls (log (handleRelationships api A stA).2)
    = create_calls (log stA) ++ [(idA, idB, Duplicates)]
  ∧ create_calls (log (handleRelationships api B stB).2)
    = create_calls (log stB) ++ [(idB, idA, Duplicated)].
Proof.
  intros HA1 HB1 HA2 HB2 A B.
  assert (Hgt : created_gt ts (Some ts) = false) by apply lt_irrefl.
  assert (Hlt : created_lt ts (Some ts) = false) by apply lt_irrefl.
  split; [exact Hgt|]. split; [exact Hlt|].
  split; [unfold A; rewrite classify_duplicates; exact Hgt|].
  split; [unfold B; rewrite classify_duplicated_by; exact Hlt|].
  split.
  - apply pass_realized with (other := kB); try done.
    rewrite classify_duplicates, Hgt. done.
  - apply pass_realized with (other := kA); try done.
    rewrite classify_duplicated_by, Hlt. done.
Qed.

Lemma two_passes_eq (first second : issue) (st : state T) :
  (handleRelationships api first st).1 = Ok () →
  (handleRelationships api second (handleRelationships api first st).2).1 = Ok () →
  two_passes api first second st
  = (handleRelationships api second (handleRelationships api first st).2).2.
Proof.
  unfold two_passes. simpl. unfold_m.
  destruct (handleRelationships api first st) as [[[]|?] st1]; simpl; [|done].
  intros _.
  destruct (handleRelationships api second st1) as [[[]|?] st2]; simpl; done.
Qed.

Lemma handleRelationships_single_ok (k c : string) (link : issue_link)
    (fromId : ident) st :
  truthy_lookup (issueToWorkPackageMap st) k = Some fromId →
  (handle_link api (issue_with_link k c link) fromId link st).1 = Ok () →
  (handleRelationships api (issue_with_link k c link) st).1 = Ok ().
Proof.
  intros Hk Hok. rewrite (handleRelationships_single _ link fromId st); done.
Qed.

(** Two passes that are both realized. *)
Lemma two_passes_realized (k1 c1 : string) (link1 : issue_link) (o1 : string)
    (ty1 : relation_type) (k2 c2 : string) (link2 : issue_link) (o2 : string)
    (ty2 : relation_type) (id1 to1 id2 to2 : ident) st :
  classify_link (issue_with_link k1 c1 link1) link1 = (Some o1, Some ty1, false) →
  classify_link (issue_with_link k2 c2 link2) link2 = (Some o2, Some ty2, false) →
  truthy_lookup (issueToWorkPackageMap st) k1 = Some id1 →
  truthy_lookup (issueToWorkPackageMap st) o1 = Some to1 →
  truthy_lookup (issueToWorkPackageMap st) k2 = Some id2 →
  truthy_lookup (issueToWorkPackageMap st) o2 = Some to2 →
  create_calls
    (log (two_passes api (issue_with_link k1 c1 link1) (issue_with_link k2 c2 link2) st))
  = create_calls (log st) ++ [(id1, to1, ty1); (id2, to2, ty2)].
Proof.
  intros C1 C2 H1 Ho1 H2 Ho2.
  destruct (pass_realized k1 c1 link1 o1 ty1 id1 to1 st C1 H1 Ho1) as [L1 M1].
  assert (O1 : (handleRelationships api (issue_with_link k1 c1 link1) st).1 = Ok ()).
  { apply handleRelationships_single_ok with (fromId := id1); [done|].
    by destruct (handle_link_resolved (issue_with_link k1 c1 link1) id1 to1
                   link1 o1 ty1 st C1 Ho1) as [? _]. }
  set (st1 := (handleRelationships api (issue_with_link k1 c1 link1) st).2) in *.
  assert (H2' : truthy_lookup (issueToWorkPackageMap st1) k2 = Some id2)
    by (by rewrite M1).
  assert (Ho2' : truthy_lookup (issueToWorkPackageMap st1) o2 = Some to2)
    by (by rewrite M1).
  destruct (pass_realized k2 c2 link2 o2 ty2 id2 to2 st1 C2 H2' Ho2') as [L2 M2].
  assert (O2 : (handleRelationships api (issue_with_link k2 c2 link2) st1).1 = Ok ()).
  { apply handleRelationships_single_ok with (fromId := id2); [done|].
    by destruct (handle_link_resolved (issue_with_link k2 c2 link2) id2 to2
                   link2 o2 ty2 st1 C2 Ho2') as [? _]. }
  rewrite two_passes_eq by done. fold st1. rewrite L2, L1, <- app_assoc. done.
Qed.

(** The number of edge-creation attempts for a duplicates pair, whatever
    the target answers: the two mirror tests are the same comparison, so the
    passes are suppressed together or realized together. *)
Lemma duplicate_pair_calls (kA kB cA cB : string) (idA idB : ident) st :
  truthy_lookup (issueToWorkPackageMap st) kA = Some idA →
  truthy_lookup (issueToWorkPackageMap st) kB = Some idB →
  let A := issue_with_link kA cA (duplicates_link kB (Some cB)) in
  let B := issue_with_link kB cB (duplicated_by_link kA (Some cA)) in
  create_calls (log (two_passes api A B st))
  = create_calls (log st)
    ++ (if Str.lt cB cA then []
        else [(idA, idB, Duplicates); (idB, idA, Duplicated)])
  ∧ create_calls (log (two_passes api B A st))
  = create_calls (log st)
    ++ (if Str.lt cB cA then []
        else [(idB, idA, Duplicated); (idA, idB, Duplicates)]).
Proof.
  intros HA HB A B.
  pose proof (classify_duplicates kA cA kB (Some cB)) as CA.
  pose proof (classify_duplicated_by kB cB kA (Some cA)) as CB.
  simpl in CA, CB. fold A in CA. fold B in CB.
  destruct (Str.lt cB cA) eqn:E.
  - (* both occurrences are suppressed *)
    assert (SA : ∀ s, truthy_lookup (issueToWorkPackageMap s) kA = Some idA →
              (handleRelationships api A s).1 = Ok ()
              ∧ log (handleRelationships api A s).2 = log s ++ [DuplicateSkipped kA]
              ∧ issueToWorkPackageMap (handleRelationships api A s).2
                = issueToWorkPackageMap s).
    { intros s Hs.
      destruct (pass_suppressed kA cA (duplicates_link kB (Some cB)) idA s)
        as [H1 H2]; [by fold A; rewrite CA|done|].
      split; [|done]. apply handleRelationships_single_ok with (fromId := idA);
        [done|]. rewrite handle_link_skipped; [done|by fold A; rewrite CA]. }
    assert (SB : ∀ s, truthy_lookup (issueToWorkPackageMap s) kB = Some idB →
              (handleRelationships api B s).1 = Ok ()
              ∧ log (handleRelationships api B s).2 = log s ++ [DuplicateSkipped kB]
              ∧ issueToWorkPackageMap (handleRelationships api B s).2
                = issueToWorkPackageMap s).
    { intros s Hs.
      destruct (pass_suppressed kB cB (duplicated_by_link kA (Some cA)) idB s)
        as [H1 H2]; [by fold B; rewrite CB|done|].
      split; [|done]. apply handleRelationships_single_ok with (fromId := idB);
        [done|]. rewrite handle_link_skipped; [done|by fold B; rewrite CB]. }
    split.
    + destruct (SA st HA) as (O1 & L1 & M1).
      destruct (SB (handleRelationships api A st).2) as (O2 & L2 & M2);
        [by rewrite M1|].
      rewrite two_passes_eq by done. rewrite L2, L1.
      rewrite !create_calls_app. simpl. by rewrite !app_nil_r.
    + destruct (SB st HB) as (O1 & L1 & M1).
      destruct (SA (handleRelationships api B st).2) as (O2 & L2 & M2);
        [by rewrite M1|].
      rewrite two_passes_eq by done. rewrite L2, L1.
      rewrite !create_calls_app. simpl. by rewrite !app_nil_r.
  - (* both occurrences are realized *)
    assert (RA : ∀ s, truthy_lookup (issueToWorkPackageMap s) kA = Some idA →
              truthy_lookup (issueToWorkPackageMap s) kB = Some idB →
              (handleRelationships api A s).1 = Ok ()
              ∧ create_calls (log (handleRelationships api A s).2)
                = create_calls (log s) ++ [(idA, idB, Duplicates)]
              ∧ issueToWorkPackageMap (handleRelationships api A s).2
                = issueToWorkPackageMap s).
    { intros s Hs1 Hs2.
      destruct (pass_realized kA cA (duplicates_link kB (Some cB)) kB Duplicates
                  idA idB s) as [H1 H2]; [done..|].
      split; [|done]. apply handleRelationships_single_ok with (fromId := idA);
        [done|].
      by destruct (handle_link_resolved A idA idB (duplicates_link kB (Some cB))
                     kB Duplicates s CA Hs2) as [? _]. }
    assert (RB : ∀ s, truthy_lookup (issueToWorkPackageMap s) kA = Some idA →
              truthy_lookup (issueToWorkPackageMap s) kB = Some idB →
              (handleRelationships api B s).1 = Ok ()
              ∧ create_calls (log (handleRelationships api B s).2)
                = create_calls (log s) ++ [(idB, idA, Duplicated)]
              ∧ issueToWorkPackageMap (handleRelationships api B s).2
                = issueToWorkPackageMap s).
    { intros s Hs1 Hs2.
      destruct (pass_realized kB cB (duplicated_by_link kA (Some cA)) kA Duplicated
                  idB idA s) as [H1 H2]; [done..|].
      split; [|done]. apply handleRelationships_single_ok with (fromId := idB);
        [done|].
      by destruct (handle_link_resolved B idB idA (duplicated_by_link kA (Some cA))
                     kA Duplicated s CB Hs1) as [? _]. }
    split.
    + destruct (RA st HA HB) as (O1 & L1 & M1).
      destruct (RB (handleRelationships api A st).2) as (O2 & L2 & M2);
        [by rewrite M1..|].
      rewrite two_passes_eq by done. rewrite L2, L1, <- app_assoc. done.
    + destruct (RB st HA HB) as (O1 & L1 & M1).
      destruct (RA (handleRelationships api B st).2) as (O2 & L2 & M2);
        [by rewrite M1..|].
      rewrite two_passes_eq by done. rewrite L2, L1, <- app_assoc. done.
Qed.

(** C1 (the code departs from the claim). Evaluated on a duplicates pair
    with both keys resolved, whatever the target answers:
    - when the later-created issue P-2 declares that it duplicates the
      earlier P-1, both occurrences are suppressed and no edge is created
      in either pass (no call, no POST);
    - when the earlier-created issue declares the link, both passes attempt
      the creation;
    - when the links carry no creation timestamp of the other issue, both
      passes attempt the creation as well.
    In no case is there exactly one attempt. *)
Theorem duplicate_pair_zero_or_two_attempts (t : T) :
  (let A := issue_with_link "P-2" "2024-02-01"
              (duplicates_link "P-1" (Some "2024-01-01")) in
   let B := issue_with_link "P-1" "2024-01-01"
              (duplicated_by_link "P-2" (Some "2024-02-01")) in
   log (two_passes api B A (seeded_pair t))
   = [DuplicateSkipped "P-1"; DuplicateSkipped "P-2"]
   ∧ create_calls (log (two_passes api B A (seeded_pair t))) = []
   ∧ posts (log (two_passes api B A (seeded_pair t))) = [])
  ∧
  (let A := issue_with_link "P-1" "2024-01-01"
              (duplicates_link "P-2" (Some "2024-02-01")) in
   let B := issue_with_link "P-2" "2024-02-01"
              (duplicated_by_link "P-1" (Some "2024-01-01")) in
   create_calls (log (two_passes api A B (seeded_pair t)))
   = [(IdNum 101, IdNum 102, Duplicates); (IdNum 102, IdNum 101, Duplicated)])
  ∧
  (let A := issue_with_link "P-2" "2024-02-01" (duplicates_link "P-1" None) in
   let B := issue_with_link "P-1" "2024-01-01" (duplicated_by_link "P-2" None) in
   create_calls (log (two_passes api B A (seeded_pair t)))
   = [(IdNum 101, IdNum 102, Duplicated); (IdNum 102, IdNum 101, Duplicates)]).
Proof.
  split_and!.
  - by vm_compute.
  - apply (duplicate_pair_calls "P-1" "P-2" "2024-01-01" "2024-02-01"
             (IdNum 101) (IdNum 102) (seeded_pair t)); reflexivity.
  - apply (two_passes_realized
             "P-1" "2024-01-01" (duplicated_by_link "P-2" None) "P-2" Duplicated
             "P-2" "2024-02-01" (duplicates_link "P-1" None) "P-1" Duplicates
             (IdNum 101) (IdNum 102) (IdNum 102) (IdNum 101) (seeded_pair t));
      reflexivity.
Qed.

(** *** The deferred set *)

Lemma set_add_NoDup (d : deferred) (s : list deferred) :
  NoDup s → NoDup (set_add d s).
Proof.
  intros H. unfold set_add. case_decide; [done|].
  apply NoDup_app. split_and!; [done| |apply NoDup_singleton].
  intros x Hx Hx'. apply list_elem_of_singleton in Hx'. by subst.
Qed.

Lemma createRelationship_preserves (P : list deferred → Prop)
    (fromId toId : ident) (type : relation_type) :
  preserves (λ st : state T, P (missingRelationships st))
    (createRelationship api fromId toId type).
Proof.
  intros st H.
  destruct (createRelationship_run fromId toId type st) as (l & _ & _ & _ & _ & Hm).
  by rewrite Hm.
Qed.

Lemma emit_preserves (P : list deferred → Prop) (e : event) :
  preserves (λ st : state T, P (missingRelationships st)) (emit e).
Proof. by intros st H. Qed.

Lemma lookup_id_preserves (P : state T → Prop) (k : string) :
  preserves P (lookup_id k).
Proof. by intros st H. Qed.

Lemma missing_add_NoDup (d : deferred) : preserves (NoDup_missing (T:=T)) (missing_add d).
Proof. intros st H. by apply set_add_NoDup. Qed.

Lemma handle_link_NoDup (i : issue) (fromId : ident) (link : issue_link) :
  preserves (NoDup_missing (T:=T)) (handle_link api i fromId link).
Proof.
  unfold handle_link.
  destruct (classify_link i link) as [[[k|] [ty|]] [|]];
    try apply (emit_preserves NoDup);
    try (apply preserves_bind;
         [apply (emit_preserves NoDup)|intros; apply missing_add_NoDup]).
  apply preserves_bind; [apply lookup_id_preserves|]. intros [toId|].
  - apply preserves_try_catch; [apply (createRelationship_preserves NoDup)|].
    intros e. apply preserves_bind;
      [apply (emit_preserves NoDup)|intros; apply missing_add_NoDup].
  - apply preserves_bind;
      [apply (emit_preserves NoDup)|intros; apply missing_add_NoDup].
Qed.

Lemma handleRelationships_NoDup (i : issue) :
  preserves (NoDup_missing (T:=T)) (handleRelationships api i).
Proof.
  unfold handleRelationships. case_match; [apply preserves_ret|].
  apply preserves_bind; [apply lookup_id_preserves|]. intros [fromId|];
    [|apply preserves_ret].
  apply preserves_bind.
  - unfold handle_epic. case_match; [|apply preserves_ret].
    apply preserves_bind; [apply lookup_id_preserves|]. intros [epicId|].
    + apply (createRelationship_preserves NoDup).
    + apply preserves_bind;
        [apply (emit_preserves NoDup)|intros; apply missing_add_NoDup].
  - intros _. destruct (issuelinks i) as [links|]; [|apply preserves_ret].
    apply preserves_for_each. intros. apply handle_link_NoDup.
Qed.

(** *** The retry sweep *)

Lemma still_missing_app (l1 l2 : list event) :
  still_missing (l1 ++ l2) = still_missing l1 ++ still_missing l2.
Proof. apply omap_app. Qed.

Lemma createRelationship_reports_nothing (fromId toId : ident)
    (type : relation_type) st :
  ∃ l, log (createRelationship api fromId toId type st).2 = log st ++ l
       ∧ still_missing l = [].
Proof.
  unfold createRelationship, post_new_relationship,
    checkExistingRelationship, checkParentRelationship.
  unfold_m.
  repeat (case_match; simpl in *; simplify_eq);
    rewrite <- ?app_assoc; simpl; eexists; (split; [reflexivity|]); auto.
Qed.

Lemma retry_one_run (rel : deferred) st :
  (retry_one api rel st).1 = Ok ()
  ∧ missingRelationships (retry_one api rel st).2 = missingRelationships st
  ∧ issueToWorkPackageMap (retry_one api rel st).2 = issueToWorkPackageMap st
  ∧ ∃ l, log (retry_one api rel st).2 = log st ++ l
       ∧ create_calls l = option_list (resolve (issueToWorkPackageMap st) rel)
       ∧ still_missing l
         = match resolve (issueToWorkPackageMap st) rel with
           | Some _ => []
           | None => [rel]
           end.
Proof.
  destruct rel as [f t ty|f]; simpl.
  - unfold_m.
    destruct (truthy_lookup (issueToWorkPackageMap st) f) as [a|]; simpl;
      [destruct (truthy_lookup (issueToWorkPackageMap st) t) as [b|]; simpl|].
    + destruct (createRelationship_run a b ty st) as (l & Hl & Hcc & _ & Hm & Hmiss).
      destruct (createRelationship_reports_nothing a b ty st) as (l' & Hl' & Hsm).
      rewrite Hl in Hl'. apply app_inv_head in Hl'. subst l'. simpl in Hsm.
      destruct (createRelationship api a b ty st) as [[[]|e] st']; simpl in *.
      * split_and!; try done.
        exists (CreateRelationshipCalled a b ty :: l ++ [RetryDone (Triple f t ty)]).
        rewrite Hl, <- app_assoc. simpl.
        rewrite create_calls_app, still_missing_app, Hcc, Hsm. done.
      * split_and!; try done.
        exists (CreateRelationshipCalled a b ty :: l
                  ++ [ErrorLogged "Failed to create relationship"]).
        rewrite Hl, <- app_assoc. simpl.
        rewrite create_calls_app, still_missing_app, Hcc, Hsm. done.
    + split_and!; try done. by eexists.
    + split_and!; try done. by eexists.
  - unfold_m. split_and!; try done. by eexists.
Qed.

Lemma sweep_run (rels : list deferred) st :
  (for_each (retry_one api) rels st).1 = Ok ()
  ∧ missingRelationships (for_each (retry_one api) rels st).2
    = missingRelationships st
  ∧ issueToWorkPackageMap (for_each (retry_one api) rels st).2
    = issueToWorkPackageMap st
  ∧ ∃ l, log (for_each (retry_one api) rels st).2 = log st ++ l
       ∧ create_calls l = omap (resolve (issueToWorkPackageMap st)) rels
       ∧ still_missing l
         = filter (λ rel, resolve (issueToWorkPackageMap st) rel = None) rels.
Proof.
  revert st. induction rels as [|rel rels IH]; intros st; simpl.
  - split_and!; try done. exists []. by rewrite app_nil_r.
  - destruct (retry_one_run rel st) as (Hok & Hmiss & Hmap & l1 & Hl1 & Hc1 & Hs1).
    unfold_m.
    destruct (retry_one api rel st) as [[[]|e] st1]; simpl in *; [|done].
    destruct (IH st1) as (Hok2 & Hmiss2 & Hmap2 & l2 & Hl2 & Hc2 & Hs2).
    split_and!; [done|congruence|congruence|].
    exists (l1 ++ l2). rewrite Hl2, Hl1, <- app_assoc.
    rewrite create_calls_app, still_missing_app, Hc1, Hs1, Hc2, Hs2, Hmap.
    split; [done|]. rewrite filter_cons.
    destruct (resolve (issueToWorkPackageMap st) rel) as [c|]; simpl; done.
Qed.

Lemma retry_run st :
  (retryMissingRelationships api st).1 = Ok ()
  ∧ missingRelationships (retryMissingRelationships api st).2 = []
  ∧ issueToWorkPackageMap (retryMissingRelationships api st).2
    = issueToWorkPackageMap st
  ∧ ∃ l, log (retryMissingRelationships api st).2 = log st ++ l
       ∧ create_calls l
         = omap (resolve (issueToWorkPackageMap st)) (missingRelationships st)
       ∧ still_missing l
         = filter (λ rel, resolve (issueToWorkPackageMap st) rel = None)
             (missingRelationships st).
Proof.
  unfold retryMissingRelationships.
  destruct (length (missingRelationships st) =? 0)%nat eqn:E.
  - apply Nat.eqb_eq, length_zero_iff_nil in E. rewrite E.
    split_and!; try done. exists []. by rewrite app_nil_r.
  - unfold mbind, M_bind, emit, missing_take.
    cbn [fst snd target_state issueToWorkPackageMap missingRelationships log].
    match goal with |- context [for_each _ _ ?s] => set (st0 := s) end.
    pose proof (sweep_run (missingRelationships st) st0)
      as (Hok & Hmiss & Hmap & l & Hl & Hc & Hs).
    destruct (for_each (retry_one api) (missingRelationships st) st0)
      as [[[]|e] st1]; simpl in *; [|done].
    split_and!; try done.
    exists (RetryStarted (length (missingRelationships st)) :: l).
    rewrite Hl. unfold st0. simpl. rewrite <- app_assoc. done.
Qed.

Lemma omap_length_le {A B} (f : A → option B) (l : list A) :
  (length (omap f l) ≤ length l)%nat.
Proof.
  unfold omap. induction l as [|x l IH]; simpl; [done|].
  destruct (f x); simpl in *; lia.
Qed.

(** C7. After the main pass the deferred set is swept once:
    [createRelationships] is the main pass followed by one call of
    [retryMissingRelationships] and nothing else.  The sweep never throws;
    for each deferred element it looks both endpoints up in the identity
    map as it stands now and calls [createRelationship] once when both
    resolve, and otherwise only reports the element as still missing; the
    set is empty afterwards, so nothing is retried again. *)
Theorem single_retry_sweep (issues : list issue)
    (entries : list (string * ident)) (st : state T) :
  (retryMissingRelationships api st).1 = Ok ()
  ∧ create_calls (log (retryMissingRelationships api st).2)
    = create_calls (log st)
      ++ omap (resolve (issueToWorkPackageMap st)) (missingRelationships st)
  ∧ (length (create_calls (log (retryMissingRelationships api st).2))
     ≤ length (create_calls (log st)) + length (missingRelationships st))%nat
  ∧ still_missing (log (retryMissingRelationships api st).2)
    = still_missing (log st)
      ++ filter (λ rel, resolve (issueToWorkPackageMap st) rel = None)
           (missingRelationships st)
  ∧ missingRelationships (retryMissingRelationships api st).2 = []
  ∧ (let main := (_ ← seed entries; for_each (handleRelationships api) issues) in
     (main st).1 = Ok () →
     createRelationships api issues entries st
     = retryMissingRelationships api (main st).2).
Proof.
  destruct (retry_run st) as (Hok & Hmiss & Hmap & l & Hl & Hc & Hs).
  split_and!; try done.
  - by rewrite Hl, create_calls_app, Hc.
  - rewrite Hl, create_calls_app, Hc, length_app.
    pose proof (omap_length_le (resolve (issueToWorkPackageMap st))
                  (missingRelationships st)). lia.
  - by rewrite Hl, still_missing_app, Hs.
  - intros main Hmain. unfold createRelationships, try_catch.
    rewrite <- (bind_assoc (seed entries)
                  (λ _, for_each (handleRelationships api) issues)
                  (λ _, retryMissingRelationships api) st).
    fold main. rewrite (run_bind main).
    destruct (main st) as [[[]|e] st1]; simpl in *; [|done].
    destruct (retry_run st1) as (Hok1 & _).
    destruct (retryMissingRelationships api st1) as [[[]|e] st2]; done.
Qed.

Lemma set_add_idemp (d : deferred) (s : list deferred) :
  set_add d (set_add d s) = set_add d s.
Proof.
  unfold set_add. destruct (decide (d ∈ s)) as [H|H].
  - by rewrite decide_True.
  - rewrite decide_True; [done|].
    set_solver.
Qed.

(** C6. The deferred set holds each element at most once: adding is
    idempotent and the main pass keeps the set free of duplicates.  Once the
    sweep has taken its copy the set is empty and stays so: retrying an
    element never changes the set, also when the creation fails, so after
    any number of retried elements, and at the end of the sweep, it is
    empty. *)
Theorem deferred_set_deduplicated_then_drained (issues : list issue)
    (st : state T) :
  NoDup (missingRelationships st) →
  (∀ d, set_add d (set_add d (missingRelationships st))
        = set_add d (missingRelationships st))
  ∧ NoDup (missingRelationships (for_each (handleRelationships api) issues st).2)
  ∧ (∀ rel s, missingRelationships (retry_one api rel s).2 = missingRelationships s)
  ∧ (∀ n, missingRelationships
            ((rels ← missing_take; for_each (retry_one api) (take n rels)) st).2
          = [])
  ∧ missingRelationships (retryMissingRelationships api st).2 = [].
Proof.
  intros Hnd. split_and!.
  - intros d. apply set_add_idemp.
  - apply (preserves_for_each (NoDup_missing (T:=T))); [|done].
    intros i. apply handleRelationships_NoDup.
  - intros rel s. by destruct (retry_one_run rel s) as (_ & H & _).
  - intros n. unfold_m.
    match goal with |- context [for_each _ _ ?s] => set (st0 := s) end.
    destruct (sweep_run (take n (missingRelationships st)) st0) as (_ & H & _).
    destruct (for_each (retry_one api) (take n (missingRelationships st)) st0)
      as [[[]|e] st1]; simpl in *; by rewrite H.
  - by destruct (retry_run st) as (_ & H & _).
Qed.

(** *** Direction of hierarchical relations *)







(** *** Expected refusals of the target *)

Lemma lower_messages_all (messages : list string) :
  lower_messages (Some <$> messages) = Ok (Str.toLowerCase <$> messages).
Proof.
  induction messages as [|m ms IH]; [done|].
  rewrite !fmap_cons. cbn [lower_messages]. by rewrite IH.
Qed.

Lemma already_exists_intro (messages : list string) (m : string) :
  m ∈ messages →
  Str.includes "already been taken" (Str.toLowerCase m) = true
  ∨ Str.includes "would create a circular" (Str.toLowerCase m) = true →
  already_exists (Str.toLowerCase <$> messages) = true.
Proof.
  intros Hm Hinc. unfold already_exists. apply orb_true_iff.
  assert (Hin : In (Str.toLowerCase m) (Str.toLowerCase <$> messages)).
  { apply list_elem_of_In, list_elem_of_fmap. eauto. }
  destruct Hinc as [H|H]; [left|right]; apply existsb_exists; eauto.
Qed.

(** The existence check touches neither the target nor the module
    variables, never throws, and logs no creation error. *)
Lemma checkExistingRelationship_run (fromId toId : ident)
    (type : relation_type) (st : state T) :
  ∃ (b : bool) (l : list event),
    checkExistingRelationship api fromId toId type st
    = (Ok b, {| target_state := target_state st;
                issueToWorkPackageMap := issueToWorkPackageMap st;
                missingRelationships := missingRelationships st;
                log := log st ++ l |})
    ∧ ("Error creating relationship" ∉ errors_logged l).
Proof.
  unfold checkExistingRelationship, checkParentRelationship.
  unfold mbind, M_bind, mret, M_ret, throw, emit, api_get_parent,
    api_count_relations.
  repeat (case_match; cbn -[app] in *; simplify_eq);
    rewrite <- ?app_assoc; cbn [app];
    eexists _, _; (split; [reflexivity|]); cbn;
    intros Hin; repeat (apply elem_of_cons in Hin as [Hin|Hin]; [done|]);
    by apply elem_of_nil in Hin.
Qed.

Lemma errors_logged_app (l1 l2 : list event) :
  errors_logged (l1 ++ l2) = errors_logged l1 ++ errors_logged l2.
Proof. apply omap_app. Qed.

Lemma createRelationship_normalizes (fromId toId : ident)
    (type : relation_type) (st : state T) (t' : T)
    (messages : list string) (m : string) :
  post_relation api (target_state st) fromId toId type
  = (t', PostFailed (Some (Some <$> messages))) →
  m ∈ messages →
  Str.includes "already been taken" (Str.toLowerCase m) = true
  ∨ Str.includes "would create a circular" (Str.toLowerCase m) = true →
  (createRelationship api fromId toId type st).1 = Ok ()
  ∧ ∃ l, log (createRelationship api fromId toId type st).2 = log st ++ l
       ∧ ("Error creating relationship" ∉ errors_logged l)
       ∧ (last l = Some (RelationFound fromId toId type)
          ∨ last l = Some (RelationNormalized fromId toId type)).
Proof.
  intros Hpost Hm Hinc.
  pose proof (already_exists_intro messages m Hm Hinc) as Hex.
  unfold createRelationship. rewrite run_bind. cbn -[app]. rewrite !run_bind.
  match goal with |- context [checkExistingRelationship _ _ _ _ ?s] =>
    destruct (checkExistingRelationship_run fromId toId type s)
      as (b & l & -> & Hl) end.
  cbn -[app] in *. destruct b.
  - split; [done|]. cbn -[app]. rewrite <- !app_assoc. eexists.
    split; [reflexivity|]. split.
    + cbn. rewrite errors_logged_app. cbn. rewrite app_nil_r. done.
    + left. cbn [app]. by rewrite last_cons, last_snoc.
  - unfold post_new_relationship, api_post_relation, emit.
    rewrite !run_bind. cbn -[app]. rewrite Hpost. cbn -[app].
    unfold error_messages. rewrite lower_messages_all, Hex. cbn -[app].
    split; [done|]. rewrite <- !app_assoc. eexists.
    split; [reflexivity|]. split.
    + cbn. rewrite errors_logged_app. cbn. rewrite app_nil_r. done.
    + right. cbn [app]. rewrite last_cons, last_app. done.
Qed.

End RelationshipFacts.

(** ** Entity synchronizer *)

Section SubstitutionFacts.

Import Converter Synchronizer.

Lemma substitute_absent (table : list (string * attachment_id)) (text : string) :
  (∀ e, e ∈ table → Str.includes (placeholder e.1) text = false) →
  substitute table text = text.
Proof.
  unfold substitute. induction table as [|e table IH]; intros H; simpl; [done|].
  rewrite replace_absent by (apply H; left). apply IH.
  intros e' He'. apply H. by right.
Qed.

(** C4 (the code departs from the claim).  [String.prototype.replace] with
    a string pattern rewrites the first occurrence only: in a description
    that references diagram.png twice, the second placeholder is still
    there after the substitution with the uploaded attachment 42.  What
    does hold: a table none of whose file names occurs as a placeholder
    leaves the text unchanged, and a placeholder that matches is replaced,
    at one occurrence, by the image markup of its attachment. *)
Theorem substitution_replaces_first_occurrence_only :
  convertAtlassianDocumentToHtml twice_referenced
  = Ok ("<p>" +:+ placeholder "diagram.png" +:+ "</p><p>"
          +:+ placeholder "diagram.png" +:+ "</p>")
  ∧ substitute [("diagram.png", AttachmentId 42)]
      ("<p>" +:+ placeholder "diagram.png" +:+ "</p><p>"
         +:+ placeholder "diagram.png" +:+ "</p>")
    = "<p>" +:+ imageTag (AttachmentId 42) +:+ "</p><p>"
        +:+ placeholder "diagram.png" +:+ "</p>"
  ∧ (∀ table text,
       (∀ e, e ∈ table → Str.includes (placeholder e.1) text = false) →
       substitute table text = text)
  ∧ (∀ file id text,
       Str.includes (placeholder file) text = true →
       ∃ pre post, text = pre +:+ placeholder file +:+ post
                   ∧ substitute [(file, id)] text = pre +:+ imageTag id +:+ post).
Proof.
  split_and!.
  - by vm_compute.
  - by vm_compute.
  - apply substitute_absent.
  - intros file id text H. unfold substitute. simpl.
    by apply replace_present.
Qed.

(** *** Whether a substitution changes the text does not depend on the ids

    Every replacement removes a placeholder, which holds an opening brace,
    and inserts an image tag, which holds none. *)

Lemma braces_app (s1 s2 : string) : braces (s1 +:+ s2) = (braces s1 + braces s2)%nat.
Proof. apply count_char_app. Qed.

Lemma braces_pretty_N_go (x : N) (s : string) :
  braces (pretty_N_go x s) = braces s.
Proof.
  revert s. induction (N.lt_wf_0 x) as [x _ IH]; intros s.
  assert (x = 0 ∨ 0 < x)%N as [->|Hx] by lia.
  - by rewrite pretty_N_go_0.
  - rewrite pretty_N_go_step by done. rewrite IH by (by apply N.div_lt).
    unfold braces, pretty_N_char. cbn [Str.count_char].
    by repeat case_match.
Qed.

Lemma braces_pretty_Z (n : Z) : braces (pretty n) = 0%nat.
Proof.
  assert (HN : ∀ p : positive, braces (pretty p) = 0%nat).
  { intros p. unfold pretty, pretty_positive, pretty, pretty_N.
    case_decide; [done|]. by rewrite braces_pretty_N_go. }
  destruct n as [|p|p]; unfold pretty, pretty_Z; [done|apply HN|].
  rewrite braces_app, HN. done.
Qed.

Lemma braces_imageTag (id : attachment_id) : braces (imageTag id) = 0%nat.
Proof.
  unfold imageTag. rewrite !braces_app.
  assert (braces (attachment_id_text id) = 0%nat) as ->.
  { destruct id; [apply braces_pretty_Z|done]. }
  reflexivity.
Qed.

Lemma braces_placeholder (file : string) : (0 < braces (placeholder file))%nat.
Proof. unfold placeholder. rewrite !braces_app. cbn. lia. Qed.

Lemma braces_replace (file : string) (id : attachment_id) (text : string) :
  (braces (Str.replace (placeholder file) (imageTag id) text) ≤ braces text)%nat
  ∧ (Str.includes (placeholder file) text = true →
     (braces (Str.replace (placeholder file) (imageTag id) text) < braces text)%nat).
Proof.
  destruct (Str.includes (placeholder file) text) eqn:E.
  - destruct (replace_present _ (imageTag id) _ E) as (pre & post & -> & ->).
    rewrite !braces_app, braces_imageTag.
    pose proof (braces_placeholder file). split; [|intros _]; lia.
  - rewrite replace_absent by done. split; [lia|done].
Qed.

Lemma braces_substitute (table : list (string * attachment_id)) (text : string) :
  (braces (substitute table text) ≤ braces text)%nat
  ∧ (fires table text = true →
     (braces (substitute table text) < braces text)%nat).
Proof.
  unfold substitute. revert text.
  induction table as [|[file id] table IH]; intros text; cbn [fold_left fires existsb].
  - split; [lia|done].
  - cbn [fst snd].
    destruct (braces_replace file id text) as [Hle Hlt].
    destruct (IH (Str.replace (placeholder file) (imageTag id) text)) as [IHle IHlt].
    split; [lia|]. intros [H|H]%orb_true_iff.
    + specialize (Hlt H). lia.
    + destruct (Str.includes (placeholder file) text) eqn:E.
      * specialize (Hlt eq_refl). lia.
      * rewrite replace_absent in * by done. by apply IHlt.
Qed.

Lemma substitute_unchanged (table : list (string * attachment_id)) (text : string) :
  String.eqb (substitute table text) text = negb (fires table text).
Proof.
  destruct (fires table text) eqn:E; cbn.
  - apply String.eqb_neq. intros Heq.
    destruct (braces_substitute table text) as [_ Hlt].
    specialize (Hlt E). rewrite Heq in Hlt. lia.
  - apply String.eqb_eq. apply substitute_absent. intros e He.
    unfold fires in E.
    destruct (Str.includes (placeholder e.1) text) eqn:E'; [|done].
    assert (existsb (λ e, Str.includes (placeholder e.1) text) table = true);
      [|congruence].
    apply existsb_exists. exists e. split; [by apply list_elem_of_In|done].
Qed.

Lemma fires_keys (t1 t2 : list (string * attachment_id)) (text : string) :
  t1.*1 = t2.*1 → fires t1 text = fires t2 text.
Proof.
  revert t2. induction t1 as [|[k1 v1] t1 IH]; intros [|[k2 v2] t2] H;
    try done. cbn in H. injection H as -> H. cbn. f_equal. by apply IH.
Qed.

Lemma table_set_keys (k : string) (v1 v2 : attachment_id)
    (t1 t2 : list (string * attachment_id)) :
  t1.*1 = t2.*1 → (table_set k v1 t1).*1 = (table_set k v2 t2).*1.
Proof.
  revert t2. induction t1 as [|[k1 a1] t1 IH]; intros [|[k2 a2] t2] H;
    try done. cbn in H. injection H as -> H. cbn.
  destruct (String.eqb k2 k); cbn; f_equal; [done|by apply IH].
Qed.

End SubstitutionFacts.

Section SynchronizerFacts.

Import Synchronizer.

Context (w : collaborators).

(** *** Writes to the identity map *)

Lemma emit_keeps_map (P : gmap string ident → Prop) (e : event) :
  preserves (λ st, P (issueToWorkPackageMap st)) (emit e).
Proof. by intros st H. Qed.

Lemma count_processed_keeps_map (P : gmap string ident → Prop) :
  preserves (λ st, P (issueToWorkPackageMap st)) count_processed.
Proof. by intros st H. Qed.

Lemma count_skipped_keeps_map (P : gmap string ident → Prop) :
  preserves (λ st, P (issueToWorkPackageMap st)) count_skipped.
Proof. by intros st H. Qed.

Lemma count_error_keeps_map (P : gmap string ident → Prop) :
  preserves (λ st, P (issueToWorkPackageMap st)) count_error.
Proof. by intros st H. Qed.

Lemma count_unknown_status_keeps_map (P : gmap string ident → Prop) :
  preserves (λ st, P (issueToWorkPackageMap st)) count_unknown_status.
Proof. by intros st H. Qed.

Lemma map_set_keeps (P : gmap string ident → Prop) (k : string) (id : ident) :
  (∀ m, P m → P (<[k := id]> m)) →
  preserves (λ st, P (issueToWorkPackageMap st)) (map_set k id).
Proof. intros HP st H. by apply HP. Qed.

Ltac keeps_map :=
  repeat first
    [ apply preserves_ret | apply preserves_throw | apply preserves_lift
    | apply emit_keeps_map | apply count_processed_keeps_map
    | apply count_skipped_keeps_map | apply count_error_keeps_map
    | apply count_unknown_status_keeps_map
    | apply preserves_bind | apply preserves_for_each
    | apply preserves_fold_m | apply preserves_try_catch
    | progress intros
    | match goal with
      | |- preserves _ (if ?b then _ else _) => destruct b
      | |- preserves _ (match ?x with _ => _ end) => destruct x
      end ].

(** Processing an issue writes the identity map at the key of that issue
    and nowhere else. *)
Lemma process_issue_keeps (P : gmap string ident → Prop) (openProjectId : Z)
    (isProd skipUpdates mapResponsible : bool) (i : issue) :
  (∀ m id, P m → P (<[key i := id]> m)) →
  preserves (λ st, P (issueToWorkPackageMap st))
    (try_catch (process_issue w openProjectId isProd skipUpdates mapResponsible i)
       (λ _, _ ← emit (ProcessingFailed (key i)); count_error)).
Proof.
  intros HP.
  unfold process_issue, write_work_package, process_attachments,
    process_attachment, finalize_description, process_comments,
    process_comment, add_watchers, impersonated.
  keeps_map; try (apply map_set_keeps; intros; by apply HP).
Qed.

Lemma preserves_for_each_in {S A} (P : S → Prop) (f : A → M S unit) (l : list A) :
  (∀ x, x ∈ l → preserves P (f x)) → preserves P (for_each f l).
Proof.
  induction l as [|x l IH]; intros Hf; simpl.
  - apply preserves_ret.
  - apply preserves_bind; [apply Hf; left|intros _; apply IH].
    intros y Hy. apply Hf. by right.
Qed.

(** The [catch] of the issue loop swallows every exception. *)
Lemma issue_step_ok (openProjectId : Z)
    (isProd skipUpdates mapResponsible : bool) (i : issue) (st : state) :
  (try_catch (process_issue w openProjectId isProd skipUpdates mapResponsible i)
     (λ _, _ ← emit (ProcessingFailed (key i)); count_error) st).1 = Ok ().
Proof.
  unfold try_catch.
  by destruct (process_issue w openProjectId isProd skipUpdates mapResponsible i st)
    as [[[]|e] st1].
Qed.

Lemma migrateIssues_ok (openProjectId : Z)
    (isProd skipUpdates mapResponsible : bool) (l : list issue) (st : state) :
  (migrateIssues w openProjectId isProd skipUpdates mapResponsible l st).1 = Ok ().
Proof.
  unfold migrateIssues. revert st. induction l as [|i l IH]; intros st; [done|].
  cbn [for_each]. rewrite run_bind.
  pose proof (issue_step_ok openProjectId isProd skipUpdates mapResponsible i st)
    as Hok.
  destruct (try_catch _ _ st) as [[[]|e] st1]; [apply IH|done].
Qed.

Lemma migrateIssues_app (openProjectId : Z)
    (isProd skipUpdates mapResponsible : bool) (pre post : list issue)
    (st : state) :
  (migrateIssues w openProjectId isProd skipUpdates mapResponsible (pre ++ post) st).2
  = (migrateIssues w openProjectId isProd skipUpdates mapResponsible post
       (migrateIssues w openProjectId isProd skipUpdates mapResponsible pre st).2).2.
Proof.
  revert st. induction pre as [|i pre IH]; intros st; [done|].
  unfold migrateIssues in *. cbn [for_each app]. rewrite !run_bind.
  pose proof (issue_step_ok openProjectId isProd skipUpdates mapResponsible i st)
    as Hok.
  destruct (try_catch _ _ st) as [[[]|e] st1]; [apply IH|done].
Qed.

Lemma migrateIssues_frame (openProjectId : Z)
    (isProd skipUpdates mapResponsible : bool) (l : list issue)
    (k : string) (st : state) :
  k ∉ key <$> l →
  issueToWorkPackageMap
    (migrateIssues w openProjectId isProd skipUpdates mapResponsible l st).2 !! k
  = issueToWorkPackageMap st !! k.
Proof.
  intros Hk.
  apply (preserves_for_each_in
           (λ s, issueToWorkPackageMap s !! k = issueToWorkPackageMap st !! k));
    [|done].
  intros i Hi.
  apply (process_issue_keeps (λ m, m !! k = issueToWorkPackageMap st !! k)).
  intros m id Hm. rewrite lookup_insert_ne; [done|].
  intros <-. apply Hk. by apply list_elem_of_fmap_2.
Qed.

Lemma migrateIssues_keys (openProjectId : Z)
    (isProd skipUpdates mapResponsible : bool) (l : list issue) (k : string) :
  is_Some (issueToWorkPackageMap
             (migrateIssues w openProjectId isProd skipUpdates mapResponsible
                l initial).2 !! k) →
  k ∈ key <$> l.
Proof.
  revert k.
  apply (preserves_for_each_in
           (λ s, ∀ k, is_Some (issueToWorkPackageMap s !! k) → k ∈ key <$> l)).
  - intros i Hi.
    apply (process_issue_keeps (λ m, ∀ k, is_Some (m !! k) → k ∈ key <$> l)).
    intros m id Hm k. destruct (decide (key i = k)) as [<-|Hne].
    + intros _. by apply list_elem_of_fmap_2.
    + rewrite lookup_insert_ne by done. apply Hm.
  - intros k [v Hv]. cbn in Hv. by rewrite lookup_empty in Hv.
Qed.

(** *** Dry-run against live mode *)

Lemma same_attempts_refl (s : state) : same_attempts s s.
Proof. by repeat split. Qed.

Lemma same_attempts_trans (s1 s2 s3 : state) :
  same_attempts s1 s2 → same_attempts s2 s3 → same_attempts s1 s3.
Proof.
  intros (?&?&?&?&?&?) (?&?&?&?&?&?). repeat split; congruence.
Qed.

Lemma sim_ret {A B} (RA : A → B → Prop) (a : A) (b : B) :
  RA a b → sim RA (mret a) (mret b).
Proof. intros H sl sd HR. by split. Qed.

Lemma sim_throw {A B} (RA : A → B → Prop) (e1 e2 : exn) :
  sim RA (throw e1) (throw e2).
Proof. by intros sl sd HR. Qed.

Lemma sim_lift {A} (r : result A) : sim eq (lift r) (lift r).
Proof. intros sl sd HR. unfold lift. by destruct r. Qed.

Lemma sim_bind {A B A' B'} (RA : A → B → Prop) (RB : A' → B' → Prop)
    (ml : M state A) (md : M state B)
    (kl : A → M state A') (kd : B → M state B') :
  sim RA ml md → (∀ a b, RA a b → sim RB (kl a) (kd b)) →
  sim RB (ml ≫= kl) (md ≫= kd).
Proof.
  intros Hm Hk sl sd HR. specialize (Hm sl sd HR). rewrite !run_bind.
  destruct (ml sl) as [[a|e1] sl'], (md sd) as [[b|e2] sd']; try done.
  destruct Hm as [Hab HR']. by apply Hk.
Qed.

Lemma sim_step_l {A A' B} (RB : A' → B → Prop) (m : M state A) (a : A)
    (kl : A → M state A') (md : M state B) :
  silent m a → sim RB (kl a) md → sim RB (m ≫= kl) md.
Proof.
  intros Hs Hk sl sd HR. destruct (Hs sl) as (sl' & Hm & HR').
  rewrite run_bind, Hm. apply Hk. by eapply same_attempts_trans.
Qed.

Lemma silent_ret {A} (a : A) : silent (mret a) a.
Proof. intros sl. exists sl. split; [done|apply same_attempts_refl]. Qed.

Lemma silent_lift {A} (a : A) : silent (lift (Ok a)) a.
Proof. intros sl. exists sl. split; [done|apply same_attempts_refl]. Qed.

Lemma attempted_mutations_app (l1 l2 : list event) :
  attempted_mutations (l1 ++ l2) = attempted_mutations l1 ++ attempted_mutations l2.
Proof. apply omap_app. Qed.

Lemma silent_emit (e : event) : mutation_of e = None → silent (emit e) ().
Proof.
  intros He sl. eexists. split; [reflexivity|].
  repeat split; cbn. rewrite attempted_mutations_app. cbn. rewrite He.
  by rewrite app_nil_r.
Qed.

Lemma sim_emit (e1 e2 : event) :
  mutation_of e1 = mutation_of e2 → sim (λ _ _, True) (emit e1) (emit e2).
Proof.
  intros He sl sd (H1&H2&H3&H4&H5&H6). split; [done|].
  repeat split; cbn; try done.
  rewrite !attempted_mutations_app. cbn. by rewrite He, H1.
Qed.

Lemma sim_map_set (k : string) (idl idd : ident) :
  sim (λ _ _, True) (map_set k idl) (map_set k idd).
Proof.
  intros sl sd (H1&H2&H3&H4&H5&H6). split; [done|].
  repeat split; cbn; try done. by rewrite !dom_insert_L, H2.
Qed.

Lemma sim_count_processed : sim (λ _ _, True) count_processed count_processed.
Proof.
  intros sl sd (H1&H2&H3&H4&H5&H6). split; [done|].
  repeat split; cbn; first [done|by f_equal].
Qed.

Lemma sim_count_skipped : sim (λ _ _, True) count_skipped count_skipped.
Proof.
  intros sl sd (H1&H2&H3&H4&H5&H6). split; [done|].
  repeat split; cbn; first [done|by f_equal].
Qed.

Lemma sim_count_error : sim (λ _ _, True) count_error count_error.
Proof.
  intros sl sd (H1&H2&H3&H4&H5&H6). split; [done|].
  repeat split; cbn; first [done|by f_equal].
Qed.

Lemma sim_count_unknown_status :
  sim (λ _ _, True) count_unknown_status count_unknown_status.
Proof.
  intros sl sd (H1&H2&H3&H4&H5&H6). split; [done|].
  repeat split; cbn; first [done|by f_equal].
Qed.

Lemma sim_try_catch {A B} (RA : A → B → Prop)
    (ml : M state A) (md : M state B)
    (hl : exn → M state A) (hd : exn → M state B) :
  sim RA ml md → (∀ e1 e2, sim RA (hl e1) (hd e2)) →
  sim RA (try_catch ml hl) (try_catch md hd).
Proof.
  intros Hm Hh sl sd HR. specialize (Hm sl sd HR). unfold try_catch.
  destruct (ml sl) as [[a|e1] sl'], (md sd) as [[b|e2] sd']; try done.
  by apply Hh.
Qed.

Lemma sim_for_each {A} (fl fd : A → M state unit) (l : list A) :
  (∀ x, x ∈ l → sim (λ _ _, True) (fl x) (fd x)) →
  sim (λ _ _, True) (for_each fl l) (for_each fd l).
Proof.
  induction l as [|x l IH]; intros Hf; cbn [for_each].
  - by apply sim_ret.
  - eapply sim_bind; [apply Hf; left|]. intros _ _ _. apply IH.
    intros y Hy. apply Hf. by right.
Qed.

Lemma sim_fold_m {A B C} (RB : B → C → Prop)
    (fl : B → A → M state B) (fd : C → A → M state C) (l : list A) (b : B) (c : C) :
  (∀ b c x, RB b c → sim RB (fl b x) (fd c x)) →
  RB b c → sim RB (fold_m fl l b) (fold_m fd l c).
Proof.
  intros Hf. revert b c. induction l as [|x l IH]; intros b c Hbc; cbn [fold_m].
  - by apply sim_ret.
  - eapply sim_bind; [by apply Hf|]. intros b' c' Hbc'. by apply IH.
Qed.

Lemma sim_lift_ok_l {A B} (r : result A) (b : B) :
  is_ok r = true → sim (λ _ _, True) (lift r) (mret b).
Proof. intros Hr sl sd HR. by destruct r. Qed.

Lemma sim_then_silent {A B} (ml : M state A) (md : M state B)
    (kl : A → M state unit) :
  sim (λ _ _, True) ml md → (∀ a, silent (kl a) ()) →
  sim (λ _ _, True) (ml ≫= kl) md.
Proof.
  intros Hm Hk sl sd HR. specialize (Hm sl sd HR). rewrite run_bind.
  destruct (ml sl) as [[a|e1] sl'], (md sd) as [[b|e2] sd']; try done.
  destruct Hm as [_ HR']. destruct (Hk a sl') as (sl'' & -> & HR'').
  split; [done|]. by eapply same_attempts_trans.
Qed.

Lemma sim_impersonated (user : option jira_user) :
  sim eq (impersonated w user) (impersonated w user).
Proof. destruct user; [by apply sim_ret|apply sim_throw]. Qed.

Section Rehearsal.

Hypothesis Hw : fresh_and_reliable w.

Lemma sim_write_work_package (i : issue) (existingWorkPackage : option ident)
    (p : payload) :
  is_Some (creator i) →
  sim (λ _ _, True)
    (write_work_package w true i existingWorkPackage p)
    (write_work_package w false i existingWorkPackage p).
Proof.
  destruct Hw as (_ & _ & _ & Hcreate & Hupdate & _).
  intros [u Hu]. unfold write_work_package. cbn beta iota. rewrite Hu.
  apply sim_step_l with (a := commentUserMapping w (userMapping w (accountId u)));
    [apply silent_ret|].
  destruct existingWorkPackage as [id|].
  - eapply sim_bind; [by apply sim_emit|]. intros _ _ _.
    apply sim_lift_ok_l, Hupdate.
  - eapply sim_bind; [by apply sim_emit|]. intros _ _ _.
    apply sim_lift_ok_l, Hcreate.
Qed.

Lemma sim_process_attachment (i : issue) (wpl wpd : ident)
    (tl td : list (string * attachment_id)) (a : jira_attachment) :
  is_Some (creator i) →
  tl.*1 = td.*1 →
  sim (λ t1 t2, t1.*1 = t2.*1)
    (process_attachment w true i wpl [] tl a)
    (process_attachment w false i wpd [] td a).
Proof.
  destruct Hw as (_ & _ & Hdl & _ & _ & Hup & _).
  intros [u Hu] Ht. unfold process_attachment. cbn beta iota. cbn [find].
  apply sim_step_l with (a := ()); [by apply silent_emit|].
  rewrite Hdl. apply sim_step_l with (a := ()); [apply silent_lift|].
  rewrite Hu.
  apply sim_step_l with (a := commentUserMapping w (userMapping w (accountId u)));
    [apply silent_ret|].
  eapply sim_bind; [by apply sim_emit|]. intros _ _ _.
  specialize (Hup wpl (filename a)
                (commentUserMapping w (userMapping w (accountId u)))).
  destruct (uploadAttachment w wpl (filename a) _) as [n|e]; [|done].
  apply sim_step_l with (a := n); [apply silent_lift|].
  apply sim_ret. by apply table_set_keys.
Qed.

Lemma sim_process_attachments (i : issue) (wpl wpd : ident) :
  is_Some (creator i) →
  sim (λ t1 t2, t1.*1 = t2.*1)
    (process_attachments w true i wpl)
    (process_attachments w false i wpd).
Proof.
  destruct Hw as (Hatt & _).
  intros Hc. unfold process_attachments. cbn beta iota.
  destruct (attachment i) as [[|a rest]|]; try by apply sim_ret.
  eapply sim_bind with (RA := λ l1 l2, l1 = [] ∧ l2 = []).
  - apply sim_step_l with (a := ()); [by apply silent_emit|].
    apply sim_ret. by rewrite Hatt.
  - intros l1 l2 [-> ->]. apply sim_fold_m; [|done].
    intros b c x Hbc. by apply sim_process_attachment.
Qed.

Lemma sim_finalize_description (i : issue) (wpl wpd : ident) (raw : string)
    (tl td : list (string * attachment_id)) :
  tl.*1 = td.*1 →
  sim (λ _ _, True)
    (finalize_description w true i wpl raw tl)
    (finalize_description w false i wpd raw td).
Proof.
  destruct Hw as (_ & _ & _ & _ & _ & _ & Hdesc & _).
  intros Ht. unfold finalize_description.
  destruct tl as [|el tl], td as [|ed td]; try done.
  rewrite !substitute_unchanged, (fires_keys _ _ raw Ht).
  destruct (fires (ed :: td) raw); cbn [negb]; [|by apply sim_ret].
  eapply sim_bind; [apply sim_impersonated|]. intros u ? <-.
  apply sim_then_silent; [by apply sim_emit|].
  intros _. rewrite Hdesc. apply silent_lift.
Qed.

Lemma sim_process_comment (wpl wpd : ident)
    (tl td : list (string * attachment_id)) (c : jira_comment) :
  sim (λ _ _, True)
    (process_comment w true wpl tl [] c)
    (process_comment w false wpd td [] c).
Proof.
  destruct Hw as (_ & _ & _ & _ & _ & _ & _ & Hcomment).
  unfold process_comment.
  eapply sim_bind; [apply sim_impersonated|]. intros u ? <-.
  case_bool_decide; [by apply sim_ret|].
  eapply sim_bind; [apply sim_lift|]. intros html ? <-.
  destruct (String.eqb html EmptyString); [by apply sim_ret|].
  apply sim_then_silent; [by apply sim_emit|].
  intros _. rewrite Hcomment. apply silent_lift.
Qed.

Lemma sim_process_comments (i : issue) (wpl wpd : ident)
    (tl td : list (string * attachment_id)) :
  sim (λ _ _, True)
    (process_comments w true i wpl tl)
    (process_comments w false i wpd td).
Proof.
  destruct Hw as (_ & Hcom & _).
  unfold process_comments. cbn beta iota.
  destruct (comments i) as [[|c rest]|]; try by apply sim_ret.
  eapply sim_bind with (RA := λ l1 l2, omap id l1 = [] ∧ l2 = []).
  - apply sim_step_l with (a := ()); [by apply silent_emit|].
    apply sim_ret. by rewrite Hcom.
  - intros l1 l2 [-> ->]. apply sim_for_each.
    intros x _. apply sim_process_comment.
Qed.

Lemma sim_add_watchers (i : issue) (wpl wpd : ident) :
  sim (λ _ _, True) (add_watchers w true i wpl) (add_watchers w false i wpd).
Proof.
  unfold add_watchers. destruct (watchCount i) as [n|]; [|by apply sim_ret].
  destruct (0 <? n)%Z; [|by apply sim_ret].
  eapply sim_bind; [by apply sim_emit|]. intros _ _ _.
  eapply sim_bind; [apply sim_lift|]. intros watchers ? <-.
  apply sim_for_each. intros watcher _.
  destruct (getOpenProjectUserId w watcher); [by apply sim_emit|by apply sim_ret].
Qed.

Lemma sim_process_issue (openProjectId : Z) (skipUpdates mapResponsible : bool)
    (i : issue) :
  is_Some (creator i) →
  sim (λ _ _, True)
    (process_issue w openProjectId true skipUpdates mapResponsible i)
    (process_issue w openProjectId false skipUpdates mapResponsible i).
Proof.
  intros Hc. unfold process_issue.
  eapply sim_bind with (RA := eq).
  { destruct skipUpdates; [by apply sim_ret|].
    eapply sim_bind; [by apply sim_emit|]. intros _ _ _. by apply sim_ret. }
  intros existing ? <-.
  assert (Hrest :
    sim (λ _ _, True)
      (_ ← (if bool_decide (getWorkPackageStatusId w (status_name i)
                            = getWorkPackageStatusId w "unknown")
            then count_unknown_status else mret ());
       raw ← lift (Converter.convertAtlassianDocumentToHtml (description i));
       let p := build_payload w openProjectId mapResponsible i raw in
       workPackageId ← write_work_package w true i existing p;
       _ ← map_set (key i) workPackageId;
       attachmentIdMap ← process_attachments w true i workPackageId;
       _ ← finalize_description w true i workPackageId raw attachmentIdMap;
       _ ← process_comments w true i workPackageId attachmentIdMap;
       _ ← add_watchers w true i workPackageId;
       count_processed)
      (_ ← (if bool_decide (getWorkPackageStatusId w (status_name i)
                            = getWorkPackageStatusId w "unknown")
            then count_unknown_status else mret ());
       raw ← lift (Converter.convertAtlassianDocumentToHtml (description i));
       let p := build_payload w openProjectId mapResponsible i raw in
       workPackageId ← write_work_package w false i existing p;
       _ ← map_set (key i) workPackageId;
       attachmentIdMap ← process_attachments w false i workPackageId;
       _ ← finalize_description w false i workPackageId raw attachmentIdMap;
       _ ← process_comments w false i workPackageId attachmentIdMap;
       _ ← add_watchers w false i workPackageId;
       count_processed)).
  { eapply sim_bind with (RA := λ _ _, True).
    { case_bool_decide; [apply sim_count_unknown_status|by apply sim_ret]. }
    intros _ _ _. eapply sim_bind; [apply sim_lift|]. intros raw ? <-.
    cbn zeta.
    eapply sim_bind; [by apply sim_write_work_package|]. intros wpl wpd _.
    eapply sim_bind; [apply sim_map_set|]. intros _ _ _.
    eapply sim_bind; [by apply sim_process_attachments|]. intros tl td Ht.
    eapply sim_bind; [by apply sim_finalize_description|]. intros _ _ _.
    eapply sim_bind; [apply sim_process_comments|]. intros _ _ _.
    eapply sim_bind; [apply sim_add_watchers|]. intros _ _ _.
    apply sim_count_processed. }
  destruct existing as [id|], skipUpdates; try exact Hrest.
  eapply sim_bind; [by apply sim_emit|]. intros _ _ _.
  eapply sim_bind; [apply sim_map_set|]. intros _ _ _.
  apply sim_count_skipped.
Qed.

Lemma sim_migrateIssues (openProjectId : Z) (skipUpdates mapResponsible : bool)
    (jiraIssues : list issue) :
  Forall (λ i, is_Some (creator i)) jiraIssues →
  sim (λ _ _, True)
    (migrateIssues w openProjectId true skipUpdates mapResponsible jiraIssues)
    (migrateIssues w openProjectId false skipUpdates mapResponsible jiraIssues).
Proof.
  intros Hc. unfold migrateIssues. apply sim_for_each. intros i Hi.
  apply sim_try_catch.
  - apply sim_process_issue. by eapply Forall_forall in Hc.
  - intros _ _. eapply sim_bind; [by apply sim_emit|]. intros _ _ _.
    apply sim_count_error.
Qed.

End Rehearsal.

(** *** What dry-run mode leaves out *)

Lemma emit_no_live_call (e : event) :
  live_only e = false → preserves no_live_call (emit e).
Proof.
  intros He st H. unfold no_live_call in *. cbn.
  rewrite forallb_app, H. cbn. by rewrite He.
Qed.

Lemma log_kept_no_live_call {A} (m : M state A) :
  (∀ st, log (m st).2 = log st) → preserves no_live_call m.
Proof. intros Hm st H. unfold no_live_call. by rewrite Hm. Qed.

Ltac no_live :=
  repeat first
    [ apply preserves_ret | apply preserves_throw | apply preserves_lift
    | apply emit_no_live_call; reflexivity
    | apply log_kept_no_live_call; reflexivity
    | apply preserves_bind | apply preserves_for_each
    | apply preserves_fold_m | apply preserves_try_catch
    | progress intros
    | match goal with
      | |- preserves _ (if ?b then _ else _) => destruct b
      | |- preserves _ (match ?x with _ => _ end) => destruct x
      end ].

Lemma dry_run_no_live_call (openProjectId : Z)
    (skipUpdates mapResponsible : bool) (jiraIssues : list issue) :
  preserves no_live_call
    (migrateIssues w openProjectId false skipUpdates mapResponsible jiraIssues).
Proof.
  unfold migrateIssues, process_issue, write_work_package, process_attachments,
    process_attachment, finalize_description, process_comments,
    process_comment, add_watchers, impersonated.
  cbn beta iota. no_live.
Qed.

(** C8, amended.  Dry-run mode makes no mutating call, and it also leaves
    out the download of attachments and the reads of the attachments and
    comments a work package already has, which it takes as empty.  On a
    target where no work package carries an attachment or a migrated
    comment yet and every live call succeeds, for issues that all have a
    creator, dry-run and live mode attempt the same mutations in the same
    order (the same work-package payloads, file names, source comment ids
    and watchers), record the same keys in the identity map and count the
    same outcomes. *)
Theorem dry_run_rehearses_fresh_target (openProjectId : Z)
    (skipUpdates mapResponsible : bool) (jiraIssues : list issue) :
  fresh_and_reliable w →
  Forall (λ i, is_Some (creator i)) jiraIssues →
  same_attempts
    (migrateIssues w openProjectId true skipUpdates mapResponsible
       jiraIssues initial).2
    (migrateIssues w openProjectId false skipUpdates mapResponsible
       jiraIssues initial).2
  ∧ attempted_mutations
      (log (migrateIssues w openProjectId true skipUpdates mapResponsible
              jiraIssues initial).2)
    = attempted_mutations
        (log (migrateIssues w openProjectId false skipUpdates mapResponsible
                jiraIssues initial).2)
  ∧ forallb (λ e, negb (live_only e))
      (log (migrateIssues w openProjectId false skipUpdates mapResponsible
              jiraIssues initial).2) = true.
Proof.
  intros Hw Hc.
  pose proof (sim_migrateIssues Hw openProjectId skipUpdates mapResponsible
                jiraIssues Hc initial initial (same_attempts_refl initial)) as H.
  pose proof (migrateIssues_ok openProjectId true skipUpdates mapResponsible
                jiraIssues initial) as Hl.
  pose proof (migrateIssues_ok openProjectId false skipUpdates mapResponsible
                jiraIssues initial) as Hd.
  destruct (migrateIssues w openProjectId true skipUpdates mapResponsible
              jiraIssues initial) as [[[]|?] sl]; [|done].
  destruct (migrateIssues w openProjectId false skipUpdates mapResponsible
              jiraIssues initial) as [[[]|?] sd] eqn:E; [|done].
  destruct H as [_ HR]. split; [exact HR|]. split; [apply HR|].
  pose proof (dry_run_no_live_call openProjectId skipUpdates mapResponsible
                jiraIssues initial eq_refl) as Hn.
  by rewrite E in Hn.
Qed.

Lemma seed_run {T} (entries : list (string * ident)) (st : Relationships.state T) :
  (Relationships.seed entries st).1 = Ok ()
  ∧ Relationships.issueToWorkPackageMap (Relationships.seed entries st).2
    = foldl (λ m e, <[e.1 := e.2]> m)
        (Relationships.issueToWorkPackageMap st) entries.
Proof.
  unfold Relationships.seed. revert st.
  induction entries as [|e entries IH]; intros st; [done|].
  cbn [for_each foldl]. rewrite run_bind. unfold Relationships.map_set at 1.
  apply IH.
Qed.

(** C2, amended.  The identity map holds at most one target id per source
    key.  [set] never fails and, on a key that is present, replaces the
    entry: so do the two writes of [migrateIssues] and the seeding of the
    relationship module.  Within one [migrateIssues] run over issues with
    pairwise distinct keys, an entry that is set stays as it is until the
    end of the run. *)
Theorem identity_map_set_replaces :
  (∀ (st : state) k a b,
     issueToWorkPackageMap st !! k = Some a →
     issueToWorkPackageMap st !! k = Some b → a = b)
  ∧ (∀ (st : state) k id,
       (map_set k id st).1 = Ok ()
       ∧ issueToWorkPackageMap (map_set k id st).2
         = <[k := id]> (issueToWorkPackageMap st)
       ∧ issueToWorkPackageMap (map_set k id st).2 !! k = Some id)
  ∧ (∀ T (entries : list (string * ident)) (st : Relationships.state T),
       (Relationships.seed entries st).1 = Ok ()
       ∧ Relationships.issueToWorkPackageMap (Relationships.seed entries st).2
         = foldl (λ m e, <[e.1 := e.2]> m)
             (Relationships.issueToWorkPackageMap st) entries)
  ∧ (∀ openProjectId isProd skipUpdates mapResponsible (pre post : list issue),
       NoDup (key <$> (pre ++ post)) →
       ∀ k v,
         issueToWorkPackageMap
           (migrateIssues w openProjectId isProd skipUpdates mapResponsible
              pre initial).2 !! k = Some v →
         issueToWorkPackageMap
           (migrateIssues w openProjectId isProd skipUpdates mapResponsible
              (pre ++ post) initial).2 !! k = Some v).
Proof.
  split_and!.
  - intros st k a b Ha Hb. congruence.
  - intros st k id. split_and!; [done..|]. cbn. apply lookup_insert_eq.
  - intros T entries st. apply seed_run.
  - intros openProjectId isProd skipUpdates mapResponsible pre post Hnd k v Hk.
    rewrite migrateIssues_app, migrateIssues_frame; [done|].
    rewrite fmap_app in Hnd. apply NoDup_app in Hnd as (_ & Hdisj & _).
    apply Hdisj. eapply migrateIssues_keys. by rewrite Hk.
Qed.

End SynchronizerFacts.

(** ** Expected refusals are not errors *)

Section ExpectedOutcomes.

Import Relationships.

Context {T : Type} (api : target T).
Context (post_watcher : ident → Z → Client.watcher_response).

(** C9. An edge creation that the target refuses with a message containing
    "already been taken" or "would create a circular" (in any letter case)
    returns normally: [createRelationship] does not throw, logs no creation
    error, and ends on the line that reports the relation as present.  A
    watcher addition answered with status 409 returns normally and logs no
    error either. *)
Theorem expected_outcomes_normalized :
  (∀ (fromId toId : ident) (type : relation_type) (st : state T) (t' : T)
     (messages : list string) (m : string),
     post_relation api (target_state st) fromId toId type
     = (t', PostFailed (Some (Some <$> messages))) →
     m ∈ messages →
     Str.includes "already been taken" (Str.toLowerCase m) = true
     ∨ Str.includes "would create a circular" (Str.toLowerCase m) = true →
     (createRelationship api fromId toId type st).1 = Ok ()
     ∧ ∃ l, log (createRelationship api fromId toId type st).2 = log st ++ l
          ∧ ("Error creating relationship" ∉ errors_logged l)
          ∧ (last l = Some (RelationFound fromId toId type)
             ∨ last l = Some (RelationNormalized fromId toId type)))
  ∧ (∀ m : string,
       (Str.includes "already been taken" m = true →
        Str.includes "already been taken" (Str.toLowerCase m) = true)
       ∧ (Str.includes "would create a circular" m = true →
          Str.includes "would create a circular" (Str.toLowerCase m) = true))
  ∧ (∀ (workPackageId : ident) (userId : Z) (console : list Client.event),
       post_watcher workPackageId userId = Client.WatcherFailed (Some 409%Z) →
       Client.addWatcher post_watcher workPackageId userId console
       = (Ok (), console ++ [Client.AddingWatcher workPackageId userId;
                             Client.AlreadyWatching workPackageId userId])).
Proof.
  split_and!.
  - intros. by eapply createRelationship_normalizes.
  - intros m. split; intros H.
    + apply (includes_lower "already been taken" m H).
    + apply (includes_lower "would create a circular" m H).
  - intros wp u console H. unfold Client.addWatcher. rewrite run_bind.
    unfold Client.say. rewrite H. cbn -[app].
    rewrite bool_decide_true by done. by rewrite <- app_assoc.
Qed.

End ExpectedOutcomes.

(** ** Worked examples on the in-memory target *)

Section Examples.

Import Relationships.

(** An instance of [equal_timestamps_double_create]: both issues created
    at the same instant, both keys seeded. *)
Lemma equal_timestamps_double_create_witness :
  truthy_lookup (issueToWorkPackageMap example_state) "P-1" = Some (IdNum 101)
  ∧ truthy_lookup (issueToWorkPackageMap example_state) "P-2" = Some (IdNum 102)
  ∧ create_calls
      (log (handleRelationships memory_target
              (issue_with_link "P-1" "2024-01-01"
                 (duplicates_link "P-2" (Some "2024-01-01")))
              example_state).2)
    = [(IdNum 101, IdNum 102, Duplicates)]
  ∧ create_calls
      (log (handleRelationships memory_target
              (issue_with_link "P-2" "2024-01-01"
                 (duplicated_by_link "P-1" (Some "2024-01-01")))
              example_state).2)
    = [(IdNum 102, IdNum 101, Duplicated)].
Proof.
  pose proof (equal_timestamps_double_create memory_target
                "P-1" "P-2" "2024-01-01" (IdNum 101) (IdNum 102)
                example_state example_state
                eq_refl eq_refl eq_refl eq_refl) as (_ & _ & _ & _ & H1 & H2).
  split; [reflexivity|]. split; [reflexivity|]. split; [exact H1|exact H2].
Defined.


(** An instance of [deferred_set_deduplicated_then_drained] on a set that
    holds a triple: P-2 was handled while its parent P-1 was missing.
    Handling P-2 twice more defers the same triple again and the set still
    holds it once; adding it by hand changes nothing; the sweep reports it
    and leaves the set empty. *)
Lemma deferred_set_deduplicated_then_drained_witness :
  missingRelationships RelationshipRuns.deferring_state
  = [Triple "P-2" "P-1" Partof]
  ∧ NoDup (missingRelationships RelationshipRuns.deferring_state)
  ∧ set_add (Triple "P-2" "P-1" Partof)
      (set_add (Triple "P-2" "P-1" Partof)
         (missingRelationships RelationshipRuns.deferring_state))
    = [Triple "P-2" "P-1" Partof]
  ∧ NoDup (missingRelationships
             (for_each (handleRelationships memory_target)
                [child_issue; child_issue] RelationshipRuns.deferring_state).2)
  ∧ missingRelationships
      (for_each (handleRelationships memory_target)
         [child_issue; child_issue] RelationshipRuns.deferring_state).2
    = [Triple "P-2" "P-1" Partof]
  ∧ still_missing
      (log (retryMissingRelationships memory_target
              RelationshipRuns.deferring_state).2)
    = [Triple "P-2" "P-1" Partof]
  ∧ missingRelationships
      (retryMissingRelationships memory_target
         RelationshipRuns.deferring_state).2 = [].
Proof.
  assert (H : NoDup (missingRelationships RelationshipRuns.deferring_state)).
  { apply (NoDup_singleton (Triple "P-2" "P-1" Partof)). }
  pose proof (deferred_set_deduplicated_then_drained memory_target
                [child_issue; child_issue] RelationshipRuns.deferring_state H)
    as (H1 & H2 & _ & _ & H5).
  split; [reflexivity|]. split; [exact H|].
  split; [exact (H1 (Triple "P-2" "P-1" Partof))|].
  split; [exact H2|]. split; [reflexivity|]. split; [reflexivity|exact H5].
Defined.

(** An instance of [single_retry_sweep]: the parent P-1 is not in the batch,
    the triple is deferred, swept once and reported. *)
Lemma single_retry_sweep_witness :
  (for_each (handleRelationships memory_target) [child_issue]
     (seed [("P-2", IdNum 102)] (initial [])).2).1 = Ok ()
  ∧ still_missing
      (log (createRelationships memory_target [child_issue]
              [("P-2", IdNum 102)] (initial [])).2)
    = [Triple "P-2" "P-1" Partof]
  ∧ createRelationships memory_target [child_issue] [("P-2", IdNum 102)]
      (initial [])
    = retryMissingRelationships memory_target
        ((_ ← seed [("P-2", IdNum 102)];
          for_each (handleRelationships memory_target) [child_issue])
           (initial [])).2.
Proof.
  pose proof (single_retry_sweep memory_target [child_issue]
                [("P-2", IdNum 102)] (initial []))
    as (_ & _ & _ & _ & _ & H).
  split; [by vm_compute|]. split; [by vm_compute|].
  apply H. by vm_compute.
Defined.

(** An instance of [expected_outcomes_normalized]: the mirror of a relation
    that exists is refused by the target, and a watcher is already there. *)
Lemma expected_outcomes_normalized_witness :
  (createRelationship memory_target (IdNum 102) (IdNum 101) Duplicated
     related_state).1 = Ok ()
  ∧ Client.addWatcher (λ _ _, Client.WatcherFailed (Some 409%Z))
      (IdNum 101) 7%Z []
    = (Ok (), [Client.AddingWatcher (IdNum 101) 7%Z;
               Client.AlreadyWatching (IdNum 101) 7%Z]).
Proof.
  pose proof (expected_outcomes_normalized memory_target
                (λ _ _, Client.WatcherFailed (Some 409%Z))) as (H1 & _ & H3).
  split.
  - refine (proj1 (H1 (IdNum 102) (IdNum 101) Duplicated related_state
                     [(IdNum 101, IdNum 102, Duplicates)]
                     ["Work package has already been taken."]
                     "Work package has already been taken." eq_refl _ _)).
    + apply list_elem_of_here.
    + left. reflexivity.
  - exact (H3 (IdNum 101) 7%Z [] eq_refl).
Defined.

End Examples.

(** ** Worked examples of a migration run *)

Section SynchronizerExamples.

Import Converter Synchronizer.

(** C8, as stated, fails: when the work package already carries a.png, live
    mode reads the existing attachments and uploads nothing, while dry-run
    mode does not make that read and reports an upload. *)
Lemma dry_run_differs_on_existing_attachment :
  attempted_mutations
    (log (migrateIssues rerun_world 1 true false true [example_issue] initial).2)
  = [MWorkPackage example_payload; MDescription; MComment "10001"; MWatcher 5]
  ∧ attempted_mutations
      (log (migrateIssues rerun_world 1 false false true [example_issue] initial).2)
    = [MWorkPackage example_payload; MUpload "a.png"; MDescription;
       MComment "10001"; MWatcher 5]
  ∧ target_reads
      (log (migrateIssues rerun_world 1 true false true [example_issue] initial).2)
    = [FindExistingWorkPackage "P-1"; GetExistingAttachments (IdNum 7);
       GetExistingComments (IdNum 7)]
  ∧ target_reads
      (log (migrateIssues rerun_world 1 false false true [example_issue] initial).2)
    = [FindExistingWorkPackage "P-1"].
Proof. repeat split; by vm_compute. Qed.

(** [fresh_world] meets the conditions of the comparison. *)
Lemma fresh_world_reliable : fresh_and_reliable fresh_world.
Proof. repeat split. Defined.

(** An instance of [dry_run_rehearses_fresh_target]: one issue with an
    attachment, a comment and a watcher on the fresh target. *)
Lemma dry_run_rehearses_fresh_target_witness :
  fresh_and_reliable fresh_world
  ∧ Forall (λ i, is_Some (creator i)) [example_issue]
  ∧ attempted_mutations
      (log (migrateIssues fresh_world 1 true false true [example_issue] initial).2)
    = attempted_mutations
        (log (migrateIssues fresh_world 1 false false true [example_issue] initial).2).
Proof.
  assert (Hc : Forall (λ i, is_Some (creator i)) [example_issue]).
  { constructor; [by eexists|constructor]. }
  split; [exact fresh_world_reliable|]. split; [exact Hc|].
  exact (proj1 (proj2 (dry_run_rehearses_fresh_target fresh_world 1 false true
                         [example_issue] fresh_world_reliable Hc))).
Defined.

(** C2, as stated, fails: each of the three writers, run on a map that
    already holds the key, returns normally and leaves the new id in
    place of the old one. *)
Lemma identity_map_set_overwrites :
  (* recording a skipped existing work package *)
  ((process_issue cached_world 1 true true true example_issue mapped_state).1
   = Ok ()
   ∧ issueToWorkPackageMap
       (process_issue cached_world 1 true true true example_issue mapped_state).2
       !! "P-1" = Some (IdNum 7))
  (* recording a created or updated work package *)
  ∧ ((process_issue fresh_world 1 true false true example_issue mapped_state).1
     = Ok ()
     ∧ issueToWorkPackageMap
         (process_issue fresh_world 1 true false true example_issue mapped_state).2
         !! "P-1" = Some (IdNum 7))
  (* seeding the relationship module twice *)
  ∧ ((Relationships.seed [("P-1", IdNum 2)]
        (Relationships.seed [("P-1", IdNum 1)] (Relationships.initial ())).2).1
     = Ok ()
     ∧ Relationships.issueToWorkPackageMap
         (Relationships.seed [("P-1", IdNum 2)]
            (Relationships.seed [("P-1", IdNum 1)] (Relationships.initial ())).2).2
         !! "P-1" = Some (IdNum 2)).
Proof. repeat split; by vm_compute. Qed.

(** An instance of [identity_map_set_replaces]: the entry of P-1 survives
    the processing of P-2. *)
Lemma identity_map_set_replaces_witness :
  NoDup (key <$> ([example_issue] ++ [second_issue]))
  ∧ issueToWorkPackageMap
      (migrateIssues fresh_world 1 true false true [example_issue] initial).2
      !! "P-1" = Some (IdNum 7)
  ∧ issueToWorkPackageMap
      (migrateIssues fresh_world 1 true false true
         ([example_issue] ++ [second_issue]) initial).2
      !! "P-1" = Some (IdNum 7).
Proof.
  assert (Hnd : NoDup (key <$> ([example_issue] ++ [second_issue]))).
  { apply (bool_decide_unpack _). by vm_compute. }
  pose proof (identity_map_set_replaces fresh_world) as (_ & _ & _ & H).
  split; [exact Hnd|]. split; [by vm_compute|].
  apply (H 1%Z true false true [example_issue] [second_issue] Hnd).
  by vm_compute.
Defined.

End SynchronizerExamples.

(** ** Whole runs of the relationship module *)

Section RelationshipRunFacts.

Import Relationships RelationshipRuns.

Context {T : Type} (api : target T).

Lemma truthy_lookup_Some (m : gmap string ident) (k : string) (i : ident) :
  truthy_lookup m k = Some i → m !! k = Some i.
Proof.
  unfold truthy_lookup. destruct (m !! k) as [j|]; [|done].
  destruct (ident_truthy j); [|done]. by intros [= ->].
Qed.

Lemma emit_run_invariant (m : gmap string ident) (e : event) :
  create_calls [e] = [] → posts [e] = [] →
  preserves (run_invariant (T:=T) m) (emit e).
Proof.
  intros Hc Hp st (Hm & Hk & Hn). unfold run_invariant, emit. cbn -[app].
  by rewrite create_calls_app, posts_app, Hc, Hp, !app_nil_r.
Qed.

Lemma missing_add_run_invariant (m : gmap string ident) (d : deferred) :
  preserves (run_invariant (T:=T) m) (missing_add d).
Proof. by intros st H. Qed.

Lemma createRelationship_run_invariant (m : gmap string ident)
    (fromId toId : ident) (type : relation_type) :
  known m (fromId, toId, type) →
  preserves (run_invariant m) (createRelationship api fromId toId type).
Proof.
  intros Hkn st (Hm & Hk & Hn).
  destruct (createRelationship_run api fromId toId type st)
    as (l & Hl & Hcc & Hp & Hmap & _).
  unfold run_invariant. rewrite Hl, Hmap.
  change (log st ++ CreateRelationshipCalled fromId toId type :: l)
    with (log st ++ [CreateRelationshipCalled fromId toId type] ++ l).
  rewrite !create_calls_app, !posts_app, Hcc, app_nil_r. cbn [create_calls posts omap].
  split_and!; [done| |].
  - apply Forall_app. split; [done|]. by apply Forall_singleton.
  - rewrite !length_app. cbn. destruct Hp as [-> | ->]; cbn; lia.
Qed.

Lemma handle_epic_run_invariant (m : gmap string ident) (i : issue)
    (fromId : ident) (k : string) :
  m !! k = Some fromId →
  preserves (run_invariant m) (handle_epic api i fromId).
Proof.
  intros Hfrom st Hst. unfold handle_epic.
  destruct (Converter.opt_truthy (customfield_10014 i)); [|done].
  rewrite run_bind. cbn [lookup_id].
  destruct (truthy_lookup (issueToWorkPackageMap st) _) as [epicId|] eqn:E.
  - apply createRelationship_run_invariant; [|done].
    destruct Hst as (Hm & _). rewrite Hm in E.
    split; cbn; eauto using truthy_lookup_Some.
  - clear E; revert st Hst. apply preserves_bind.
    + by apply emit_run_invariant.
    + intros. apply missing_add_run_invariant.
Qed.

Lemma handle_link_run_invariant (m : gmap string ident) (i : issue)
    (fromId : ident) (link : issue_link) (k : string) :
  m !! k = Some fromId →
  preserves (run_invariant m) (handle_link api i fromId link).
Proof.
  intros Hfrom. unfold handle_link.
  destruct (classify_link i link) as [[[rk|] [ty|]] [|]];
    try (by apply emit_run_invariant);
    try (apply preserves_bind;
         [by apply emit_run_invariant|intros; apply missing_add_run_invariant]).
  intros st Hst. rewrite run_bind. cbn [lookup_id].
  destruct (truthy_lookup (issueToWorkPackageMap st) rk) as [toId|] eqn:E.
  - revert st Hst E. intros st Hst E.
    assert (known m (fromId, toId, ty)) as Hkn.
    { destruct Hst as (Hm & _). rewrite Hm in E.
      split; cbn; eauto using truthy_lookup_Some. }
    clear E; revert st Hst. apply preserves_try_catch.
    + by apply createRelationship_run_invariant.
    + intros e. apply preserves_bind;
        [by apply emit_run_invariant|intros; apply missing_add_run_invariant].
  - clear E; revert st Hst. apply preserves_bind;
      [by apply emit_run_invariant|intros; apply missing_add_run_invariant].
Qed.

Lemma handleRelationships_run_invariant (m : gmap string ident) (i : issue) :
  preserves (run_invariant m) (handleRelationships api i).
Proof.
  intros st Hst. unfold handleRelationships. case_match; [done|].
  rewrite run_bind. cbn [lookup_id].
  destruct (truthy_lookup (issueToWorkPackageMap st) (key i)) as [fromId|] eqn:E;
    [|done].
  destruct Hst as (Hm & Hst). rewrite Hm in E. apply truthy_lookup_Some in E.
  assert (run_invariant m st) as Hst' by done.
  clear Hm Hst; revert st Hst'. apply preserves_bind.
  - by eapply handle_epic_run_invariant.
  - intros _. destruct (issuelinks i) as [links|]; [|apply preserves_ret].
    apply preserves_for_each. intros link. by eapply handle_link_run_invariant.
Qed.

Lemma retry_one_run_invariant (m : gmap string ident) (rel : deferred) :
  preserves (run_invariant m) (retry_one api rel).
Proof.
  intros st Hst. destruct rel as [f t ty|f]; cbn [retry_one].
  - rewrite !run_bind. cbn [lookup_id]. rewrite run_bind. cbn [lookup_id].
    destruct (truthy_lookup (issueToWorkPackageMap st) f) as [a|] eqn:Ea;
      [destruct (truthy_lookup (issueToWorkPackageMap st) t) as [b|] eqn:Eb|].
    + assert (known m (a, b, ty)) as Hkn.
      { destruct Hst as (Hm & _). rewrite Hm in Ea, Eb.
        split; cbn; eauto using truthy_lookup_Some. }
      clear Ea Eb; revert st Hst. apply preserves_try_catch.
      * apply preserves_bind; [by apply createRelationship_run_invariant|].
        intros. by apply emit_run_invariant.
      * intros e. by apply emit_run_invariant.
    + clear Ea Eb; revert st Hst. by apply emit_run_invariant.
    + clear Ea; revert st Hst. by apply emit_run_invariant.
  - revert st Hst. by apply emit_run_invariant.
Qed.

Lemma retry_run_invariant (m : gmap string ident) :
  preserves (run_invariant m) (retryMissingRelationships api).
Proof.
  intros st Hst. unfold retryMissingRelationships.
  destruct (length (missingRelationships st) =? 0)%nat; [done|].
  generalize (length (missingRelationships st)). intros n.
  revert st Hst. apply preserves_bind; [by apply emit_run_invariant|].
  intros _. apply preserves_bind; [by intros st H|].
  intros rels. apply preserves_for_each. intros. apply retry_one_run_invariant.
Qed.

Lemma seed_keeps (entries : list (string * ident)) (st : state T) :
  log (seed entries st).2 = log st
  ∧ missingRelationships (seed entries st).2 = missingRelationships st.
Proof.
  revert st. unfold seed.
  induction entries as [|e entries IH]; intros st; [done|].
  cbn [for_each]. rewrite run_bind. unfold map_set at 1.
  match goal with |- context [for_each _ _ ?s] => apply (IH s) end.
Qed.

(** What a whole run keeps true, from the seeded state on. *)
Lemma createRelationships_run_invariant (issues : list issue)
    (entries : list (string * ident)) (st : state T) :
  Forall (known (issueToWorkPackageMap (seed entries st).2))
    (create_calls (log st)) →
  (length (posts (log st)) ≤ length (create_calls (log st)))%nat →
  run_invariant (issueToWorkPackageMap (seed entries st).2)
    (createRelationships api issues entries st).2.
Proof.
  intros Hk Hn. set (m := issueToWorkPackageMap (seed entries st).2).
  assert (run_invariant m (seed entries st).2) as H1.
  { split; [done|].
    by rewrite (proj1 (seed_keeps entries st)). }
  unfold createRelationships, try_catch. rewrite run_bind.
  pose proof (seed_run entries st) as [Hok _].
  destruct (seed entries st) as [[[]|e] st1]; [|done]. cbn [snd] in *.
  rewrite run_bind.
  pose proof (preserves_for_each (run_invariant m) (handleRelationships api)
                issues (handleRelationships_run_invariant m) st1 H1) as H2.
  destruct (for_each (handleRelationships api) issues st1) as [[[]|e] st2];
    cbn [snd] in *.
  - pose proof (retry_run_invariant m st2 H2) as H3.
    destruct (retryMissingRelationships api st2) as [[[]|e] st3]; cbn [snd] in *;
      [done|].
    by apply emit_run_invariant.
  - by apply emit_run_invariant.
Qed.

Lemma handleRelationships_keeps_map (m : gmap string ident) (i : issue) :
  preserves (λ st : state T, issueToWorkPackageMap st = m)
    (handleRelationships api i).
Proof.
  set (P := λ st : state T, issueToWorkPackageMap st = m).
  assert (∀ e, preserves P (emit e)) as He by (by intros e st Hst).
  assert (∀ d, preserves P (missing_add d)) as Hd by (by intros d st Hst).
  assert (∀ f t ty, preserves P (createRelationship api f t ty)) as Hc.
  { intros f t ty st Hst.
    destruct (createRelationship_run api f t ty st) as (l & _ & _ & _ & Hm & _).
    unfold P. by rewrite Hm. }
  assert (∀ d, preserves P (_ ← emit (NotInBatch d); missing_add d)) as Hn.
  { intros d. apply preserves_bind; [apply He|intros; apply Hd]. }
  unfold handleRelationships. case_match; [apply preserves_ret|].
  apply preserves_bind; [by intros st Hst|]. intros [fromId|];
    [|apply preserves_ret].
  apply preserves_bind.
  - unfold handle_epic. case_match; [|apply preserves_ret].
    apply preserves_bind; [by intros st Hst|]. intros [epicId|]; [apply Hc|apply Hn].
  - intros _. destruct (issuelinks i) as [links|]; [|apply preserves_ret].
    apply preserves_for_each. intros link. unfold handle_link.
    destruct (classify_link i link) as [[[rk|] [ty|]] [|]];
      try apply He; try apply Hn.
    apply preserves_bind; [by intros st Hst|]. intros [toId|]; [|apply Hn].
    apply preserves_try_catch; [apply Hc|].
    intros e. apply preserves_bind; [apply He|intros; apply Hd].
Qed.

(** X1. The relationship module writes the identity map only when it seeds
    it: after a whole run, whatever the passes met, the map is the seeded
    one.  Nothing the passes learn is ever added, and nothing is removed. *)
Theorem identity_map_written_only_by_seeding (issues : list issue)
    (entries : list (string * ident)) (st : state T) :
  issueToWorkPackageMap (createRelationships api issues entries st).2
  = foldl (λ m e, <[e.1 := e.2]> m) (issueToWorkPackageMap st) entries.
Proof.
  pose proof (seed_run entries st) as [Hok Hmap].
  unfold createRelationships, try_catch. rewrite run_bind.
  destruct (seed entries st) as [[[]|e] st1]; [|done]. cbn [snd] in *.
  rewrite <- Hmap. clear Hmap Hok. rewrite run_bind.
  pose proof (preserves_for_each _ (handleRelationships api) issues
                (handleRelationships_keeps_map (issueToWorkPackageMap st1))
                st1 eq_refl) as H2.
  destruct (for_each (handleRelationships api) issues st1) as [[[]|e] st2];
    cbn [snd] in *; [|done].
  destruct (retry_run api st2) as (Hok3 & _ & Hm3 & _).
  destruct (retryMissingRelationships api st2) as [[[]|e] st3];
    cbn [fst snd] in *; congruence.
Qed.

(** X2. Started on a fresh module state, a whole run asks for edges only
    between work packages of the seeded identity map: both ends of every
    [createRelationship] call, in the main pass and in the sweep, are ids
    the map holds after seeding. *)
Theorem edges_only_between_seeded_work_packages (issues : list issue)
    (entries : list (string * ident)) (t : T) :
  Forall (known (foldl (λ m e, <[e.1 := e.2]> m) ∅ entries))
    (create_calls (log (createRelationships api issues entries (initial t)).2)).
Proof.
  pose proof (createRelationships_run_invariant issues entries (initial t))
    as (_ & H & _); [by apply Forall_nil|done|].
  by rewrite (proj2 (seed_run entries (initial t))) in H.
Qed.

(** X3. Started on a fresh module state, a whole run sends at most one
    [POST] per [createRelationship] call: no relation is posted twice for
    one attempt, and none without an attempt. *)
Theorem at_most_one_post_per_attempt (issues : list issue)
    (entries : list (string * ident)) (t : T) :
  (length (posts (log (createRelationships api issues entries (initial t)).2))
   ≤ length (create_calls
               (log (createRelationships api issues entries (initial t)).2)))%nat.
Proof.
  by pose proof (createRelationships_run_invariant issues entries (initial t))
    as (_ & _ & H); [by apply Forall_nil|done|].
Qed.

(** *** The sweep on a target with well-formed answers *)

Lemma lower_messages_ok (errors : list (option string)) :
  Forall is_Some errors → ∃ ms, lower_messages errors = Ok ms.
Proof.
  induction 1 as [|[m|] errors Hm _ [ms IH]]; cbn.
  - by eexists.
  - rewrite IH. by eexists.
  - by destruct Hm.
Qed.

Lemma createRelationship_returns (fromId toId : ident) (type : relation_type)
    (st : state T) :
  well_formed_answers api →
  (createRelationship api fromId toId type st).1 = Ok ().
Proof.
  intros Hwf. unfold createRelationship. rewrite run_bind. cbn [emit].
  rewrite run_bind.
  match goal with |- context [checkExistingRelationship _ _ _ _ ?s] =>
    destruct (checkExistingRelationship_run api fromId toId type s)
      as (b & l & Hrun & _) end.
  rewrite Hrun. destruct b; [done|].
  unfold post_new_relationship. rewrite run_bind. cbn [emit].
  rewrite run_bind. unfold api_post_relation at 1.
  cbn [target_state].
  destruct (post_relation api _ fromId toId type) as [t' [|[errors|]]] eqn:E;
    [done| |done].
  destruct (lower_messages_ok errors) as [ms Hms]; [by eapply Hwf|].
  cbn [error_messages]. rewrite Hms. by destruct (already_exists ms).
Qed.

Section WellFormed.

Hypothesis Hwf : well_formed_answers api.

Lemma steady_bind (m : gmap string ident) (a : M (state T) unit)
    (k : unit → M (state T) unit) :
  steady m a → (∀ x, steady m (k x)) → steady m (a ≫= k).
Proof.
  intros Ha Hk st Hst. rewrite run_bind. destruct (Ha st Hst) as [Hok Hun].
  destruct (a st) as [[[]|e] st1]; [|done]. by apply Hk.
Qed.

Lemma steady_for_each {A} (m : gmap string ident) (f : A → M (state T) unit)
    (l : list A) :
  (∀ x, steady m (f x)) → steady m (for_each f l).
Proof.
  intros Hf. induction l as [|x l IH]; [done|]. cbn [for_each].
  apply steady_bind; [apply Hf|done].
Qed.

Lemma steady_emit (m : gmap string ident) (e : event) :
  steady (T:=T) m (emit e).
Proof. by intros st Hst. Qed.

Lemma steady_missing_add (m : gmap string ident) (d : deferred) :
  resolve m d = None → steady (T:=T) m (missing_add d).
Proof.
  intros Hd st [Hm Hun]. split; [done|]. split; [done|].
  intros d'. cbn. unfold set_add. case_decide; [by apply Hun|].
  intros [?| ->%list_elem_of_singleton]%elem_of_app; [by apply Hun|done].
Qed.

Lemma steady_createRelationship (m : gmap string ident) (fromId toId : ident)
    (type : relation_type) :
  steady m (createRelationship api fromId toId type).
Proof.
  intros st [Hm Hun]. split; [by apply createRelationship_returns|].
  destruct (createRelationship_run api fromId toId type st)
    as (l & _ & _ & _ & Hmap & Hmiss).
  split; [congruence|]. by rewrite Hmiss.
Qed.

Lemma steady_not_in_batch (m : gmap string ident) (d : deferred) :
  resolve m d = None →
  steady (T:=T) m (_ ← emit (NotInBatch d); missing_add d).
Proof.
  intros Hd. apply steady_bind; [apply steady_emit|].
  intros _. by apply steady_missing_add.
Qed.

Lemma steady_handle_link (m : gmap string ident) (i : issue) (fromId : ident)
    (link : issue_link) :
  steady m (handle_link api i fromId link).
Proof.
  unfold handle_link.
  destruct (classify_link i link) as [[[rk|] [ty|]] [|]];
    try apply steady_emit; try by apply steady_not_in_batch.
  intros st Hst. rewrite run_bind. cbn [lookup_id].
  destruct (truthy_lookup (issueToWorkPackageMap st) rk) as [toId|] eqn:E.
  - unfold try_catch.
    destruct (steady_createRelationship m fromId toId ty st Hst) as [Hok Hun].
    by destruct (createRelationship api fromId toId ty st) as [[[]|e] st1].
  - destruct Hst as [Hm Hun]. rewrite Hm in E.
    apply steady_not_in_batch; [|done]. cbn. rewrite E. by case_match.
Qed.

Lemma steady_handleRelationships (m : gmap string ident) (i : issue) :
  steady m (handleRelationships api i).
Proof.
  intros st Hst. unfold handleRelationships. case_match; [done|].
  rewrite run_bind. cbn [lookup_id].
  destruct (truthy_lookup (issueToWorkPackageMap st) (key i)) as [fromId|];
    [|done].
  revert st Hst. apply steady_bind.
  - intros st Hst. unfold handle_epic.
    destruct (Converter.opt_truthy (customfield_10014 i)); [|done].
    rewrite run_bind. cbn [lookup_id].
    destruct (truthy_lookup (issueToWorkPackageMap st) _) as [epicId|] eqn:E.
    + by apply steady_createRelationship.
    + destruct Hst as [Hm Hun]. rewrite Hm in E.
      apply steady_not_in_batch; [|done]. cbn. rewrite E. by case_match.
  - intros _. destruct (issuelinks i) as [links|]; [|done].
    apply steady_for_each. intros. apply steady_handle_link.
Qed.

Lemma sweep_reports (rels : list deferred) (st : state T) :
  (∀ d, d ∈ rels → resolve (issueToWorkPackageMap st) d = None) →
  for_each (retry_one api) rels st
  = (Ok (), {| target_state := target_state st;
               issueToWorkPackageMap := issueToWorkPackageMap st;
               missingRelationships := missingRelationships st;
               log := log st ++ (StillMissing <$> rels) |}).
Proof.
  revert st. induction rels as [|rel rels IH]; intros st Hun.
  - cbn. rewrite app_nil_r. by destruct st.
  - cbn [for_each]. rewrite run_bind.
    assert (retry_one api rel st = emit (StillMissing rel) st) as ->.
    { pose proof (Hun rel ltac:(left)) as Hrel.
      destruct rel as [f t ty|f]; [|done]. cbn in Hrel.
      cbn [retry_one]. rewrite run_bind. cbn [lookup_id].
      rewrite run_bind. cbn [lookup_id].
      destruct (truthy_lookup (issueToWorkPackageMap st) f); [|done].
      by destruct (truthy_lookup (issueToWorkPackageMap st) t). }
    cbn [emit]. rewrite IH; [|intros d Hd; apply Hun; by right].
    cbn -[app]. by rewrite <- app_assoc.
Qed.

(** X4. On a target whose error answers are well formed, the sweep that
    follows the main pass never creates anything.  Whatever the main pass
    deferred has an endpoint that the identity map does not hold, and the
    map does not change between the pass and the sweep: the sweep reports
    each deferred element as still missing, empties the set, and sends
    nothing to the target. *)
Theorem sweep_only_reports (issues : list issue)
    (entries : list (string * ident)) (t : T) :
  createRelationships api issues entries (initial t)
  = (Ok (), reported (after_main_pass api issues entries (initial t))).
Proof.
  unfold after_main_pass, createRelationships, try_catch.
  rewrite (run_bind (seed entries)), (run_bind (seed entries)).
  pose proof (seed_run entries (initial t)) as [Hok _].
  pose proof (seed_keeps entries (initial t)) as [_ Hmiss].
  destruct (seed entries (initial t)) as [[[]|e] st1]; [|done].
  cbn [fst snd] in *.
  assert (unresolvable (issueToWorkPackageMap st1) st1) as H1.
  { split; [done|]. rewrite Hmiss. by intros d ?%elem_of_nil. }
  pose proof (steady_for_each _ (handleRelationships api) issues
                (steady_handleRelationships _) st1 H1) as [Hok2 [Hm2 Hun2]].
  rewrite run_bind.
  destruct (for_each (handleRelationships api) issues st1) as [[[]|e] st2];
    [|done].
  cbn [fst snd] in *. unfold retryMissingRelationships, reported.
  destruct (length (missingRelationships st2) =? 0)%nat; [done|].
  rewrite run_bind. cbn [emit]. rewrite run_bind. cbn [missing_take].
  rewrite sweep_reports.
  - cbn -[app]. by rewrite <- app_assoc.
  - cbn. intros d Hd. rewrite Hm2. by apply Hun2.
Qed.

End WellFormed.

End RelationshipRunFacts.

(** ** Whole runs of [migrateIssues] *)

Section SynchronizerRunFacts.

Import Synchronizer SynchronizerRuns.

Context (w : collaborators).

(** *** Every issue is counted once *)

Lemma settled_kept {A} (m : M state A) (n : nat) :
  (∀ st, settled (m st).2 = settled st) →
  preserves (λ st, settled st = n) m.
Proof. intros Hm st H. by rewrite Hm. Qed.

Ltac keeps_settled :=
  repeat first
    [ apply preserves_ret | apply preserves_throw | apply preserves_lift
    | apply settled_kept; reflexivity
    | apply preserves_bind | apply preserves_for_each
    | apply preserves_fold_m | apply preserves_try_catch
    | progress intros
    | match goal with
      | |- preserves _ (if ?b then _ else _) => destruct b
      | |- preserves _ (match ?x with _ => _ end) => destruct x
      end ].

Lemma settles_one_bind {A} (m : M state A) (k : A → M state unit) :
  (∀ n, preserves (λ st, settled st = n) m) →
  (∀ a, settles_one (k a)) → settles_one (m ≫= k).
Proof.
  intros Hm Hk st. rewrite run_bind. specialize (Hm (settled st) st eq_refl).
  destruct (m st) as [[a|e] st1]; cbn [snd] in Hm; [|done].
  specialize (Hk a st1). rewrite Hm in Hk. done.
Qed.

Lemma process_issue_settles_one (openProjectId : Z)
    (isProd skipUpdates mapResponsible : bool) (i : issue) :
  settles_one (process_issue w openProjectId isProd skipUpdates mapResponsible i).
Proof.
  unfold process_issue.
  apply settles_one_bind; [intros n; keeps_settled|]. intros existing.
  destruct existing as [id|], skipUpdates;
    try (intros st; unfold mbind, M_bind, emit, map_set, count_skipped, settled;
         cbn; lia);
    (apply settles_one_bind; [intros n; keeps_settled|]; intros _;
     apply settles_one_bind; [intros n; keeps_settled|]; intros raw;
     apply settles_one_bind;
       [intros n; unfold write_work_package, impersonated; keeps_settled|];
     intros wp;
     apply settles_one_bind; [intros n; keeps_settled|]; intros _;
     apply settles_one_bind;
       [intros n; unfold process_attachments, process_attachment, impersonated;
        keeps_settled|];
     intros table;
     apply settles_one_bind;
       [intros n; unfold finalize_description, impersonated; keeps_settled|];
     intros _;
     apply settles_one_bind;
       [intros n; unfold process_comments, process_comment, impersonated;
        keeps_settled|];
     intros _;
     apply settles_one_bind; [intros n; unfold add_watchers; keeps_settled|];
     intros _; intros st; unfold count_processed, settled; cbn; lia).
Qed.

(** X5. Every issue of a run ends in exactly one of the three outcomes:
    after [migrateIssues], the counters of completed, skipped and failed
    issues add up to the number of issues handed in, whatever the target
    answered and whichever issues threw. *)
Theorem every_issue_settles_once (openProjectId : Z)
    (isProd skipUpdates mapResponsible : bool) (jiraIssues : list issue)
    (st : state) :
  let final := (migrateIssues w openProjectId isProd skipUpdates mapResponsible
                  jiraIssues st).2 in
  processed final + skipped final + errors final
  = processed st + skipped st + errors st + length jiraIssues.
Proof.
  change (settled (migrateIssues w openProjectId isProd skipUpdates
                     mapResponsible jiraIssues st).2
          = settled st + length jiraIssues).
  unfold migrateIssues. revert st.
  induction jiraIssues as [|i l IH]; intros st; [cbn; lia|].
  cbn [for_each]. rewrite run_bind. unfold try_catch at 1.
  pose proof (process_issue_settles_one openProjectId isProd skipUpdates
                mapResponsible i st) as H.
  destruct (process_issue w openProjectId isProd skipUpdates mapResponsible i st)
    as [[[]|e] st1].
  - rewrite IH, H. cbn. lia.
  - cbn beta iota. rewrite run_bind. cbn [emit]. unfold count_error.
    rewrite IH. unfold settled in *. cbn. lia.
Qed.

(** *** Incremental runs *)

Lemma skip_step (openProjectId : Z) (isProd mapResponsible : bool) (i : issue)
    (id : ident) (st : state) :
  cache_get w (key i) = Some id →
  try_catch (process_issue w openProjectId isProd true mapResponsible i)
    (λ _, _ ← emit (ProcessingFailed (key i)); count_error) st
  = (Ok (), {| issueToWorkPackageMap := <[key i := id]> (issueToWorkPackageMap st);
               log := log st ++ [SkippedExisting (key i) id];
               processed := processed st; skipped := S (skipped st);
               errors := errors st;
               unknownStatusCount := unknownStatusCount st |}).
Proof.
  intros Hc. unfold try_catch, process_issue. rewrite run_bind.
  cbn [mret M_ret]. rewrite Hc. reflexivity.
Qed.

(** X6. An incremental run over issues that the cache already knows touches
    nothing: with [skipUpdates] set and every key in the cache, the run
    makes no call at all, in either mode; it logs one skip per issue, counts
    each issue as skipped and none as completed or failed, and records for
    every key the work package that the cache holds. *)
Theorem cached_issues_are_only_skipped (openProjectId : Z)
    (isProd mapResponsible : bool) (jiraIssues : list issue) (st : state) :
  Forall (λ i, is_Some (cache_get w (key i))) jiraIssues →
  let final := (migrateIssues w openProjectId isProd true mapResponsible
                  jiraIssues st).2 in
  log final
  = log st ++ omap (λ i, SkippedExisting (key i) <$> cache_get w (key i))
                jiraIssues
  ∧ skipped final = skipped st + length jiraIssues
  ∧ processed final = processed st
  ∧ errors final = errors st
  ∧ (∀ k, k ∈ key <$> jiraIssues →
          issueToWorkPackageMap final !! k = cache_get w k)
  ∧ (∀ k, k ∉ key <$> jiraIssues →
          issueToWorkPackageMap final !! k = issueToWorkPackageMap st !! k).
Proof.
  intros Hall. cbn zeta. unfold migrateIssues. revert st.
  induction Hall as [|i l [id Hid] _ IH]; intros st.
  - cbn. rewrite app_nil_r. split_and!; try done; try lia.
    by intros k ?%elem_of_nil.
  - cbn [for_each]. rewrite run_bind, (skip_step _ _ _ _ id) by done.
    destruct (IH {| issueToWorkPackageMap := <[key i := id]> (issueToWorkPackageMap st);
                    log := log st ++ [SkippedExisting (key i) id];
                    processed := processed st; skipped := S (skipped st);
                    errors := errors st;
                    unknownStatusCount := unknownStatusCount st |})
      as (Hlog & Hsk & Hpr & Her & Hin & Hout).
    cbn [log skipped processed errors issueToWorkPackageMap] in *.
    split_and!.
    + rewrite Hlog, <- app_assoc. cbn [omap list_omap]. rewrite Hid. done.
    + rewrite Hsk. cbn. lia.
    + done.
    + done.
    + intros k Hk. destruct (decide (k ∈ key <$> l)) as [Hl|Hl]; [by apply Hin|].
      rewrite Hout by done. rewrite fmap_cons in Hk.
      apply elem_of_cons in Hk as [->|Hk]; [|done].
      by rewrite lookup_insert_eq.
    + intros k Hk. rewrite fmap_cons in Hk. apply not_elem_of_cons in Hk as [Hne Hk].
      rewrite Hout by done. by rewrite lookup_insert_ne.
Qed.

(** *** An issue that cannot be converted *)

(** X7. An issue whose description cannot be converted fails before
    anything is written: it is reported and counted as an error, no
    mutation is attempted for it, no dry-run line is printed, and it gets no
    entry in the identity map.  The loop goes on with the next issue. *)
Theorem unconvertible_description_fails_early (openProjectId : Z)
    (isProd skipUpdates mapResponsible : bool) (i : issue)
    (rest : list issue) (e : exn) (st : state) :
  Converter.convertAtlassianDocumentToHtml (description i) = Throw e →
  (skipUpdates = true → cache_get w (key i) = None) →
  ∃ failed,
    migrateIssues w openProjectId isProd skipUpdates mapResponsible
      (i :: rest) st
    = migrateIssues w openProjectId isProd skipUpdates mapResponsible
        rest failed
    ∧ issueToWorkPackageMap failed = issueToWorkPackageMap st
    ∧ log failed
      = log st
        ++ (if skipUpdates then []
            else [Called (FindExistingWorkPackage (key i))])
        ++ [ProcessingFailed (key i)]
    ∧ errors failed = S (errors st)
    ∧ processed failed = processed st
    ∧ skipped failed = skipped st.
Proof.
  intros Hthrow Hnew. unfold migrateIssues at 1. cbn [for_each].
  rewrite run_bind. fold (migrateIssues w openProjectId isProd skipUpdates
                            mapResponsible rest).
  unfold try_catch, process_issue. rewrite run_bind.
  destruct skipUpdates.
  - cbn [mret M_ret]. rewrite (Hnew eq_refl). rewrite run_bind.
    destruct (bool_decide _); cbn [count_unknown_status mret M_ret];
      rewrite run_bind; unfold lift at 1; rewrite Hthrow;
      rewrite run_bind; cbn [emit]; unfold count_error;
      eexists; (split; [reflexivity|]); cbn; rewrite <- ?app_assoc; done.
  - rewrite run_bind. cbn [emit mret M_ret].
    destruct (findExistingWorkPackage w (key i)) as [id|];
      rewrite run_bind;
      destruct (bool_decide _); cbn [count_unknown_status mret M_ret];
      rewrite run_bind; unfold lift at 1; rewrite Hthrow;
      rewrite run_bind; cbn [emit]; unfold count_error;
      eexists; (split; [reflexivity|]); cbn; rewrite <- ?app_assoc; done.
Qed.

(** *** Work packages are created only for keys that were not found *)

Lemma emit_follows (skipUpdates : bool) (e : event) :
  write_follows_lookup w skipUpdates e →
  preserves (λ st, Forall (write_follows_lookup w skipUpdates) (log st)) (emit e).
Proof.
  intros He st H. cbn. apply Forall_app. split; [done|]. by apply Forall_singleton.
Qed.

Lemma log_kept_follows {A} (skipUpdates : bool) (m : M state A) :
  (∀ st, log (m st).2 = log st) →
  preserves (λ st, Forall (write_follows_lookup w skipUpdates) (log st)) m.
Proof. intros Hm st H. by rewrite Hm. Qed.

Ltac follows :=
  repeat first
    [ apply preserves_ret | apply preserves_throw | apply preserves_lift
    | apply emit_follows; first [exact I | assumption]
    | apply log_kept_follows; reflexivity
    | apply preserves_bind | apply preserves_for_each
    | apply preserves_fold_m | apply preserves_try_catch
    | progress intros
    | match goal with
      | |- preserves _ (if ?b then _ else _) => destruct b
      | |- preserves _ (match ?x with _ => _ end) => destruct x
      end ].

Lemma write_work_package_follows (openProjectId : Z)
    (isProd skipUpdates mapResponsible : bool) (i : issue) (raw : string) :
  preserves (λ st, Forall (write_follows_lookup w skipUpdates) (log st))
    (write_work_package w isProd i (existing_of w skipUpdates (key i))
       (build_payload w openProjectId mapResponsible i raw)).
Proof.
  unfold write_work_package, impersonated.
  destruct (existing_of w skipUpdates (key i)) as [id|] eqn:E;
    assert (write_follows_lookup w skipUpdates
              (DryRun (WouldCreateOrUpdate
                         (build_payload w openProjectId mapResponsible i raw))))
      by exact I;
    follows; apply emit_follows; exact E.
Qed.

Lemma process_issue_follows (openProjectId : Z)
    (isProd skipUpdates mapResponsible : bool) (i : issue) :
  preserves (λ st, Forall (write_follows_lookup w skipUpdates) (log st))
    (process_issue w openProjectId isProd skipUpdates mapResponsible i).
Proof.
  assert (∀ existing,
            existing = existing_of w skipUpdates (key i) →
            preserves (λ st, Forall (write_follows_lookup w skipUpdates) (log st))
              (match existing, skipUpdates with
               | Some id, true =>
                   _ ← emit (SkippedExisting (key i) id);
                   _ ← map_set (key i) id;
                   count_skipped
               | _, _ =>
                   _ ← (if bool_decide (getWorkPackageStatusId w (status_name i)
                                        = getWorkPackageStatusId w "unknown")
                        then count_unknown_status else mret tt);
                   raw ← lift (Converter.convertAtlassianDocumentToHtml (description i));
                   let p := build_payload w openProjectId mapResponsible i raw in
                   workPackageId ← write_work_package w isProd i existing p;
                   _ ← map_set (key i) workPackageId;
                   attachmentIdMap ← process_attachments w isProd i workPackageId;
                   _ ← finalize_description w isProd i workPackageId raw attachmentIdMap;
                   _ ← process_comments w isProd i workPackageId attachmentIdMap;
                   _ ← add_watchers w isProd i workPackageId;
                   count_processed
               end)) as Hrest.
  { intros existing ->.
    assert (∀ raw, preserves
              (λ st, Forall (write_follows_lookup w skipUpdates) (log st))
              (workPackageId ← write_work_package w isProd i
                                 (existing_of w skipUpdates (key i))
                                 (build_payload w openProjectId mapResponsible i raw);
               _ ← map_set (key i) workPackageId;
               attachmentIdMap ← process_attachments w isProd i workPackageId;
               _ ← finalize_description w isProd i workPackageId raw attachmentIdMap;
               _ ← process_comments w isProd i workPackageId attachmentIdMap;
               _ ← add_watchers w isProd i workPackageId;
               count_processed)) as Hwrite.
    { intros raw. apply preserves_bind; [apply write_work_package_follows|].
      intros wp.
      unfold process_attachments, process_attachment, finalize_description,
        process_comments, process_comment, add_watchers, impersonated.
      follows. }
    destruct (existing_of w skipUpdates (key i)) as [id|] eqn:E, skipUpdates;
      try (follows; fail);
      (apply preserves_bind; [follows|]; intros _;
       apply preserves_bind; [follows|]; intros raw; apply Hwrite). }
  unfold process_issue. destruct skipUpdates.
  - intros st Hst. rewrite run_bind. cbn [mret M_ret]. by apply Hrest.
  - intros st Hst. rewrite run_bind, run_bind. cbn [emit mret M_ret].
    apply Hrest; [done|]. cbn. apply Forall_app. split; [done|].
    by apply Forall_singleton.
Qed.

(** X8. A run writes a work package only as its lookup said: it creates one
    only for a key for which the lookup of this run (the cache when
    [skipUpdates] is set, the query of the target otherwise) found nothing,
    and every update goes to the work package that the lookup found for the
    key.  So a key that the target is known to hold is never created a
    second time. *)
Theorem writes_follow_the_lookup (openProjectId : Z)
    (isProd skipUpdates mapResponsible : bool) (jiraIssues : list issue) :
  Forall (write_follows_lookup w skipUpdates)
    (log (migrateIssues w openProjectId isProd skipUpdates mapResponsible
            jiraIssues initial).2).
Proof.
  unfold migrateIssues.
  apply (preserves_for_each
           (λ st, Forall (write_follows_lookup w skipUpdates) (log st)));
    [|by apply Forall_nil].
  intros i. apply preserves_try_catch; [apply process_issue_follows|].
  follows.
Qed.

(** *** Attachments and comments that the target already holds *)

Lemma table_set_same (k : string) (v : attachment_id)
    (t : list (string * attachment_id)) :
  (k, v) ∈ table_set k v t.
Proof.
  induction t as [|[k' v'] t IH]; cbn; [by left|].
  destruct (String.eqb k' k) eqn:E.
  - apply String.eqb_eq in E as ->. by left.
  - by right.
Qed.

Lemma table_set_other (k k' : string) (v v' : attachment_id)
    (t : list (string * attachment_id)) :
  k' ≠ k → (k', v') ∈ t → (k', v') ∈ table_set k v t.
Proof.
  intros Hne. induction t as [|[k0 v0] t IH]; cbn; [by intros ?%elem_of_nil|].
  intros [[= <- <-]|Hin]%elem_of_cons.
  - destruct (String.eqb k' k) eqn:E; [by apply String.eqb_eq in E|by left].
  - destruct (String.eqb k0 k); right; [done|by apply IH].
Qed.

Lemma reuse_step (isProd : bool) (i : issue) (wp : ident)
    (existing : list op_attachment) (table : list (string * attachment_id))
    (a : jira_attachment) (e : op_attachment) (st : state) :
  held existing (filename a) = Some e →
  process_attachment w isProd i wp existing table a st
  = (Ok (table_set (filename a) (AttachmentId (existing_id e)) table), st).
Proof. intros He. unfold process_attachment. unfold held in He. by rewrite He. Qed.

Lemma reuse_fold (isProd : bool) (i : issue) (wp : ident)
    (existing : list op_attachment) (atts : list jira_attachment)
    (table : list (string * attachment_id)) (st : state) :
  Forall (λ a, is_Some (held existing (filename a))) atts →
  ∃ table',
    fold_m (process_attachment w isProd i wp existing) atts table st
    = (Ok table', st)
    ∧ (∀ k e, held existing k = Some e →
              (k, AttachmentId (existing_id e)) ∈ table →
              (k, AttachmentId (existing_id e)) ∈ table')
    ∧ (∀ a, a ∈ atts →
            ∃ e, held existing (filename a) = Some e
                 ∧ (filename a, AttachmentId (existing_id e)) ∈ table').
Proof.
  intros Hall. revert table.
  induction Hall as [|a atts [e He] _ IH]; intros table.
  - exists table. split_and!; [done|done|by intros a ?%elem_of_nil].
  - cbn [fold_m]. rewrite run_bind, (reuse_step _ _ _ _ _ _ e) by done.
    destruct (IH (table_set (filename a) (AttachmentId (existing_id e)) table))
      as (table' & Hrun & Hkeep & Hin).
    exists table'. split_and!; [done| |].
    + intros k e' Hk Hk'. apply Hkeep; [done|].
      destruct (decide (k = filename a)) as [->|Hne].
      * assert (e' = e) as -> by congruence. apply table_set_same.
      * by apply table_set_other.
    + intros a' [->|Ha']%elem_of_cons; [|by apply Hin].
      exists e. split; [done|]. apply Hkeep; [done|]. apply table_set_same.
Qed.

(** X9. Attachments that the work package already holds are reused, not
    uploaded again: in live mode, when every attachment of the issue has a
    file of the same name on the target, the attachment phase only reads
    the list of existing attachments; it downloads and uploads nothing, and
    the table it returns maps each file name to the id of the file that is
    already there. *)
Theorem existing_attachments_are_reused (i : issue)
    (atts : list jira_attachment) (wp : ident) (st : state) :
  attachment i = Some atts →
  Forall (λ a, is_Some (held (getExistingAttachments w wp) (filename a))) atts →
  ∃ table,
    process_attachments w true i wp st
    = (Ok table,
       match atts with
       | [] => st
       | _ :: _ => (emit (Called (GetExistingAttachments wp)) st).2
       end)
    ∧ (∀ a, a ∈ atts →
            ∃ e, held (getExistingAttachments w wp) (filename a) = Some e
                 ∧ (filename a, AttachmentId (existing_id e)) ∈ table).
Proof.
  intros Ha Hall. unfold process_attachments. rewrite Ha.
  destruct atts as [|a rest].
  - exists []. split; [done|]. by intros a ?%elem_of_nil.
  - rewrite run_bind, run_bind. cbn [emit mret M_ret].
    match goal with |- context [fold_m _ _ _ ?s] =>
      destruct (reuse_fold true i wp (getExistingAttachments w wp) (a :: rest)
                  [] s Hall) as (table & Hrun & _ & Hin) end.
    exists table. by rewrite Hrun.
Qed.

Lemma marked_step (isProd : bool) (wp : ident)
    (table : list (string * attachment_id)) (migrated : list string)
    (c : jira_comment) (st : state) :
  is_Some (author c) → comment_id c ∈ migrated →
  process_comment w isProd wp table migrated c st = (Ok (), st).
Proof.
  intros [u Hu] Hin. unfold process_comment, impersonated. rewrite Hu.
  rewrite run_bind. cbn [mret M_ret]. by rewrite bool_decide_true.
Qed.

(** X10. Comments that carry a marker on the target are not posted again:
    in live mode, when every comment of the issue has an author and its id
    is the one captured from the marker of some comment of the work package,
    the comment phase only reads the existing comments and posts nothing. *)
Theorem migrated_comments_are_not_posted_again (i : issue)
    (cs : list jira_comment) (wp : ident)
    (table : list (string * attachment_id)) (st : state) :
  comments i = Some cs →
  Forall (λ c, is_Some (author c)
               ∧ Some (comment_id c) ∈ getExistingComments w wp) cs →
  process_comments w true i wp table st
  = (Ok (),
     match cs with
     | [] => st
     | _ :: _ => (emit (Called (GetExistingComments wp)) st).2
     end).
Proof.
  intros Hc Hall. unfold process_comments. rewrite Hc.
  destruct cs as [|c rest]; [done|].
  rewrite run_bind, run_bind. cbn [emit mret M_ret snd].
  match goal with |- for_each _ _ ?s = _ => generalize s end.
  revert Hall. generalize (c :: rest). clear. intros cs Hall.
  induction Hall as [|c cs [Hau Hid] _ IH]; intros s; [done|].
  cbn [for_each]. rewrite run_bind, marked_step; [apply IH|done|].
  apply list_elem_of_omap. by exists (Some (comment_id c)).
Qed.

End SynchronizerRunFacts.

(** ** More on the document converter *)

Section ConverterTextFacts.

Import Converter.

Lemma count_replaced (c d : ascii) (r s : string) :
  Str.count_char c r = 0%nat →
  Str.count_char c (Str.replace_all_char d r s)
  = (if Ascii.eqb d c then 0 else Str.count_char c s)%nat.
Proof.
  intros Hr. induction s as [|a s IH]; cbn [Str.replace_all_char Str.count_char].
  - by destruct (Ascii.eqb d c).
  - rewrite count_char_app, IH. destruct (Ascii.eqb a d) eqn:E.
    + apply Ascii.eqb_eq in E as ->. rewrite Hr. by destruct (Ascii.eqb d c).
    + cbn [Str.count_char]. destruct (Ascii.eqb d c) eqn:E'; [|lia].
      apply Ascii.eqb_eq in E' as ->. rewrite E. lia.
Qed.

Lemma replace_all_char_absent (c : ascii) (r s : string) :
  Str.count_char c s = 0%nat → Str.replace_all_char c r s = s.
Proof.
  induction s as [|a s IH]; cbn [Str.replace_all_char Str.count_char]; [done|].
  destruct (Ascii.eqb a c); [done|]. intros H. by rewrite IH.
Qed.

(** X11. Text never opens or closes a tag: the markup of a text node
    without marks is its text with every angle bracket replaced by an
    entity, so it holds no angle bracket at all; escaping text that is
    already escaped changes nothing (the ampersand itself is not
    escaped). *)
Theorem escaped_text_has_no_angle_bracket (t : string)
    (attrs : option node_attrs) :
  processNode (Node (Some "text") (Some t) None attrs None) = Ok (escape t)
  ∧ Str.count_char "<"%char (escape t) = 0%nat
  ∧ Str.count_char ">"%char (escape t) = 0%nat
  ∧ escape (escape t) = escape t.
Proof.
  assert (Str.count_char "<"%char (escape t) = 0%nat
          ∧ Str.count_char ">"%char (escape t) = 0%nat) as [Hlt Hgt].
  { unfold escape. by rewrite !count_replaced by done. }
  split_and!; [done..|].
  unfold escape at 1.
  rewrite (replace_all_char_absent "<"%char) by done.
  by rewrite replace_all_char_absent.
Qed.

Lemma string_app_assoc (a b c : string) : (a +:+ b) +:+ c = a +:+ (b +:+ c).
Proof.
  induction a as [|x a IH]; [done|].
  change (String x ((a +:+ b) +:+ c) = String x (a +:+ (b +:+ c))).
  by f_equal.
Qed.

Lemma string_app_nil_r (a : string) : a +:+ EmptyString = a.
Proof.
  induction a as [|x a IH]; [done|].
  change (String x (a +:+ EmptyString) = String x a). by f_equal.
Qed.

Lemma map_join_app {A} (f : A → result string) (l1 l2 : list A) :
  map_join f (l1 ++ l2)
  = (s1 ← map_join f l1; s2 ← map_join f l2; mret (s1 +:+ s2)).
Proof.
  induction l1 as [|x l1 IH]; cbn [map_join app].
  - cbn. by destruct (map_join f l2).
  - destruct (f x) as [s|e]; cbn; [|done]. fold (map_join f).
    rewrite IH. destruct (map_join f l1) as [s1|e]; cbn; [|done].
    destruct (map_join f l2) as [s2|e]; cbn; [|done].
    by rewrite string_app_assoc.
Qed.

(** X12. The converter renders the children of a node from left to right
    and joins what they give: the markup of a document whose children are
    [l1] followed by [l2] is the markup of the document of [l1] followed by
    that of the document of [l2], and it throws as soon as one of the two
    does, the left one first. *)
Theorem document_markup_is_concatenated (l1 l2 : list node) :
  convertAtlassianDocumentToHtml
    (DocNode (Node (Some "doc") None None None (Some (l1 ++ l2))))
  = (h1 ← convertAtlassianDocumentToHtml
            (DocNode (Node (Some "doc") None None None (Some l1)));
     h2 ← convertAtlassianDocumentToHtml
            (DocNode (Node (Some "doc") None None None (Some l2)));
     mret (h1 +:+ h2)).
Proof.
  cbn [convertAtlassianDocumentToHtml processNode opt_truthy String.eqb negb
         Ascii.eqb Bool.eqb template_opt].
  change (kind_of "doc") with KDoc. cbn [render].
  rewrite map_join_app.
  destruct (map_join processNode l1) as [s1|e]; cbn; [|done].
  by destruct (map_join processNode l2) as [s2|e].
Qed.

Lemma is_prefix_app (p s : string) : Str.is_prefix p (p +:+ s) = true.
Proof. induction p as [|a p IH]; simpl; [done|]. by rewrite Ascii.eqb_refl. Qed.

Lemma drop_app (p s : string) : Str.drop (String.length p) (p +:+ s) = s.
Proof. induction p as [|a p IH]; simpl; done. Qed.

Lemma replace_unfold (p r s : string) :
  Str.replace p r s
  = if Str.is_prefix p s then r +:+ Str.drop (String.length p) s
    else match s with
         | EmptyString => EmptyString
         | String c s' => String c (Str.replace p r s')
         end.
Proof. by destruct s. Qed.

(** X13. From a media reference to the image: for every non-empty file
    name, a document that shows the attachment once is converted to a
    paragraph holding the placeholder of that file, and the substitution
    with the id of the uploaded file turns exactly that placeholder into
    the image markup of that id. *)
Theorem media_reference_becomes_image (file : string)
    (id : Synchronizer.attachment_id) :
  file ≠ EmptyString →
  convertAtlassianDocumentToHtml
    (DocNode (Node (Some "doc") None None None (Some [media_node file])))
  = Ok ("<p>" +:+ placeholder file +:+ "</p>")
  ∧ Synchronizer.substitute [(file, id)] ("<p>" +:+ placeholder file +:+ "</p>")
    = "<p>" +:+ Synchronizer.imageTag id +:+ "</p>".
Proof.
  intros Hfile. split.
  - cbn [convertAtlassianDocumentToHtml processNode media_node opt_truthy
           String.eqb negb Ascii.eqb Bool.eqb template_opt map_join].
    change (kind_of "doc") with KDoc. change (kind_of "mediaSingle") with KMediaSingle.
    change (kind_of "media") with KMedia.
    cbn [mbind result_bind mret result_ret render attrs_type alt String.eqb
           Ascii.eqb Bool.eqb andb opt_truthy template_opt].
    destruct (String.eqb file EmptyString) eqn:E; [by apply String.eqb_eq in E|].
    cbn. by rewrite !string_app_nil_r.
  - unfold Synchronizer.substitute. cbn [fold_left fst snd].
    assert (∃ q, placeholder file = String "{" q) as [q Hq]
      by (eexists; reflexivity).
    change ("<p>" +:+ placeholder file +:+ "</p>")
      with (String "<" (String "p" (String ">" (placeholder file +:+ "</p>")))).
    assert (∀ c s, c ≠ "{"%char →
              Str.replace (placeholder file) (Synchronizer.imageTag id) (String c s)
              = String c (Str.replace (placeholder file) (Synchronizer.imageTag id) s))
      as Hskip.
    { intros c s Hc. rewrite Hq. cbn [Str.replace Str.is_prefix].
      destruct (Ascii.eqb "{" c) eqn:E; [by apply Ascii.eqb_eq in E|done]. }
    rewrite !Hskip by done.
    by rewrite replace_unfold, is_prefix_app, drop_app.
Qed.

End ConverterTextFacts.

(** ** Vocabulary of the target *)

Section VocabularyFacts.

Import Vocabulary.

Lemma find_named_member (vocabulary : list entry) (m : option string)
    (x : entry) :
  find_named vocabulary m = Ok (Some x) → x ∈ vocabulary.
Proof.
  destruct vocabulary as [|y l], m as [m|]; unfold find_named; try done.
  intros [= H]. case_match; [injection H as ->; by left|].
  right. apply find_some in H as [Hin _]. by apply list_elem_of_In.
Qed.

Lemma mapped_is_Some (mapping : list (string * string)) (fallback k : string) :
  k ∉ inherited → is_Some (mapped mapping fallback k).
Proof.
  intros Hk. unfold mapped. case_match; [done|].
  by rewrite bool_decide_false.
Qed.

Lemma mapped_inherited (fallback k : string) :
  k ∈ inherited →
  mapped typeMapping fallback k = None
  ∧ mapped statusMapping fallback k = None
  ∧ mapped priorityMapping fallback k = None.
Proof.
  intros Hk. unfold inherited in Hk.
  repeat (apply elem_of_cons in Hk as [->|Hk]; [by vm_compute|]).
  by apply elem_of_nil in Hk.
Qed.

Lemma first_id_member (vocabulary : list entry) (z : Z) :
  first_id vocabulary = Ok z → ∃ x, x ∈ vocabulary ∧ id x = z.
Proof.
  destruct vocabulary as [|x l]; [done|]. intros [= <-]. exists x.
  split; [by left|done].
Qed.

(** X14. The type and the status of a work package always come from the
    target: whenever [getWorkPackageTypeId] or [getWorkPackageStatusId]
    returns, the id is that of an element of the loaded vocabulary, also
    when the name is unmapped or the mapped name is unknown to the target.
    They return exactly when the vocabulary is not empty and the name is
    not a property name that every object inherits; otherwise they throw. *)
Theorem type_and_status_ids_come_from_the_target (vocabulary : list entry)
    (k : string) :
  (is_ok (getWorkPackageTypeId vocabulary k)
   = bool_decide (vocabulary ≠ [] ∧ k ∉ inherited))
  ∧ (is_ok (getWorkPackageStatusId vocabulary k)
     = bool_decide (vocabulary ≠ [] ∧ k ∉ inherited))
  ∧ (∀ z, getWorkPackageTypeId vocabulary k = Ok z →
          ∃ x, x ∈ vocabulary ∧ id x = z)
  ∧ (∀ z, getWorkPackageStatusId vocabulary k = Ok z →
          ∃ x, x ∈ vocabulary ∧ id x = z).
Proof.
  assert (∀ mapping fallback,
            (mapping = typeMapping ∨ mapping = statusMapping) →
            let get := (obj ← find_named vocabulary (mapped mapping fallback k);
                        match obj with
                        | Some t => Ok (id t)
                        | None => first_id vocabulary
                        end) in
            is_ok get = bool_decide (vocabulary ≠ [] ∧ k ∉ inherited)
            ∧ ∀ z, get = Ok z → ∃ x, x ∈ vocabulary ∧ id x = z) as H.
  { intros mapping fallback Hmap get. subst get. split.
    - destruct (decide (k ∈ inherited)) as [Hk|Hk].
      + assert (mapped mapping fallback k = None) as ->.
        { destruct (mapped_inherited fallback k Hk) as (? & ? & ?).
          by destruct Hmap as [-> | ->]. }
        rewrite bool_decide_false by (by intros [_ ?]).
        by destruct vocabulary.
      + destruct (mapped_is_Some mapping fallback k Hk) as [m ->].
        destruct vocabulary as [|y l].
        * by rewrite bool_decide_false by (by intros [? _]).
        * rewrite bool_decide_true by done.
          cbn [find_named mbind result_bind]. by case_match.
    - intros z.
      destruct (find_named vocabulary (mapped mapping fallback k))
        as [[x|]|e] eqn:E; cbn [mbind result_bind]; [| |done].
      + intros [= <-]. exists x. split; [|done]. by eapply find_named_member.
      + apply first_id_member. }
  destruct (H typeMapping "Task" (or_introl eq_refl)) as [H1 H2].
  destruct (H statusMapping "New" (or_intror eq_refl)) as [H3 H4].
  done.
Qed.

Lemma mapped_unmapped (mapping : list (string * string)) (fallback k : string) :
  unmapped mapping k → mapped mapping fallback k = Some fallback.
Proof.
  intros [Hk Hi]. unfold mapped. rewrite bool_decide_false by done.
  case_match eqn:E; [|done]. exfalso. apply Hk.
  apply find_some in E as [Hin Heq]. apply String.eqb_eq in Heq as <-.
  apply list_elem_of_fmap_2. by apply list_elem_of_In.
Qed.

(** X15. Every status name that the status mapping does not know gets the
    status that the probe name "unknown" gets, which is what the run counts
    as an unknown status: the status named New when the target has one,
    else the first status of the target.  In the same way an unmapped type
    name is treated as Task and an unmapped priority name as Normal. *)
Theorem unmapped_names_fall_back (vocabulary : list entry) (k : string) :
  (unmapped statusMapping k →
   getWorkPackageStatusId vocabulary k
   = getWorkPackageStatusId vocabulary "unknown"
   ∧ getWorkPackageStatusId vocabulary k
     = getWorkPackageStatusId vocabulary "New")
  ∧ (unmapped typeMapping k →
     getWorkPackageTypeId vocabulary k = getWorkPackageTypeId vocabulary "Task")
  ∧ (unmapped priorityMapping k →
     getWorkPackagePriorityId vocabulary (Some k)
     = getWorkPackagePriorityId vocabulary (Some "Medium")).
Proof.
  split_and!; intros Hk.
  - unfold getWorkPackageStatusId. rewrite (mapped_unmapped _ _ _ Hk). done.
  - unfold getWorkPackageTypeId. rewrite (mapped_unmapped _ _ _ Hk). done.
  - unfold getWorkPackagePriorityId. rewrite (mapped_unmapped _ _ _ Hk). done.
Qed.

(** X16. The priority lookup does not fail on a target without
    priorities: an issue without priority gets [null]; for a name that is
    no inherited property name the lookup returns, and what it returns is
    the id of a priority of the target, or [undefined] when no priority
    matches and the target declares no default. *)
Theorem priority_lookup_returns (vocabulary : list entry) (k : string) :
  k ∉ inherited →
  getWorkPackagePriorityId vocabulary None = Ok PriorityNull
  ∧ ∃ answer,
      getWorkPackagePriorityId vocabulary (Some k) = Ok answer
      ∧ match answer with
        | PriorityId z => ∃ p, p ∈ vocabulary ∧ id p = z
        | PriorityUndefined => Forall (λ p, isDefault p = false) vocabulary
        | PriorityNull => False
        end.
Proof.
  intros Hk. split; [done|]. unfold getWorkPackagePriorityId.
  destruct (mapped_is_Some priorityMapping "Normal" k Hk) as [m ->].
  destruct (find_named vocabulary (Some m)) as [[p|]|e] eqn:E;
    cbn [mbind result_bind].
  - eexists. split; [done|]. exists p. split; [|done]. by eapply find_named_member.
  - eexists. split; [done|].
    destruct (find isDefault vocabulary) as [p|] eqn:F.
    + apply find_some in F as [Hin _]. exists p. split; [|done].
      by apply list_elem_of_In.
    + apply Forall_forall. intros p Hp.
      apply list_elem_of_In in Hp.
      pose proof (find_none _ _ F p Hp) as H. by destruct (isDefault p).
  - by destruct vocabulary.
Qed.

Lemma find_same_up_to_case (m : string) (v1 v2 : list entry) :
  same_up_to_case v1 v2 →
  id <$> find (λ x, String.eqb (Str.toLowerCase (name x)) (Str.toLowerCase m)) v1
  = id <$> find (λ x, String.eqb (Str.toLowerCase (name x)) (Str.toLowerCase m)) v2.
Proof.
  induction 1 as [|a b v1 v2 [Hid Hname] _ IH]; [done|].
  cbn [find]. rewrite Hname. case_match; [cbn; by f_equal|done].
Qed.

(** X17. Names of the target are compared without regard to letter case:
    two vocabularies with the same ids in the same order whose names differ
    in the case of their letters only give the same type id and the same
    status id for every name. *)
Theorem vocabulary_names_ignore_case (v1 v2 : list entry) (k : string) :
  same_up_to_case v1 v2 →
  getWorkPackageTypeId v1 k = getWorkPackageTypeId v2 k
  ∧ getWorkPackageStatusId v1 k = getWorkPackageStatusId v2 k.
Proof.
  intros Hv.
  assert (∀ m, (obj ← find_named v1 m;
                match obj with Some t => Ok (id t) | None => first_id v1 end)
               = (obj ← find_named v2 m;
                  match obj with Some t => Ok (id t) | None => first_id v2 end))
    as H; [|split; apply H].
  intros [m|].
  - pose proof (find_same_up_to_case m v1 v2 Hv) as Hf.
    destruct Hv as [|a b v1 v2 [Hid Hname] Hv]; [done|].
    cbn [find_named mbind result_bind first_id].
    destruct (find _ (a :: v1)) as [x|], (find _ (b :: v2)) as [y|];
      cbn in Hf; try done; congruence.
  - by destruct Hv.
Qed.

End VocabularyFacts.

(** ** The cache of work packages *)

Section CacheFacts.

Import Cache.

Lemma index_page_app (m : gmap string work_package) (l1 l2 : list work_package) :
  index_page m (l1 ++ l2) = index_page (index_page m l1) l2.
Proof. apply foldl_app. Qed.

Lemma reached_lt (len n : nat) :
  (len < n)%nat → reached len (Some (Z.of_nat n)) = false.
Proof. intros H. cbn. apply Z.leb_gt. lia. Qed.

Lemma reached_ge (len n : nat) :
  (n ≤ len)%nat → reached len (Some (Z.of_nat n)) = true.
Proof. intros H. cbn. apply Z.leb_le. lia. Qed.

(** The loop over the pages that do not end it. *)
Lemma fetch_steps (get_page : nat → result page) (n : nat)
    (pre : list (list work_package)) (fuel pageNo : nat)
    (total : option (option Z)) (all : list work_package)
    (m : gmap string work_package) :
  Forall (λ p, p ≠ []) pre →
  (∀ i p, pre !! i = Some p →
          ∃ response, get_page (pageNo + i)%nat = Ok response
                      ∧ Cache.total response = Some (Z.of_nat n)
                      ∧ elements response = Some p) →
  total = None ∨ total = Some (Some (Z.of_nat n)) →
  (length all + length (concat pre) < n)%nat →
  fetch get_page (length pre + fuel) pageNo total all m
  = fetch get_page fuel (pageNo + length pre)
      (match pre with [] => total | _ :: _ => Some (Some (Z.of_nat n)) end)
      (all ++ concat pre) (index_page m (concat pre)).
Proof.
  intros Hne. revert pageNo total all m.
  induction Hne as [|p pre Hp _ IH]; intros pageNo total all m Hget Htot Hlen.
  - cbn. by rewrite Nat.add_0_r, app_nil_r.
  - destruct (Hget 0%nat p eq_refl) as (r & Hr & Hrt & Hre).
    rewrite Nat.add_0_r in Hr.
    cbn [length Nat.add fetch concat]. rewrite Hr, Hre.
    destruct p as [|wp p]; [done|].
    assert (match total with None => Cache.total r | Some t => t end
            = Some (Z.of_nat n)) as ->.
    { destruct Htot as [-> | ->]; done. }
    cbn [concat] in Hlen. rewrite !length_app in Hlen.
    rewrite reached_lt by (rewrite length_app; lia).
    rewrite IH.
    + rewrite <- Nat.add_succ_comm, index_page_app, <- app_assoc.
      by destruct pre.
    + intros i q Hq. specialize (Hget (S i) q Hq).
      by rewrite <- Nat.add_succ_comm in Hget.
    + by right.
    + rewrite length_app. lia.
Qed.

Lemma serves_page (pages : list (list work_package))
    (get_page : nat → result page) (i : nat) (p : list work_package) :
  serves pages get_page → pages !! i = Some p →
  ∃ response, get_page (1 + i)%nat = Ok response
              ∧ total response = Some (Z.of_nat (length (concat pages)))
              ∧ elements response = Some p.
Proof.
  intros Hs Hp. destruct (Hs i) as (r & Hr & Ht & He). rewrite Hp in He.
  by exists r.
Qed.

Lemma index_page_sound (l : list work_package) (m : gmap string work_package)
    (k : string) (wp : work_package) :
  index_page m l !! k = Some wp →
  m !! k = Some wp ∨ (wp ∈ l ∧ jiraId wp = Some k ∧ k ≠ EmptyString).
Proof.
  revert m. induction l as [|x l IH]; intros m; cbn [index_page foldl];
    [by left|].
  intros H. apply IH in H as [H|(? & ? & ?)]; [|right; split_and!; [by right|done..]].
  destruct (jiraId x) as [kx|] eqn:Ex; [|by left].
  destruct (String.eqb kx EmptyString) eqn:E; [by left|].
  apply String.eqb_neq in E.
  destruct (decide (kx = k)) as [->|Hne].
  - rewrite lookup_insert_eq in H. injection H as ->. right.
    split_and!; [by left|done..].
  - rewrite lookup_insert_ne in H by done. by left.
Qed.

Lemma index_page_complete (l : list work_package) (m : gmap string work_package)
    (k : string) :
  k ≠ EmptyString →
  is_Some (m !! k) ∨ (∃ wp, wp ∈ l ∧ jiraId wp = Some k) →
  is_Some (index_page m l !! k).
Proof.
  intros Hk. revert m. induction l as [|x l IH]; intros m; cbn [index_page foldl].
  - intros [H|(wp & []%elem_of_nil & _)]. done.
  - intros H. apply IH.
    destruct (decide (jiraId x = Some k)) as [Hx|Hx].
    + left. rewrite Hx. apply String.eqb_neq in Hk. rewrite Hk.
      by rewrite lookup_insert_eq.
    + destruct H as [H|(wp & [->|Hin]%elem_of_cons & Hwp)]; [|done|right; eauto].
      left. destruct (jiraId x) as [kx|]; [|done].
      destruct (String.eqb kx EmptyString); [done|].
      rewrite lookup_insert_ne; [done|]. congruence.
Qed.

(** X18. Against a target that serves its work packages page by page and
    reports their number, the caching loop ends, after one request per
    page, and the cache is right: every key of the cache is the Jira key
    carried by the work package it maps to, which is one of those served,
    and every served work package that carries a Jira key is found under
    that key (the last one served when several carry it).  Work packages
    without a Jira key are left out. *)
Theorem cache_indexes_the_served_work_packages
    (pages : list (list work_package)) (get_page : nat → result page)
    (fuel : nat) :
  Forall (λ p, p ≠ []) pages →
  serves pages get_page →
  (length pages ≤ fuel)%nat → (0 < fuel)%nat →
  getOpenProjectWorkPackages get_page fuel
  = Some (Ok (index_page ∅ (concat pages)))
  ∧ (∀ k wp, index_page ∅ (concat pages) !! k = Some wp →
             wp ∈ concat pages ∧ jiraId wp = Some k)
  ∧ (∀ k wp, wp ∈ concat pages → jiraId wp = Some k → k ≠ EmptyString →
             is_Some (index_page ∅ (concat pages) !! k)).
Proof.
  intros Hne Hs Hfuel Hpos. split_and!.
  - unfold getOpenProjectWorkPackages.
    destruct (decide (pages = [])) as [->|Hpages].
    + destruct fuel as [|fuel]; [lia|]. cbn [fetch].
      destruct (Hs 0%nat) as (r & -> & _ & [-> | ->]); done.
    + destruct (exists_last Hpages) as (pre & last & ->).
      rewrite length_app in Hfuel. cbn in Hfuel.
      apply Forall_app in Hne as [Hpre Hlast].
      apply Forall_inv in Hlast.
      replace fuel with (length pre + S (fuel - length pre - 1))%nat by lia.
      rewrite (fetch_steps get_page (length (concat (pre ++ [last]))) pre).
      * destruct (serves_page _ _ (length pre) last Hs) as (r & Hr & Ht & He).
        { by rewrite lookup_app_r, Nat.sub_diag. }
        cbn [fetch]. rewrite Hr, He. destruct last as [|wp last]; [done|].
        assert (match (match pre with
                       | [] => None
                       | _ :: _ => Some (Some (Z.of_nat (length (concat (pre ++ [wp :: last])))))
                       end) with
                | None => total r
                | Some t => t
                end = Some (Z.of_nat (length (concat (pre ++ [wp :: last])))))
          as ->.
        { by destruct pre. }
        rewrite reached_ge.
        -- rewrite concat_app, index_page_app. cbn [concat].
           by rewrite app_nil_r.
        -- rewrite concat_app. cbn [concat]. rewrite app_nil_r. cbn [app]. lia.
      * done.
      * intros i p Hp. eapply serves_page; [done|].
        by apply lookup_app_l_Some.
      * by left.
      * rewrite concat_app, length_app. cbn [concat length app].
        destruct last; [done|]. cbn. lia.
  - intros k wp H. apply index_page_sound in H as [H|(? & ? & ?)]; [|done].
    by rewrite lookup_empty in H.
  - intros k wp Hin Hk Hne'. apply index_page_complete; [done|]. right. eauto.
Qed.

(** X19. A request that fails aborts the caching: when the pages before
    it were served and did not end the loop, the error of the failing
    request is thrown again and no partial cache is returned. *)
Theorem failed_page_aborts_the_cache (get_page : nat → result page)
    (n : nat) (pre : list (list work_package)) (e : exn) (fuel : nat) :
  Forall (λ p, p ≠ []) pre →
  (∀ i p, pre !! i = Some p →
          ∃ response, get_page (S i) = Ok response
                      ∧ total response = Some (Z.of_nat n)
                      ∧ elements response = Some p) →
  (length (concat pre) < n)%nat →
  get_page (S (length pre)) = Throw e →
  (length pre < fuel)%nat →
  getOpenProjectWorkPackages get_page fuel = Some (Throw e).
Proof.
  intros Hne Hget Hlen Hthrow Hfuel. unfold getOpenProjectWorkPackages.
  replace fuel with (length pre + S (fuel - length pre - 1))%nat by lia.
  rewrite (fetch_steps get_page n pre); [|done|done|by left|done].
  cbn [fetch Nat.add]. by rewrite Hthrow.
Qed.

End CacheFacts.

(** ** Migration of all projects *)

Section MigrateAllFacts.

Import MigrateAll.

Context (toUpperCase : string → string) (t : tools).

Lemma issues_phase (m : gmap string Z) (jiraProjects : list jira_project)
    (st : list event) :
  ∃ l, for_each (migrate_issues_of toUpperCase t m) jiraProjects st = (Ok (), st ++ l)
       ∧ forallb of_issues l = true
       ∧ issues_started l
         = omap (λ p, let k := toUpperCase (key p) in
                      (λ n, (k, n)) <$> project_id m k) jiraProjects.
Proof.
  revert st. induction jiraProjects as [|p ps IH]; intros st.
  - exists []. by rewrite app_nil_r.
  - cbn [for_each]. rewrite run_bind. unfold migrate_issues_of at 1.
    cbn [omap list_omap]. cbn zeta.
    destruct (project_id m (toUpperCase (key p))) as [n|]; cbn [fmap option_fmap option_map].
    + rewrite run_bind. cbn [say]. unfold try_catch. rewrite run_bind.
      unfold lift at 1.
      destruct (migrateIssues t (toUpperCase (key p)) n) as [[]|e]; cbn [say].
      * destruct (IH ((st ++ [IssuesStarted (toUpperCase (key p)) n])
                        ++ [IssuesFinished (toUpperCase (key p))]))
          as (l & -> & Hl & Hs).
        exists (IssuesStarted (toUpperCase (key p)) n
                  :: IssuesFinished (toUpperCase (key p)) :: l).
        rewrite <- !app_assoc. split_and!; [done|done|].
        unfold issues_started in *. cbn [omap list_omap]. by rewrite Hs.
      * destruct (IH ((st ++ [IssuesStarted (toUpperCase (key p)) n])
                        ++ [IssuesFailed (toUpperCase (key p))]))
          as (l & -> & Hl & Hs).
        exists (IssuesStarted (toUpperCase (key p)) n
                  :: IssuesFailed (toUpperCase (key p)) :: l).
        rewrite <- !app_assoc. split_and!; [done|done|].
        unfold issues_started in *. cbn [omap list_omap]. by rewrite Hs.
    + cbn [say]. destruct (IH (st ++ [NoMatch (toUpperCase (key p))]))
        as (l & -> & Hl & Hs).
      exists (NoMatch (toUpperCase (key p)) :: l).
      rewrite <- !app_assoc. split_and!; [done|done|].
        unfold issues_started in *. cbn [omap list_omap]. by rewrite Hs.
Qed.

Lemma parents_phase (m : gmap string Z) (jiraProjects : list jira_project)
    (st : list event) :
  (∀ k n, migrate_parents t k n = Ok ()) →
  for_each (migrate_parents_of toUpperCase t m) jiraProjects st
  = (Ok (), st ++ ((λ kn, ParentsStarted kn.1 kn.2)
                     <$> omap (λ p, let k := toUpperCase (key p) in
                                    (λ n, (k, n)) <$> project_id m k)
                           jiraProjects)).
Proof.
  intros Hok. revert st. induction jiraProjects as [|p ps IH]; intros st.
  - cbn. by rewrite app_nil_r.
  - cbn [for_each]. rewrite run_bind. unfold migrate_parents_of at 1.
    cbn [omap list_omap]. cbn zeta.
    destruct (project_id m (toUpperCase (key p))) as [n|];
      cbn [fmap option_fmap option_map].
    + rewrite run_bind. cbn [say]. unfold lift. rewrite Hok, IH.
      rewrite <- app_assoc. done.
    + cbn [mret M_ret]. by rewrite IH.
Qed.

Lemma relationships_phase (m : gmap string Z)
    (jiraProjects : list jira_project) (st : list event) :
  (∀ k n, migrate_relationships t k n = Ok ()) →
  for_each (migrate_relationships_of toUpperCase t m) jiraProjects st
  = (Ok (), st ++ ((λ kn, RelationshipsStarted kn.1 kn.2)
                     <$> omap (λ p, let k := toUpperCase (key p) in
                                    (λ n, (k, n)) <$> project_id m k)
                           jiraProjects)).
Proof.
  intros Hok. revert st. induction jiraProjects as [|p ps IH]; intros st.
  - cbn. by rewrite app_nil_r.
  - cbn [for_each]. rewrite run_bind. unfold migrate_relationships_of at 1.
    cbn [omap list_omap]. cbn zeta.
    destruct (project_id m (toUpperCase (key p))) as [n|];
      cbn [fmap option_fmap option_map].
    + rewrite run_bind. cbn [say]. unfold lift. rewrite Hok, IH.
      rewrite <- app_assoc. done.
    + cbn [mret M_ret]. by rewrite IH.
Qed.

(** X20. When the two scripts succeed, the run goes through its three
    phases in order and each phase covers the same projects: the Jira
    projects whose key, put in upper case by [toUpperCase], is the name of
    a project of the target put in upper case the same way (the last such
    project when several have that name), in the order of the Jira
    projects.  A project
    whose migration of issues threw is reported as failed and still gets
    its parents and its relationships migrated; a project without a match
    is left out of all three phases. *)
Theorem phases_cover_the_matched_projects (jiraProjects : list jira_project)
    (openProjects : list op_project) :
  (∀ k n, migrate_parents t k n = Ok ()) →
  (∀ k n, migrate_relationships t k n = Ok ()) →
  ∃ first,
    migrateAll toUpperCase t jiraProjects openProjects []
    = (Ok (),
       first
       ++ ((λ kn, ParentsStarted kn.1 kn.2) <$> matched toUpperCase jiraProjects openProjects)
       ++ ((λ kn, RelationshipsStarted kn.1 kn.2)
             <$> matched toUpperCase jiraProjects openProjects)
       ++ [Completed])
    ∧ forallb of_issues first = true
    ∧ issues_started first = matched toUpperCase jiraProjects openProjects.
Proof.
  intros Hp Hr. unfold migrateAll. cbn zeta.
  destruct (issues_phase (opProjectMap toUpperCase openProjects) jiraProjects [])
    as (first & Hfirst & Hof & Hstarted).
  exists first. split; [|done].
  rewrite run_bind, Hfirst, run_bind, parents_phase, run_bind,
    relationships_phase by done.
  unfold say, matched. by rewrite <- !app_assoc.
Qed.

Lemma parents_phase_fails (m : gmap string Z)
    (jiraProjects : list jira_project) (k : string) (n : Z) (e : exn)
    (st : list event) :
  (k, n) ∈ omap (λ p, let k := toUpperCase (key p) in
                      (λ n, (k, n)) <$> project_id m k) jiraProjects →
  migrate_parents t k n = Throw e →
  ∃ e' l, for_each (migrate_parents_of toUpperCase t m) jiraProjects st = (Throw e', st ++ l)
          ∧ forallb (λ ev, match ev with ParentsStarted _ _ => true | _ => false end)
              l = true.
Proof.
  intros Hin Hthrow. revert st.
  induction jiraProjects as [|p ps IH]; intros st;
    [by apply elem_of_nil in Hin|].
  cbn [for_each]. rewrite run_bind. unfold migrate_parents_of at 1.
  cbn [omap list_omap] in Hin. cbn zeta in Hin.
  destruct (project_id m (toUpperCase (key p))) as [n0|];
    cbn [fmap option_fmap option_map] in Hin.
  - rewrite run_bind. cbn [say]. unfold lift.
    destruct (migrate_parents t (toUpperCase (key p)) n0) as [[]|e0] eqn:E.
    + apply elem_of_cons in Hin as [[= -> ->]|Hin]; [congruence|].
      destruct (IH Hin (st ++ [ParentsStarted (toUpperCase (key p)) n0]))
        as (e' & l & -> & Hl).
      exists e', (ParentsStarted (toUpperCase (key p)) n0 :: l).
      by rewrite <- app_assoc.
    + by exists e0, [ParentsStarted (toUpperCase (key p)) n0].
  - cbn [mret M_ret]. apply (IH Hin).
Qed.

(** X21. A parents script that fails stops the whole run: when the script
    throws for one of the matched projects, the run throws, no project gets
    its relationships migrated, and the run is not reported as completed.
    (A failure of [migrateIssues], by contrast, is caught per project.) *)
Theorem failed_parents_script_stops_the_run (jiraProjects : list jira_project)
    (openProjects : list op_project) (k : string) (n : Z) (e : exn) :
  (k, n) ∈ matched toUpperCase jiraProjects openProjects →
  migrate_parents t k n = Throw e →
  ∃ e' l, migrateAll toUpperCase t jiraProjects openProjects [] = (Throw e', l)
          ∧ relationships_started l = []
          ∧ Completed ∉ l.
Proof.
  intros Hin Hthrow. unfold migrateAll. cbn zeta.
  destruct (issues_phase (opProjectMap toUpperCase openProjects) jiraProjects [])
    as (first & Hfirst & Hof & _).
  destruct (parents_phase_fails (opProjectMap toUpperCase openProjects) jiraProjects
              k n e ([] ++ first) Hin Hthrow) as (e' & l & Hrun & Hl).
  exists e', (([] ++ first) ++ l). rewrite run_bind, Hfirst, run_bind, Hrun.
  split; [done|].
  assert (∀ l', forallb (λ ev, match ev with
                               | RelationshipsStarted _ _ | Completed => false
                               | _ => true
                               end) l' = true →
                relationships_started l' = [] ∧ Completed ∉ l') as Hno.
  { induction l' as [|ev l' IH]; [by split; [|apply not_elem_of_nil]|].
    cbn [forallb]. intros [Hev Hl']%andb_true_iff.
    destruct (IH Hl') as [IH1 IH2]. split.
    - unfold relationships_started in *. cbn [omap list_omap].
      rewrite IH1. by destruct ev.
    - apply not_elem_of_cons. split; [by destruct ev|done]. }
  apply Hno. rewrite !forallb_app. cbn [forallb andb].
  apply andb_true_iff. split.
  - revert Hof. clear. induction first as [|ev l IH]; [done|].
    cbn [forallb]. intros [Hev Hl]%andb_true_iff. rewrite IH by done.
    by destruct ev.
  - revert Hl. clear. induction l as [|ev l IH]; [done|].
    cbn [forallb]. intros [Hev Hl]%andb_true_iff. rewrite IH by done.
    by destruct ev.
Qed.

End MigrateAllFacts.

(** ** A lookup that fails *)

Section ReadFacts.

Import Synchronizer Reads.

Context (w : collaborators).

Lemma emit_stays (ev e : event) :
  preserves (λ st, ev ∈ log st) (emit e).
Proof. intros st H. cbn. apply elem_of_app. by left. Qed.

Lemma log_kept_stays {A} (ev : event) (m : M state A) :
  (∀ st, log (m st).2 = log st) → preserves (λ st, ev ∈ log st) m.
Proof. intros Hm st H. by rewrite Hm. Qed.

Ltac stays :=
  repeat first
    [ apply preserves_ret | apply preserves_throw | apply preserves_lift
    | apply emit_stays
    | apply log_kept_stays; reflexivity
    | apply preserves_bind | apply preserves_for_each
    | apply preserves_fold_m | apply preserves_try_catch
    | progress intros
    | match goal with
      | |- preserves _ (if ?b then _ else _) => destruct b
      | |- preserves _ (match ?x with _ => _ end) => destruct x
      end ].

(** X22. A lookup that fails is taken as a lookup that finds nothing:
    [findExistingWorkPackage] turns every error into [null].  So in a live
    run without [skipUpdates], an issue whose lookup failed, whose status,
    type and priority the vocabulary lookups resolve without throwing,
    whose description converts and which has a creator, is sent to the
    target as a new work package, with the payload of the issue, which
    carries the ids those lookups returned, whether or not the target
    already holds one for its key. *)
Theorem failed_lookup_creates_a_work_package
    (answers : string → result (list Cache.work_package))
    (types statuses priorities : list Vocabulary.entry)
    (openProjectId : Z) (mapResponsible : bool) (i : issue) (u : jira_user)
    (raw : string) (e : exn) (st : state) :
  looks_up_through w answers →
  answers (key i) = Throw e →
  lookups_return w types statuses priorities i →
  Converter.convertAtlassianDocumentToHtml (description i) = Ok raw →
  creator i = Some u →
  let p := build_payload w openProjectId mapResponsible i raw in
  Called (CreateWorkPackage p (commentUserMapping w (userMapping w (accountId u))))
  ∈ log (migrateIssues w openProjectId true false mapResponsible [i] st).2
  ∧ Vocabulary.getWorkPackageStatusId statuses (status_name i)
    = Ok (status_id p)
  ∧ Vocabulary.getWorkPackageTypeId types (issuetype_name i) = Ok (type_id p)
  ∧ (∃ answer,
       Vocabulary.getWorkPackagePriorityId priorities (priority i) = Ok answer
       ∧ priority_id p = priority_id_of answer).
Proof.
  intros Hw Ha (Hstatus & _ & Htype & Hpriority) Hraw Hu. cbn zeta.
  split; [|by split_and!].
  set (ev := Called (CreateWorkPackage
                       (build_payload w openProjectId mapResponsible i raw)
                       (commentUserMapping w (userMapping w (accountId u))))).
  assert (∀ wp, preserves (λ s, ev ∈ log s)
            (_ ← map_set (key i) wp;
             attachmentIdMap ← process_attachments w true i wp;
             _ ← finalize_description w true i wp raw attachmentIdMap;
             _ ← process_comments w true i wp attachmentIdMap;
             _ ← add_watchers w true i wp;
             count_processed)) as Hrest.
  { intros wp.
    unfold process_attachments, process_attachment, finalize_description,
      process_comments, process_comment, add_watchers, impersonated.
    stays. }
  assert (preserves (λ s, ev ∈ log s)
            (_ ← emit (ProcessingFailed (key i)); count_error)) as Hfail
    by stays.
  unfold migrateIssues. cbn [for_each]. rewrite run_bind.
  unfold try_catch, process_issue. rewrite run_bind, run_bind.
  cbn [emit mret M_ret]. rewrite Hw, Ha. cbn [findExistingWorkPackage fmap option_fmap option_map].
  rewrite run_bind.
  match goal with |- context [bool_decide ?P] => destruct (bool_decide P) end;
    cbn [count_unknown_status mret M_ret];
    rewrite run_bind; unfold lift at 1; rewrite Hraw;
    rewrite run_bind; unfold write_work_package at 1;
    rewrite run_bind; unfold impersonated at 1; rewrite Hu;
    cbn [mret M_ret]; rewrite run_bind; cbn [emit]; unfold lift at 1;
    (destruct (createWorkPackage w _ _) as [wp|e'];
     [match goal with |- context [(map_set (key i) wp ≫= ?k) ?s] =>
        pose proof (Hrest wp s) as Hin;
        destruct ((map_set (key i) wp ≫= k) s) as [[[]|e2] s2]
      end;
      [apply Hin; cbn; apply elem_of_app; right; by left
      |apply (Hfail s2); apply Hin; cbn; apply elem_of_app; right; by left]
     |cbn; apply elem_of_app; left; apply elem_of_app; right; by left]).
Qed.

End ReadFacts.

(** ** Worked examples of whole runs *)

Section RunExamples.

Import Relationships RelationshipRuns.

Lemma memory_target_well_formed : well_formed_answers memory_target.
Proof.
  intros t a b ty t' errors H. cbn in H.
  destruct (existsb (related a b) t); [|done].
  injection H as _ <-. by repeat constructor.
Defined.

(** An instance of [sweep_only_reports]: P-1 links to Q-9, which was not
    migrated; the sweep reports the link and creates nothing. *)
Lemma sweep_only_reports_witness :
  well_formed_answers memory_target
  ∧ createRelationships memory_target dangling_batch
      [("P-1", IdNum 101); ("P-2", IdNum 102)] (initial [])
    = (Ok (), reported (after_main_pass memory_target dangling_batch
                          [("P-1", IdNum 101); ("P-2", IdNum 102)] (initial [])))
  ∧ still_missing
      (log (createRelationships memory_target dangling_batch
              [("P-1", IdNum 101); ("P-2", IdNum 102)] (initial [])).2)
    = [Triple "P-1" "Q-9" Duplicates].
Proof.
  split; [exact memory_target_well_formed|]. split; [|by vm_compute].
  exact (sweep_only_reports memory_target memory_target_well_formed
           dangling_batch [("P-1", IdNum 101); ("P-2", IdNum 102)] []).
Defined.

End RunExamples.

Section SynchronizerRunExamples.

Import Converter Synchronizer SynchronizerRuns.

(** An instance of [cached_issues_are_only_skipped]: both issues are in
    the cache. *)
Lemma cached_issues_are_only_skipped_witness :
  Forall (λ i, is_Some (cache_get cached_world (key i)))
    [example_issue; second_issue]
  ∧ log (migrateIssues cached_world 1 true true true
           [example_issue; second_issue] initial).2
    = [SkippedExisting "P-1" (IdNum 7); SkippedExisting "P-2" (IdNum 7)].
Proof.
  assert (H : Forall (λ i, is_Some (cache_get cached_world (key i)))
                [example_issue; second_issue]).
  { repeat constructor; by eexists. }
  split; [exact H|].
  exact (proj1 (cached_issues_are_only_skipped cached_world 1 true true
                  [example_issue; second_issue] initial H)).
Defined.

(** An instance of [unconvertible_description_fails_early]: P-3 has a text
    node without text. *)
Lemma unconvertible_description_fails_early_witness :
  convertAtlassianDocumentToHtml (description broken_issue)
  = Throw (TypeError "node.text is undefined")
  ∧ ∃ failed,
      migrateIssues fresh_world 1 true false true [broken_issue; second_issue]
        initial
      = migrateIssues fresh_world 1 true false true [second_issue] failed
      ∧ errors failed = 1%nat
      ∧ issueToWorkPackageMap failed = ∅.
Proof.
  split; [reflexivity|].
  destruct (unconvertible_description_fails_early fresh_world 1 true false true
              broken_issue [second_issue]
              (TypeError "node.text is undefined") initial eq_refl
              (λ H : false = true,
                 match H in _ = b return (if b then _ else True) with
                 | eq_refl => I
                 end))
    as (failed & H1 & H2 & _ & H4 & _).
  exists failed. split; [exact H1|]. split; [exact H4|exact H2].
Defined.

(** An instance of [existing_attachments_are_reused]: a.png is on the
    work package already. *)
Lemma existing_attachments_are_reused_witness :
  attachment example_issue
  = Some [ {| filename := "a.png"; content := "https://jira/a.png" |} ]
  ∧ ∃ table,
      process_attachments rerun_world true example_issue (IdNum 7) initial
      = (Ok table, (emit (Called (GetExistingAttachments (IdNum 7))) initial).2).
Proof.
  split; [reflexivity|].
  destruct (existing_attachments_are_reused rerun_world example_issue
              [ {| filename := "a.png"; content := "https://jira/a.png" |} ]
              (IdNum 7) initial eq_refl)
    as (table & H & _).
  { repeat constructor. by eexists. }
  exists table. exact H.
Defined.

(** An instance of [migrated_comments_are_not_posted_again]: the comment
    10001 carries its marker on the target. *)
Lemma migrated_comments_are_not_posted_again_witness :
  comments example_issue
  = Some [ {| comment_id := "10001";
              author := Some {| accountId := "acc-1"; displayName := "C" |};
              body := DocString "see the diagram" |} ]
  ∧ process_comments migrated_world true example_issue (IdNum 7) [] initial
    = (Ok (), (emit (Called (GetExistingComments (IdNum 7))) initial).2).
Proof.
  split; [reflexivity|].
  apply (migrated_comments_are_not_posted_again migrated_world example_issue
           [ {| comment_id := "10001";
                author := Some {| accountId := "acc-1"; displayName := "C" |};
                body := DocString "see the diagram" |} ]
           (IdNum 7) [] initial eq_refl).
  constructor; [|constructor]. split; [by eexists|]. cbn. right. left.
Defined.

(** An instance of [media_reference_becomes_image] for a.png. *)
Lemma media_reference_becomes_image_witness :
  "a.png" ≠ EmptyString
  ∧ substitute [("a.png", AttachmentId 56)] ("<p>" +:+ placeholder "a.png" +:+ "</p>")
    = "<p>" +:+ imageTag (AttachmentId 56) +:+ "</p>".
Proof.
  assert (H : "a.png" ≠ EmptyString) by discriminate.
  split; [exact H|].
  exact (proj2 (media_reference_becomes_image "a.png" (AttachmentId 56) H)).
Defined.

End SynchronizerRunExamples.

Section VocabularyExamples.

Import Vocabulary.

(** An instance of [unmapped_names_fall_back]: the status Backlog is not in
    the mapping. *)
Lemma unmapped_names_fall_back_witness :
  unmapped statusMapping "Backlog"
  ∧ getWorkPackageStatusId sample_statuses "Backlog" = Ok 1%Z
  ∧ getWorkPackageStatusId sample_statuses "unknown" = Ok 1%Z.
Proof.
  assert (H : unmapped statusMapping "Backlog").
  { split; apply (bool_decide_unpack _); by vm_compute. }
  split; [exact H|].
  pose proof (proj1 (unmapped_names_fall_back sample_statuses "Backlog") H)
    as [H1 _].
  split; [reflexivity|]. rewrite <- H1. reflexivity.
Defined.

(** An instance of [priority_lookup_returns]: the target has no priority
    named Critical; the default is taken. *)
Lemma priority_lookup_returns_witness :
  ("Highest" ∉ inherited)
  ∧ ∃ answer, getWorkPackagePriorityId sample_statuses (Some "Highest") = Ok answer.
Proof.
  assert (H : "Highest" ∉ inherited).
  { apply (bool_decide_unpack _). by vm_compute. }
  split; [exact H|].
  destruct (priority_lookup_returns sample_statuses "Highest" H)
    as (_ & answer & Ha & _).
  exists answer. exact Ha.
Defined.

(** An instance of [vocabulary_names_ignore_case]: the same statuses with
    their names in upper case. *)
Lemma vocabulary_names_ignore_case_witness :
  same_up_to_case sample_statuses
    [ {| name := "NEW"; id := 1; isDefault := true |};
      {| name := "IN PROGRESS"; id := 7; isDefault := false |};
      {| name := "CLOSED"; id := 12; isDefault := false |} ]
  ∧ getWorkPackageStatusId sample_statuses "Live"
    = getWorkPackageStatusId
        [ {| name := "NEW"; id := 1; isDefault := true |};
          {| name := "IN PROGRESS"; id := 7; isDefault := false |};
          {| name := "CLOSED"; id := 12; isDefault := false |} ] "Live".
Proof.
  assert (H : same_up_to_case sample_statuses
                [ {| name := "NEW"; id := 1; isDefault := true |};
                  {| name := "IN PROGRESS"; id := 7; isDefault := false |};
                  {| name := "CLOSED"; id := 12; isDefault := false |} ]).
  { repeat constructor. }
  split; [exact H|].
  exact (proj2 (vocabulary_names_ignore_case _ _ "Live" H)).
Defined.

End VocabularyExamples.

Section CacheExamples.

Import Cache.

Lemma sample_pages_served : serves sample_pages sample_get_page.
Proof.
  intros i. eexists. split; [reflexivity|]. split; [reflexivity|].
  destruct i as [|[|i]]; cbn; [reflexivity|reflexivity|by right].
Defined.

(** An instance of [cache_indexes_the_served_work_packages]: three work
    packages on two pages, one of them without a Jira key. *)
Lemma cache_indexes_the_served_work_packages_witness :
  Forall (λ p, p ≠ []) sample_pages
  ∧ serves sample_pages sample_get_page
  ∧ getOpenProjectWorkPackages sample_get_page 2
    = Some (Ok (index_page ∅ (concat sample_pages))).
Proof.
  assert (H : Forall (λ p : list work_package, p ≠ []) sample_pages).
  { repeat constructor; discriminate. }
  split; [exact H|]. split; [exact sample_pages_served|].
  refine (proj1 (cache_indexes_the_served_work_packages sample_pages
                   sample_get_page 2 H sample_pages_served _ _)); cbn; lia.
Defined.

(** An instance of [failed_page_aborts_the_cache]: the second request
    fails. *)
Lemma failed_page_aborts_the_cache_witness :
  failing_get_page 2 = Throw (HttpError (Some 500%Z))
  ∧ getOpenProjectWorkPackages failing_get_page 2
    = Some (Throw (HttpError (Some 500%Z))).
Proof.
  split; [reflexivity|].
  refine (failed_page_aborts_the_cache failing_get_page 3
            [ [ {| wp_id := IdNum 11; jiraId := Some "P-1" |};
                {| wp_id := IdNum 12; jiraId := None |} ] ]
            (HttpError (Some 500%Z)) 2 _ _ _ eq_refl _).
  - repeat constructor; discriminate.
  - intros i p Hp. destruct i as [|i]; [|discriminate Hp].
    injection Hp as <-. eexists. split; [reflexivity|]. split; reflexivity.
  - cbn. lia.
  - cbn. lia.
Defined.

End CacheExamples.

Section MigrateAllExamples.

Import MigrateAll.

(** An instance of [phases_cover_the_matched_projects]: the project Web
    matches the project web of the target and OPS matches none; the
    migration of issues fails and the later phases still run. *)
Lemma phases_cover_the_matched_projects_witness :
  (∀ k n, migrate_parents failing_issues k n = Ok ())
  ∧ (∀ k n, migrate_relationships failing_issues k n = Ok ())
  ∧ ∃ first,
      migrateAll toUpperCase_ascii failing_issues sample_jira sample_open []
      = (Ok (),
         first ++ [ParentsStarted "WEB" 3] ++ [RelationshipsStarted "WEB" 3]
           ++ [Completed])
      ∧ issues_started first = [("WEB", 3%Z)].
Proof.
  split; [reflexivity|]. split; [reflexivity|].
  destruct (phases_cover_the_matched_projects toUpperCase_ascii failing_issues sample_jira
              sample_open (λ _ _, eq_refl) (λ _ _, eq_refl))
    as (first & H & _ & Hs).
  exists first. split; [exact H|exact Hs].
Defined.

(** An instance of [failed_parents_script_stops_the_run]. *)
Lemma failed_parents_script_stops_the_run_witness :
  ("WEB", 3%Z) ∈ matched toUpperCase_ascii sample_jira sample_open
  ∧ ∃ e l, migrateAll toUpperCase_ascii failing_parents sample_jira sample_open [] = (Throw e, l)
           ∧ relationships_started l = [].
Proof.
  assert (H : ("WEB", 3%Z) ∈ matched toUpperCase_ascii sample_jira sample_open).
  { apply (bool_decide_unpack _). by vm_compute. }
  split; [exact H|].
  destruct (failed_parents_script_stops_the_run toUpperCase_ascii failing_parents sample_jira
              sample_open "WEB" 3 (TypeError "Command failed") H eq_refl)
    as (e & l & H1 & H2 & _).
  exists e, l. split; [exact H1|exact H2].
Defined.

End MigrateAllExamples.

Section ReadExamples.

Import Synchronizer Reads.

(** An instance of [failed_lookup_creates_a_work_package]: the lookup of
    P-1 fails, its status and type fall back to the first status and type
    of the target, and P-1 is created. *)
Lemma failed_lookup_creates_a_work_package_witness :
  looks_up_through unreachable_world unreachable_lookups
  ∧ lookups_return unreachable_world sample_types Vocabulary.sample_statuses []
      example_issue
  ∧ Called (CreateWorkPackage example_payload None)
    ∈ log (migrateIssues unreachable_world 1 true false true [example_issue]
             initial).2.
Proof.
  assert (Hv : lookups_return unreachable_world sample_types
                 Vocabulary.sample_statuses [] example_issue).
  { split; [reflexivity|]. split; [reflexivity|]. split; [reflexivity|].
    exists Vocabulary.PriorityNull. split; reflexivity. }
  split; [by intros k|]. split; [exact Hv|].
  exact (proj1
         (failed_lookup_creates_a_work_package unreachable_world
           unreachable_lookups sample_types Vocabulary.sample_statuses []
           1 true example_issue
           {| accountId := "acc-1"; displayName := "C" |}
           ("<p>" +:+ Converter.placeholder "a.png" +:+ "</p>")
           (HttpError (Some 503%Z)) initial
           (λ k, eq_refl) eq_refl Hv eq_refl eq_refl)).
Defined.

End ReadExamples.
